(** * uscf: tunnel lifecycle, backoff, buffer pool, resolver cache,
      idle-timeout connection and configuration durations

    Shallow embedding of the Go sources
      - [api/tunnel.go]      (NetBuffer, ExponentialBackoff, handleForwarding,
                              handleConnection, MaintainTunnel),
      - [api/resolver.go]    (CachingDNSResolver),
      - [models] TimeoutConn,
      - [config/config.go]   (Duration, LoadConfig and the defaults,
                              InitNewConfig),
      - [service/tunnel/setup.go] (TimeoutSettings, PrepareNetworkConfig,
                              StartTunnel),
      - [cmd]                (runProxyCmd, handleRegistration),
      - [service/socks]      (Run, createServer).

    Conventions.
      - Go's [int], [int64] and [time.Duration] are [Z] with the two's
        complement wrap-around written out ([wrap64]); [uint64] is [Z] with
        [wrapU64].
      - [float64] is kept behind a small interface ([FloatArith]).  Its
        instance for the program is IEEE-754 binary64 (the Standard
        Library's [SpecFloat]); the statements about [ExponentialBackoff]
        and about durations are proved on it.  Exact rational arithmetic is
        a second instance, kept for comparison in the duration lemmas.
      - Calls into collaborators (the device, the MASQUE connection, the
        DNS client, the wrapped [net.Conn], the clock, the random source) are
        answered by an explicit environment value, and calls made by the code
        are recorded in a trace. *)

From Stdlib Require Import ZArith QArith Qround Qpower Qminmax Lia Lqa List Bool String Ascii.
From Stdlib Require Import SpecFloat.
From stdpp Require Import base option list gmap strings.

Local Open Scope Z_scope.

(** ** Machine integers *)

Definition wrap64 (z : Z) : Z := (z + 2 ^ 63) mod 2 ^ 64 - 2 ^ 63.
Definition wrapU64 (z : Z) : Z := z mod 2 ^ 64.

Definition min_int64 : Z := - 2 ^ 63.
Definition max_int64 : Z := 2 ^ 63 - 1.

Definition in_int64 (z : Z) : Prop := min_int64 <= z <= max_int64.

(** ** float64 *)

(** The operations of [float64] that the sources use.  [of_int] is the
    conversion [float64(x)] of an [int64]; [to_int] is the conversion
    [int64(x)] (and [time.Duration(x)]), which truncates toward zero. *)
Record FloatArith : Type := {
  F : Type;
  of_int : Z -> F;
  to_int : F -> Z;
  fmul : F -> F -> F;
  fdiv : F -> F -> F;
  flt : F -> F -> bool;
  tenth : F      (* the constant 0.1 *)
}.

Module Binary64.
  (** IEEE-754 binary64: precision 53, emax 1024. *)
Definition prec : Z := 53.
Definition emax : Z := 1024.

Definition of_int64 (z : Z) : spec_float := binary_normalize prec emax z 0 false.

(** [int64(x)]: truncation toward zero.  For a value that does not fit, for
    an infinity and for NaN Go leaves the result to the implementation; the
    amd64 instruction yields [-2^63], which is what is written here. *)
Definition to_int64 (x : spec_float) : Z :=
  match x with
  | S754_zero _ => 0
  | S754_finite s m e =>
      let v := if 0 <=? e then Z.pos m * 2 ^ e else Z.pos m / 2 ^ (- e) in
      let z := if s then - v else v in
      if (min_int64 <=? z) && (z <=? max_int64) then z else min_int64
  | S754_infinity _ | S754_nan => min_int64
  end.

(** 0.1 as a binary64: 0x1.999999999999ap-4. *)
Definition one_tenth : spec_float := S754_finite false 7205759403792794 (-56).

Definition arith : FloatArith := {|
    F := spec_float;
    of_int := of_int64;
    to_int := to_int64;
    fmul := SFmul prec emax;
    fdiv := SFdiv prec emax;
    flt := SFltb;
    tenth := one_tenth
  |}.
End Binary64.

Module Exact.
  (** Exact rational arithmetic: every operation is the mathematical one. *)
Definition trunc (q : Q) : Z := Z.quot (Qnum q) (Z.pos (Qden q)).

Definition to_int64 (q : Q) : Z :=
  let z := trunc q in
  if (min_int64 <=? z) && (z <=? max_int64) then z else min_int64.

Definition lt (x y : Q) : bool :=
  match Qcompare x y with Lt => true | _ => false end.

Definition arith : FloatArith := {|
    F := Q;
    of_int := inject_Z;
    to_int := to_int64;
    fmul := Qmult;
    fdiv := Qdiv;
    flt := lt;
    tenth := 1 # 10
  |}.
End Exact.

(** ** ExponentialBackoff ([api/tunnel.go]) *)

Module Backoff.
Section WithArith.
Context (A : FloatArith).

Record ExponentialBackoff : Type := {
  InitialDelay : Z;
  MaxDelay : Z;
  Factor : F A;
  attempt : Z
}.

(** The loop
    [for i := 0; i < attempt && float64(delay) < maxDelayInFloat; i++]
    with [n] the number of iterations that [i < attempt] still allows. *)
Fixpoint grow (f maxDelayInFloat : F A) (n : nat) (delay : Z) : Z :=
  match n with
  | O => delay
  | S n' =>
      if flt A (of_int A delay) maxDelayInFloat
      then grow f maxDelayInFloat n' (to_int A (fmul A (of_int A delay) f))
      else delay
  end.

(** The attempt number the delay is computed from. *)
Definition effective_attempt (b : ExponentialBackoff) (k : Z) : Z :=
  if k <=? 0 then wrap64 (attempt b + 1) else k.

(** The delay before jitter: the loop, then the clamp to [MaxDelay]. *)
Definition base_delay (b : ExponentialBackoff) (a : Z) : Z :=
  let maxDelayInFloat := fdiv A (of_int A (MaxDelay b)) (Factor b) in
  let delay := grow (Factor b) maxDelayInFloat (Z.to_nat a) (InitialDelay b) in
  if delay >? MaxDelay b then MaxDelay b else delay.

(** [jitter := time.Duration(float64(delay) * 0.1)] *)
Definition jitter_of (delay : Z) : Z :=
  to_int A (fmul A (of_int A delay) (tenth A)).

(** [delay - jitter + time.Duration(float64(jitter*2)*rand.Float64())],
    [r] being the value drawn by [rand.Float64()]. *)
Definition add_jitter (delay : Z) (r : F A) : Z :=
  let jitter := jitter_of delay in
  wrap64 (wrap64 (delay - jitter)
          + to_int A (fmul A (of_int A (wrap64 (jitter * 2))) r)).

Definition NextDelay (b : ExponentialBackoff) (k : Z) (r : F A)
  : Z * ExponentialBackoff :=
  let a := effective_attempt b k in
  let delay := add_jitter (base_delay b a) r in
  (delay, {| InitialDelay := InitialDelay b; MaxDelay := MaxDelay b;
             Factor := Factor b; attempt := a |}).

Definition Reset (b : ExponentialBackoff) : ExponentialBackoff :=
    {| InitialDelay := InitialDelay b; MaxDelay := MaxDelay b;
       Factor := Factor b; attempt := 0 |}.
End WithArith.
End Backoff.

(** ** Errors and panics *)

(** A Go [error] value is represented by its message; [nil] is [None]. *)
Definition error : Type := string.

(** A computation that either completes or panics. *)
Inductive go (T : Type) : Type :=
| Done (x : T)
| Panic (msg : string).
Arguments Done {T} x.
Arguments Panic {T} msg.

(** ** TunnelStats ([api/tunnel.go]) *)

Module Stats.
Record TunnelStats : Type := {
    PacketsIn : Z;
    PacketsOut : Z;
    BytesIn : Z;
    BytesOut : Z;
    Errors : Z;
    HandShake : Z;
    LastReconnect : Z
  }.

(** [&TunnelStats{}] *)
Definition zero : TunnelStats :=
  {| PacketsIn := 0; PacketsOut := 0; BytesIn := 0; BytesOut := 0;
     Errors := 0; HandShake := 0; LastReconnect := 0 |}.

Definition RecordPacketIn (bytes : Z) (s : TunnelStats) : TunnelStats :=
  {| PacketsIn := wrapU64 (PacketsIn s + 1);
     PacketsOut := PacketsOut s;
     BytesIn := wrapU64 (BytesIn s + wrapU64 bytes);
     BytesOut := BytesOut s;
     Errors := Errors s; HandShake := HandShake s;
     LastReconnect := LastReconnect s |}.

Definition RecordPacketOut (bytes : Z) (s : TunnelStats) : TunnelStats :=
  {| PacketsIn := PacketsIn s;
     PacketsOut := wrapU64 (PacketsOut s + 1);
     BytesIn := BytesIn s;
     BytesOut := wrapU64 (BytesOut s + wrapU64 bytes);
     Errors := Errors s; HandShake := HandShake s;
     LastReconnect := LastReconnect s |}.

Definition RecordError (s : TunnelStats) : TunnelStats :=
  {| PacketsIn := PacketsIn s; PacketsOut := PacketsOut s;
     BytesIn := BytesIn s; BytesOut := BytesOut s;
     Errors := wrapU64 (Errors s + 1); HandShake := HandShake s;
     LastReconnect := LastReconnect s |}.

(** [now] is the value of [time.Now()]. *)
Definition RecordHandShake (now : Z) (s : TunnelStats) : TunnelStats :=
    {| PacketsIn := PacketsIn s; PacketsOut := PacketsOut s;
       BytesIn := BytesIn s; BytesOut := BytesOut s;
       Errors := Errors s; HandShake := wrapU64 (HandShake s + 1);
       LastReconnect := now |}.
End Stats.

(** ** NetBuffer: the packet buffer pool ([api/tunnel.go]) *)

Module Pool.
Definition packetBuffCap : Z := 2048.

(** A pointer to a byte slice: the identity of the slice it points to and the capacity of
    that slice.  [make([]byte, capacity)] gives length = capacity. *)
Record buffer : Type := { buf_id : nat; buf_cap : Z }.

(** [pooled] is what the [sync.Pool] currently holds; [next_id] names the
    slice that the next call of [New] allocates. *)
Record NetBuffer : Type := {
  capacity : Z;
  pooled : list buffer;
  next_id : nat
}.

Definition NewNetBuffer (capacity : Z) : go NetBuffer :=
  if capacity <=? 0 then Panic "capacity must be greater than 0"
  else Done {| capacity := capacity; pooled := []; next_id := 0 |}.

(** [sync.Pool.New] of the pool: [b := make([]byte, capacity); return &b]. *)
Definition New (n : NetBuffer) : buffer * NetBuffer :=
  ({| buf_id := next_id n; buf_cap := capacity n |},
   {| capacity := capacity n; pooled := pooled n; next_id := S (next_id n) |}).

(** [n.buf.Get()], asserted to be a pointer to a byte slice.  [sync.Pool.Get] hands out an arbitrary stored
    item, or the result of [New] when it finds none; [pick] is that choice
    ([Some i]: the i-th stored item, [None]: allocate). *)
Definition GetBuf (pick : option nat) (n : NetBuffer) : buffer * NetBuffer :=
  match pick with
  | Some i =>
      match pooled n !! i with
      | Some b => (b, {| capacity := capacity n;
                         pooled := delete i (pooled n);
                         next_id := next_id n |})
      | None => New n
      end
  | None => New n
  end.

Definition PutBuf (buf : buffer) (n : NetBuffer) : NetBuffer :=
  if negb (buf_cap buf =? capacity n) then n
  else {| capacity := capacity n; pooled := buf :: pooled n;
          next_id := next_id n |}.

(** Every stored buffer has the pool's capacity. *)
Definition wf (n : NetBuffer) : Prop :=
    Forall (fun b => buf_cap b = capacity n) (pooled n).
End Pool.

(** ** handleForwarding: the two copy loops ([api/tunnel.go]) *)

Module Forwarding.
Import Stats Pool.

(** What a copy loop does to the pool, the device, the IP connection and
    the error channel, in program order. *)
Inductive event : Type :=
  | PoolGet (b : buffer)                (* packetBufferPool.GetBuf() = b *)
  | PoolPut (b : buffer)                (* packetBufferPool.PutBuf(b) *)
  | DeviceRead (b : buffer)             (* device.ReadPacket( *b ) *)
  | DeviceWrite (len : Z)               (* device.WritePacket(pkt), len(pkt) *)
  | IPWrite (b : buffer) (n : Z)        (* ipConn.WritePacket(( *b )[:n]) *)
  | IPRead (b : buffer)                 (* ipConn.ReadPacket( *b, true) *)
  | SendErr (e : error).                (* errChan <- e *)

Record world : Type := {
  pool : NetBuffer;                   (* the global packetBufferPool *)
  stats : TunnelStats;
  trace : list event
}.

Definition emit (evs : list event) (w : world) : world :=
    {| pool := pool w; stats := stats w; trace := trace w ++ evs |}.
Definition set_pool (p : NetBuffer) (w : world) : world :=
    {| pool := p; stats := stats w; trace := trace w |}.
Definition set_stats (s : TunnelStats) (w : world) : world :=
    {| pool := pool w; stats := s; trace := trace w |}.

(** [packetBufferPool.GetBuf()] and [packetBufferPool.PutBuf(buf)] on the
    global pool, recorded in the trace. *)
Definition get_buf (pick : option nat) (w : world) : buffer * world :=
    let '(b, p) := GetBuf pick (pool w) in
    (b, emit [PoolGet b] (set_pool p w)).
Definition put_buf (b : buffer) (w : world) : world :=
    emit [PoolPut b] (set_pool (PutBuf b (pool w)) w).

Inductive step_result : Type :=
  | Continue                            (* next iteration of the [for] *)
  | Return                              (* the goroutine returns *)
  | Crash (msg : string).               (* run-time panic *)

(** [( *buf )[:n]] panics unless [0 <= n <= cap( *buf )]. *)
Definition slice_ok (b : buffer) (n : Z) : bool :=
  (0 <=? n) && (n <=? buf_cap b).

(** The answers of the collaborators during one iteration of the
    device-to-MASQUE loop. *)
Record egress_env : Type := {
  eg_done : bool;                     (* [<-ctx.Done()] is ready *)
  eg_pick : option nat;               (* choice made by [sync.Pool.Get] *)
  eg_read : Z * option error;         (* device.ReadPacket *)
  eg_write : list Byte.byte * option error;   (* ipConn.WritePacket *)
  eg_icmp : option error              (* device.WritePacket(icmp) *)
}.

Definition egress_step (e : egress_env) (w : world) : step_result * world :=
  if eg_done e then (Return, w)
  else
    let '(buf, w) := get_buf (eg_pick e) w in
    let w := emit [DeviceRead buf] w in
    match eg_read e with
    | (_, Some err) =>
        let w := put_buf buf w in
        (Return,
         emit [SendErr (String.append "failed to read from TUN device: " err)] w)
    | (n, None) =>
        let w := set_stats (RecordPacketOut n (stats w)) w in
        if negb (slice_ok buf n) then (Crash "slice bounds out of range", w)
        else
          let w := emit [IPWrite buf n] w in
          match eg_write e with
          | (_, Some err) =>
              let w := put_buf buf w in
              (Return,
               emit [SendErr (String.append "failed to write to IP connection: " err)] w)
          | (icmp, None) =>
              let w := if buf_cap buf <? 2 * packetBuffCap
                       then put_buf buf w else w in
              if 0 <? Z.of_nat (length icmp) then
                let w := emit [DeviceWrite (Z.of_nat (length icmp))] w in
                match eg_icmp e with
                | Some err =>
                    (Return,
                     emit [SendErr (String.append
                                      "failed to write ICMP to TUN device: " err)] w)
                | None =>
                    (Continue,
                     set_stats (RecordPacketIn (Z.of_nat (length icmp)) (stats w)) w)
                end
              else (Continue, w)
          end
    end.

(** The answers of the collaborators during one iteration of the
    MASQUE-to-device loop. *)
Record ingress_env : Type := {
  in_done : bool;
  in_pick : option nat;
  in_read : Z * option error;         (* ipConn.ReadPacket *)
  in_write : option error             (* device.WritePacket *)
}.

Definition ingress_step (e : ingress_env) (w : world) : step_result * world :=
  if in_done e then (Return, w)
  else
    let '(buf, w) := get_buf (in_pick e) w in
    let w := emit [IPRead buf] w in
    match in_read e with
    | (_, Some err) =>
        let w := put_buf buf w in
        (Return,
         emit [SendErr (String.append "failed to read from IP connection: " err)] w)
    | (n, None) =>
        let w := set_stats (RecordPacketIn n (stats w)) w in
        if negb (slice_ok buf n) then (Crash "slice bounds out of range", w)
        else
          let w := emit [DeviceWrite n] w in
          match in_write e with
          | Some err =>
              let w := put_buf buf w in
              (Return,
               emit [SendErr (String.append "failed to write to TUN device: " err)] w)
          | None =>
              let w := if buf_cap buf <? 2 * packetBuffCap
                       then put_buf buf w else w in
              (Continue, w)
          end
    end.

Inductive loop_result : Type :=
  | Running                             (* the script ended between iterations *)
  | Returned
  | Crashed (msg : string).

(** A copy loop, driven by the answers for its successive iterations. *)
Fixpoint run {E : Type} (step : E -> world -> step_result * world)
    (script : list E) (w : world) : loop_result * world :=
  match script with
  | [] => (Running, w)
  | e :: rest =>
      match step e w with
      | (Continue, w') => run step rest w'
      | (Return, w') => (Returned, w')
      | (Crash m, w') => (Crashed m, w')
      end
  end.

Definition egress_loop := run egress_step.
Definition ingress_loop := run ingress_step.

Definition buffer_eqb (a b : buffer) : bool :=
  (buf_id a =? buf_id b)%nat && (buf_cap a =? buf_cap b).

(** Number of calls of [PutBuf] on [b] in a trace. *)
Fixpoint releases (b : buffer) (t : list event) : nat :=
  match t with
  | [] => O
  | PoolPut b' :: t' =>
      if buffer_eqb b b' then S (releases b t') else releases b t'
  | _ :: t' => releases b t'
  end.

(** [exactly_once held t]: along [t], every buffer taken from the pool is
    handed to [PutBuf] exactly once before the next one is taken and before
    the trace ends, and nothing else is handed to [PutBuf].  [held] is the
    buffer currently taken and not yet released. *)
Fixpoint exactly_once (held : option buffer) (t : list event) : bool :=
  match t with
  | [] => match held with None => true | Some _ => false end
  | PoolGet b :: t' =>
      match held with None => exactly_once (Some b) t' | Some _ => false end
  | PoolPut b :: t' =>
      match held with
      | Some h => buffer_eqb h b && exactly_once None t'
      | None => false
      end
  | _ :: t' => exactly_once held t'
  end.

(** Whether [b] is stored in the pool. *)
Definition in_pool (b : buffer) (p : NetBuffer) : bool :=
    existsb (buffer_eqb b) (pooled p).
End Forwarding.

(** ** handleConnection and MaintainTunnel ([api/tunnel.go]) *)

Module Lifecycle.
Import Stats Pool.

(** The [http.Response] fields that [handleConnection] reads. *)
Record Response : Type := { StatusCode : Z; Status : string }.

(** What [ConnectTunnel] returns.  The three resources are pointers
    ([None] is [nil]); [rsp] is read only when [dial_err] is [nil]. *)
Record dial_result : Type := {
  udpConn : option nat;
  tr : option nat;
  ipConn : option nat;
  rsp : Response;
  dial_err : option error
}.

Inductive event : Type :=
  | LogEstablishing (shown : Z)         (* "... (attempt #%d)" *)
  | ConnectTunnel
  | RecordedError                       (* stats.RecordError() *)
  | RecordedHandShake                   (* stats.RecordHandShake() *)
  | MonitorStats                        (* go monitorStats(forwardingCtx, stats) *)
  | HandleForwarding                    (* handleForwarding(forwardingCtx, ...) *)
  | CancelForwarding                    (* deferred cancel() of forwardingCtx *)
  | CloseIP (h : nat)                   (* ipConn.Close() *)
  | CloseUDP (h : nat)                  (* udpConn.Close() *)
  | CloseTR (h : nat)                   (* tr.Close() *)
  | CallHandleConnection (reconnectAttempt : Z)
  | CallNextDelay (attempt : Z) (delay : Z)
  | CallReset
  | TimeAfter (delay : Z).              (* time.After(delay) *)

(** The answers of the collaborators during one call of
    [handleConnection]. *)
Record attempt_env : Type := {
  dial : dial_result;
  now : Z;                            (* time.Now() in RecordHandShake *)
  fwd_stats : TunnelStats -> TunnelStats;   (* counters moved while forwarding *)
  fwd_err : option error              (* what handleForwarding returns *)
}.

(** The deferred function of [handleConnection]. *)
Definition teardown (d : dial_result) : list event :=
  match ipConn d with Some h => [CloseIP h] | None => [] end ++
  match udpConn d with Some h => [CloseUDP h] | None => [] end ++
  match tr d with Some h => [CloseTR h] | None => [] end.

Definition handleConnection (e : attempt_env) (stats : TunnelStats)
    (reconnectAttempt : Z) : (Z * option error) * TunnelStats * list event :=
  let t := [LogEstablishing (wrap64 (reconnectAttempt + 1)); ConnectTunnel] in
  match dial_err (dial e) with
  | Some err => ((wrap64 (reconnectAttempt + 1), Some err), stats, t)
  | None =>
      if negb (StatusCode (rsp (dial e)) =? 200) then
        ((wrap64 (reconnectAttempt + 1),
          Some (String.append "tunnel connection failed: " (Status (rsp (dial e))))),
         RecordError stats,
         t ++ [RecordedError] ++ teardown (dial e))
      else
        let stats := RecordHandShake (now e) stats in
        let t := t ++ [RecordedHandShake; MonitorStats; HandleForwarding] in
        let stats := fwd_stats e stats in
        let err := fwd_err e in
        let '(stats, t) :=
          match err with
          | Some _ => (RecordError stats, t ++ [RecordedError])
          | None => (stats, t)
          end in
        ((0, err), stats, t ++ [CancelForwarding] ++ teardown (dial e))
  end.

(** The calls of [Close] in a trace, in program order. *)
Definition is_close (ev : event) : bool :=
    match ev with
    | CloseIP _ | CloseUDP _ | CloseTR _ => true
    | _ => false
    end.
Definition closes (t : list event) : list event := List.filter is_close t.

(** The [BackoffStrategy] interface; [R] is the type of the random draw
    that an implementation may consume in [NextDelay]. *)
Class BackoffStrategy (B R : Type) : Type := {
  NextDelay : B -> Z -> R -> Z * B;
  Reset : B -> B
}.

#[global] Instance ExponentialBackoff_strategy (A : FloatArith)
  : BackoffStrategy (Backoff.ExponentialBackoff A) (F A) :=
  {| NextDelay := Backoff.NextDelay A; Reset := Backoff.Reset A |}.

Section Maintain.
Context {B R : Type} `{BackoffStrategy B R}.

(** The fields of [ConnectionConfig] that the maintenance loop reads
    itself. *)
Record ConnectionConfig : Type := {
  MTU : Z;
  ReconnectStrategy : B
}.

(** The answers of the collaborators during one iteration of the loop of
    [MaintainTunnel]. *)
Record iter_env : Type := {
  ctx_done : bool;                  (* [<-ctx.Done()] ready at the top *)
  conn : attempt_env;
  ctx_err : bool;                   (* [ctx.Err() != nil] after the attempt *)
  rand : R;                         (* drawn inside NextDelay *)
  timer_first : bool                (* [time.After(delay)] wins the select *)
}.

Record world : Type := {
  stats : TunnelStats;
  strategy : B;                     (* the object behind config.ReconnectStrategy *)
  packetBufferPool : NetBuffer;     (* the global pool *)
  trace : list event
}.

Inductive status : Type :=
  | Running                           (* the script ended; the loop goes on *)
  | Returned.

(** The [for] loop.  [reconnectAttempt] is the variable declared before
    the loop.  In the body,
    [reconnectAttempt, err := handleConnection(..., reconnectAttempt)]
    is a short variable declaration in a new block: it declares a new
    [reconnectAttempt] (here [reconnectAttempt_body]) which lives until
    the end of the iteration, and the argument on its right-hand side is
    the outer variable, which no statement assigns. *)
Fixpoint loop (script : list iter_env) (reconnectAttempt : Z) (w : world)
  : status * world :=
  match script with
  | [] => (Running, w)
  | it :: rest =>
      if ctx_done it then (Returned, w)
      else
        let '((reconnectAttempt_body, err), s, t) :=
          handleConnection (conn it) (stats w) reconnectAttempt in
        let w := {| stats := s; strategy := strategy w;
                    packetBufferPool := packetBufferPool w;
                    trace := trace w
                             ++ [CallHandleConnection reconnectAttempt] ++ t |} in
        if ctx_err it then (Returned, w)
        else
          match err with
          | Some _ =>
              let '(delay, b) :=
                NextDelay (strategy w) reconnectAttempt_body (rand it) in
              let w := {| stats := stats w; strategy := b;
                          packetBufferPool := packetBufferPool w;
                          trace := trace w
                                   ++ [CallNextDelay reconnectAttempt_body delay;
                                       TimeAfter delay] |} in
              if timer_first it then loop rest reconnectAttempt w
              else (Returned, w)
          | None =>
              let w := {| stats := stats w; strategy := Reset (strategy w);
                          packetBufferPool := packetBufferPool w;
                          trace := trace w ++ [CallReset] |} in
              loop rest reconnectAttempt w
          end
  end.

Definition MaintainTunnel (config : ConnectionConfig) (script : list iter_env)
      : go (status * world) :=
      let stats := Stats.zero in
      let reconnectAttempt := 0 in
      match NewNetBuffer (MTU config) with
      | Panic msg => Panic msg
      | Done p =>
          Done (loop script reconnectAttempt
                  {| stats := stats; strategy := ReconnectStrategy config;
                     packetBufferPool := p; trace := [] |})
      end.
End Maintain.
Arguments ConnectionConfig B : clear implicits.
Arguments iter_env R : clear implicits.
Arguments world B : clear implicits.
End Lifecycle.

(** ** CachingDNSResolver ([api/resolver.go]) *)

Module Resolver.
  (** A [net.IP] is a byte slice. *)
Definition IP : Type := list Byte.byte.

Record DNSCacheEntry : Type := {
  entry_IP : IP;
  ExpiresAt : Z                       (* an instant, in nanoseconds *)
}.

Record CachingDNSResolver : Type := {
  DNSServer : string;
  CacheTTL : Z;
  cache : gmap string DNSCacheEntry
}.

Definition NewCachingDNSResolver (dnsServer : string) (cacheTTLSeconds : Z)
  : CachingDNSResolver :=
  let cacheTTLSeconds := if cacheTTLSeconds <=? 0 then 600 else cacheTTLSeconds in
  let dnsServer := if String.eqb dnsServer "" then "8.8.8.8:53"%string else dnsServer in
  {| DNSServer := dnsServer; CacheTTL := cacheTTLSeconds; cache := ∅ |}.

(** Calls that leave the resolver. *)
Inductive event : Type :=
  | LookupIP (server : string) (name : string).

(** The answers of the collaborators during one call of [Resolve]. *)
Record resolve_env : Type := {
  now : Z;                            (* time.Now() *)
  lookup : list IP * option error;    (* resolver.LookupIP(ctx, "ip", name) *)
  ctx_done_first : bool;              (* [<-ctx.Done()] wins the select *)
  ctx_error : error                   (* ctx.Err() once the context is done *)
}.

Definition ErrClosed : error := "use of closed network connection".

(** The nil slice. *)
Definition nil_IP : IP := [].

(** [entry, exists := r.cache[name]]: a missing key gives the zero
    entry. *)
Definition cache_lookup (r : CachingDNSResolver) (name : string)
  : DNSCacheEntry * bool :=
  match cache r !! name with
  | Some entry => (entry, true)
  | None => ({| entry_IP := nil_IP; ExpiresAt := 0 |}, false)
  end.

(** The body of the goroutine: what it sends on [resultChan]. *)
Definition dnsLookupResult (e : resolve_env) : IP * option error :=
  match lookup e with
  | (_, Some err) => (nil_IP, Some err)
  | ([], None) => (nil_IP, Some ErrClosed)
  | (ip :: _, None) => (ip, None)
  end.

Definition Resolve (r : CachingDNSResolver) (name : string) (e : resolve_env)
  : (IP * option error) * CachingDNSResolver * list event :=
  let '(entry, exists_) := cache_lookup r name in
  let now := now e in
  let cacheHit := exists_ && (now <? ExpiresAt entry) in
  if cacheHit then ((entry_IP entry, None), r, [])
  else
    let evs := [LookupIP (DNSServer r) name] in
    if ctx_done_first e then ((nil_IP, Some (ctx_error e)), r, evs)
    else
      match dnsLookupResult e with
      | (_, Some err) => ((nil_IP, Some err), r, evs)
      | (ip, None) =>
          let entry := {| entry_IP := ip;
                          ExpiresAt := now + wrap64 (CacheTTL r * 1000000000) |} in
          ((ip, None),
           {| DNSServer := DNSServer r; CacheTTL := CacheTTL r;
              cache := <[name := entry]> (cache r) |},
           evs)
      end.

Definition ClearCache (r : CachingDNSResolver) : CachingDNSResolver :=
    {| DNSServer := DNSServer r; CacheTTL := CacheTTL r; cache := ∅ |}.
End Resolver.

(** ** TimeoutConn ([models]) *)

Module TimeoutConn.
  (** The embedded [net.Conn]: the four methods that [TimeoutConn] calls, on
      a connection state [C]. *)
Class NetConn (C : Type) : Type := {
    conn_SetReadDeadline : C -> Z -> C * option error;
    conn_SetWriteDeadline : C -> Z -> C * option error;
    conn_Read : C -> list Byte.byte -> C * (Z * option error);
    conn_Write : C -> list Byte.byte -> C * (Z * option error)
  }.

(** Calls made on the embedded connection. *)
Inductive call : Type :=
  | SetReadDeadline (t : Z)
  | SetWriteDeadline (t : Z)
  | ConnRead (b : list Byte.byte)
  | ConnWrite (b : list Byte.byte).

Section WithConn.
Context {C : Type} `{NetConn C}.

Record TimeoutConn : Type := {
  Conn : C;
  IdleTimeout : Z
}.

Definition with_conn (c : TimeoutConn) (conn : C) : TimeoutConn :=
  {| Conn := conn; IdleTimeout := IdleTimeout c |}.

(** [now] is the value of [time.Now()]. *)
Definition Read (c : TimeoutConn) (now : Z) (b : list Byte.byte)
  : TimeoutConn * (Z * option error) * list call :=
  if IdleTimeout c >? 0 then
    let t := now + IdleTimeout c in
    match conn_SetReadDeadline (Conn c) t with
    | (conn, Some err) => (with_conn c conn, (0, Some err), [SetReadDeadline t])
    | (conn, None) =>
        let '(conn, res) := conn_Read conn b in
        (with_conn c conn, res, [SetReadDeadline t; ConnRead b])
    end
  else
    let '(conn, res) := conn_Read (Conn c) b in
    (with_conn c conn, res, [ConnRead b]).

Definition Write (c : TimeoutConn) (now : Z) (b : list Byte.byte)
      : TimeoutConn * (Z * option error) * list call :=
      if IdleTimeout c >? 0 then
        let t := now + IdleTimeout c in
        match conn_SetWriteDeadline (Conn c) t with
        | (conn, Some err) => (with_conn c conn, (0, Some err), [SetWriteDeadline t])
        | (conn, None) =>
            let '(conn, res) := conn_Write conn b in
            (with_conn c conn, res, [SetWriteDeadline t; ConnWrite b])
        end
      else
        let '(conn, res) := conn_Write (Conn c) b in
        (with_conn c conn, res, [ConnWrite b]).
End WithConn.
Arguments TimeoutConn C : clear implicits.
End TimeoutConn.

(** ** Concrete scenarios *)

Module Scenario.
Import Stats Pool Lifecycle.

(** A tunnel whose three resources are all present. *)
Definition dialed (code : Z) (text : string) : dial_result :=
  {| udpConn := Some 1%nat; tr := Some 2%nat; ipConn := Some 3%nat;
     rsp := {| StatusCode := code; Status := text |};
     dial_err := None |}.

Definition dial_failed (err : error) : dial_result :=
  {| udpConn := None; tr := None; ipConn := None;
     rsp := {| StatusCode := 0; Status := "" |};
     dial_err := Some err |}.

(** The endpoint answers 403. *)
Definition rejected_403 : attempt_env :=
  {| dial := dialed 403 "403 Forbidden"; now := 0;
     fwd_stats := fun s => s; fwd_err := None |}.

(** The endpoint answers 200 and forwarding later fails. *)
Definition forwarding_fails : attempt_env :=
  {| dial := dialed 200 "200 OK"; now := 1700000000000000000;
     fwd_stats := RecordPacketOut 60;
     fwd_err := Some "failed to read from IP connection: EOF"%string |}.

(** The dial itself fails. *)
Definition dial_fails : attempt_env :=
  {| dial := dial_failed "timeout: no recent network activity"; now := 0;
     fwd_stats := fun s => s; fwd_err := None |}.
End Scenario.

Module ScenarioBackoff.
Import Lifecycle.

(** The strategy built by [StartTunnel]: factor 2.0, maximum 5 minutes,
    initial delay as configured (default 1 s), on binary64. *)
Definition two : spec_float := S754_finite false 4503599627370496 (-51).
Definition half : spec_float := S754_finite false 4503599627370496 (-53).
Definition three_quarters : spec_float := S754_finite false 6755399441055744 (-53).

Definition start_strategy (reconnect_delay : Z)
  : Backoff.ExponentialBackoff Binary64.arith :=
  Backoff.Build_ExponentialBackoff Binary64.arith
    reconnect_delay 300000000000 two 0.

Definition config (mtu : Z) : ConnectionConfig (Backoff.ExponentialBackoff Binary64.arith) :=
  {| MTU := mtu; ReconnectStrategy := start_strategy 1000000000 |}.

(** One iteration of the maintenance loop: the context is live throughout
    and the timer fires. *)
Definition iteration (e : attempt_env) (r : spec_float) : iter_env spec_float :=
  {| ctx_done := false; conn := e; ctx_err := false; rand := r;
     timer_first := true |}.
End ScenarioBackoff.

Module ScenarioResolver.
Import Resolver.

Definition example_ip : IP := [Byte.x5d; Byte.xb8; Byte.xd8; Byte.x22].

(** A resolver whose cache holds example.com until instant 600. *)
Definition warm : CachingDNSResolver :=
  {| DNSServer := "8.8.8.8:53"; CacheTTL := 600;
     cache := {[ "example.com"%string :=
                   {| entry_IP := example_ip; ExpiresAt := 600 |} ]} |}.

(** A call at instant [t]; a lookup, were one made, would fail. *)
Definition at_time (t : Z) : resolve_env :=
  {| now := t; lookup := ([], Some "no such host"%string);
     ctx_done_first := false; ctx_error := "context canceled" |}.
End ScenarioResolver.

Module ScenarioConn.
Import TimeoutConn.

(** A connection that answers every call the same way and remembers the
    deadlines it was given. *)
Record scripted : Type := {
  deadline_answer : option error;
  io_answer : Z * option error;
  read_deadline : option Z;
  write_deadline : option Z
}.

#[global] Instance scripted_conn : NetConn scripted := {|
  conn_SetReadDeadline c t :=
    ({| deadline_answer := deadline_answer c; io_answer := io_answer c;
        read_deadline := Some t; write_deadline := write_deadline c |},
     deadline_answer c);
  conn_SetWriteDeadline c t :=
    ({| deadline_answer := deadline_answer c; io_answer := io_answer c;
        read_deadline := read_deadline c; write_deadline := Some t |},
     deadline_answer c);
  conn_Read c _ := (c, io_answer c);
  conn_Write c _ := (c, io_answer c)
|}.

Definition healthy : scripted :=
  {| deadline_answer := None; io_answer := (4, None);
     read_deadline := None; write_deadline := None |}.

Definition closed : scripted :=
  {| deadline_answer := Some "use of closed network connection"%string;
     io_answer := (4, None); read_deadline := None; write_deadline := None |}.

Definition payload : list Byte.byte := [Byte.x01; Byte.x02; Byte.x03; Byte.x04].
End ScenarioConn.

Module ScenarioForwarding.
Import Stats Pool Forwarding.

(** The contract of [ReadPacket]: a successful read reports a length within
    the buffer it was given. *)
Definition egress_fits (c : Z) (e : egress_env) : Prop :=
  snd (eg_read e) = None -> 0 <= fst (eg_read e) <= c.
Definition ingress_fits (c : Z) (e : ingress_env) : Prop :=
  snd (in_read e) = None -> 0 <= fst (in_read e) <= c.

(** The pool as [MaintainTunnel] creates it for a given MTU. *)
Definition fresh_pool (mtu : Z) : NetBuffer :=
  {| capacity := mtu; pooled := []; next_id := 0 |}.

Definition start (mtu : Z) : world :=
  {| pool := fresh_pool mtu; stats := Stats.zero; trace := [] |}.

(** One packet of 60 bytes travels from the device to the tunnel, no ICMP
    reply comes back. *)
Definition egress_ok : egress_env :=
  {| eg_done := false; eg_pick := None; eg_read := (60, None);
     eg_write := ([], None); eg_icmp := None |}.

(** One packet of 60 bytes travels from the tunnel to the device. *)
Definition ingress_ok : ingress_env :=
  {| in_done := false; in_pick := None; in_read := (60, None);
     in_write := None |}.

(** The device fails the read. *)
Definition egress_read_fails : egress_env :=
  {| eg_done := false; eg_pick := None; eg_read := (0, Some "device closed"%string);
     eg_write := ([], None); eg_icmp := None |}.

(** The buffer that the first [GetBuf] on [fresh_pool mtu] allocates. *)
Definition first_buffer (mtu : Z) : buffer := {| buf_id := 0; buf_cap := mtu |}.
End ScenarioForwarding.

(** ** The delay window as the specification words it *)

Module BackoffClaim.
(** [d(k) = min(InitialDelay * Factor^k, MaxDelay)]. *)
Definition claimed_base (d0 : Z) (f : Q) (M : Z) (k : Z) : Q :=
  Qmin (inject_Z d0 * f ^ k) (inject_Z M).

(** [delay <= MaxDelay] and [delay] within [0.9 d(k), 1.1 d(k)]. *)
Definition claimed_window (d0 : Z) (f : Q) (M : Z) (k : Z) (delay : Z) : Prop :=
  delay <= M
  /\ ((9 # 10) * claimed_base d0 f M k <= inject_Z delay)%Q
  /\ (inject_Z delay <= (11 # 10) * claimed_base d0 f M k)%Q.

(** A strategy on binary64 whose maximum equals its initial delay. *)
Definition flat_strategy (d0 : Z) : Backoff.ExponentialBackoff Binary64.arith :=
  Backoff.Build_ExponentialBackoff Binary64.arith d0 d0 ScenarioBackoff.two 0.
End BackoffClaim.

(** ** Reading the trace of the maintenance loop *)

Module LifecycleTrace.
Import Lifecycle.

(** The calls of [NextDelay]: argument and returned delay, in order. *)
Fixpoint next_delay_calls (t : list event) : list (Z * Z) :=
  match t with
  | [] => []
  | CallNextDelay a d :: t' => (a, d) :: next_delay_calls t'
  | _ :: t' => next_delay_calls t'
  end.

(** The arguments of the calls of [handleConnection], in order. *)
Fixpoint handle_connection_calls (t : list event) : list Z :=
  match t with
  | [] => []
  | CallHandleConnection a :: t' => a :: handle_connection_calls t'
  | _ :: t' => handle_connection_calls t'
  end.

(** The number of calls of [Reset]. *)
Fixpoint resets (t : list event) : nat :=
  match t with
  | [] => O
  | CallReset :: t' => S (resets t')
  | _ :: t' => resets t'
  end.

(** An iteration in which the tunnel comes up (status 200), forwarding runs
    and ends with an error, the context stays live and the timer fires. *)
Definition failed_session {R : Type} (it : iter_env R) : Prop :=
  ctx_done it = false
  /\ dial_err (dial (conn it)) = None
  /\ StatusCode (rsp (dial (conn it))) = 200
  /\ fwd_err (conn it) <> None
  /\ ctx_err it = false
  /\ timer_first it = true.

(** The delays that [ExponentialBackoff] returns when it is asked for the
    attempts [a+1], [a+2], ... with the draws [rs]. *)
Fixpoint delays_from (A : FloatArith) (b : Backoff.ExponentialBackoff A)
    (a : Z) (rs : list (F A)) : list Z :=
  match rs with
  | [] => []
  | r :: rs' =>
      Backoff.add_jitter A (Backoff.base_delay A b (a + 1)) r
      :: delays_from A b (a + 1) rs'
  end.
End LifecycleTrace.

Module LifecycleClaim.
Import Lifecycle.

(** The attempt ran a forwarding session and that session returned no
    error. *)
Definition session_ended_normally (e : attempt_env) : bool :=
  match dial_err (dial e), fwd_err e with
  | None, None => StatusCode (rsp (dial e)) =? 200
  | _, _ => false
  end.
End LifecycleClaim.

Module ScenarioLifecycle.
Import Lifecycle ScenarioBackoff.

(** Sessions that come up and then fail, one after the other. *)
Definition failing_sessions (n : nat) : list (iter_env spec_float) :=
  List.repeat (iteration Scenario.forwarding_fails half) n.

(** Dials that fail, one after the other. *)
Definition failing_dials (n : nat) : list (iter_env spec_float) :=
  List.repeat (iteration Scenario.dial_fails half) n.
End ScenarioLifecycle.

(** ** Reading the backoff loop and the attempt counter

    [BackoffSteps] names the two pieces of the loop of [NextDelay];
    [Binary64Value] gives a binary64 its rational value and says which
    values stand for a factor above one and for a draw of [rand.Float64];
    [AttemptClaim] describes attempts that fail before forwarding. *)

Module BackoffSteps.
(** The loop guard [float64(delay) < float64(MaxDelay) / Factor]. *)
Definition below_limit (A : FloatArith) (M : Z) (f : F A) (delay : Z) : bool :=
  flt A (of_int A delay) (fdiv A (of_int A M) f).

(** [delay = time.Duration(float64(delay) * Factor)], [j] times. *)
Definition multiplied (A : FloatArith) (f : F A) (j : nat) (d0 : Z) : Z :=
  Nat.iter j (fun delay => to_int A (fmul A (of_int A delay) f)) d0.
End BackoffSteps.

Module Binary64Value.
Import Binary64.
(** The number that a binary64 stands for (zero for what is not finite). *)
Definition to_Q (x : spec_float) : Q :=
  match x with
  | S754_finite s m e =>
      let v := (inject_Z (Z.pos m) * 2 ^ e)%Q in if s then (- v)%Q else v
  | _ => 0%Q
  end.

(** A [float64] above one: any value but NaN that compares above 1.0. *)
Definition above_one (f : spec_float) : Prop :=
  valid_binary prec emax f = true /\ SFltb (of_int64 1) f = true.

(** A [float64] in the interval [0, 1), which is where [rand.Float64]
    draws from. *)
Definition unit_draw (r : spec_float) : Prop :=
  valid_binary prec emax r = true
  /\ SFltb r (of_int64 1) = true /\ SFltb r (S754_zero false) = false.
End Binary64Value.

Module AttemptClaim.
Import Lifecycle.
(** An iteration in which the context stays live, the attempt fails before
    a forwarding session begins (the dial fails, or the status is not 200)
    and the retry timer fires. *)
Definition failed_attempt {R : Type} (it : iter_env R) : Prop :=
  ctx_done it = false
  /\ (dial_err (dial (conn it)) <> None
      \/ StatusCode (rsp (dial (conn it))) <> 200)
  /\ ctx_err it = false
  /\ timer_first it = true.

(** The attempt numbers of the claim: 0, 1, ..., n-1 over [n] consecutive
    failed attempts. *)
Definition claimed_attempts (n : nat) : list Z :=
  List.map Z.of_nat (List.seq 0 n).
End AttemptClaim.

(** ** Go's [time.Duration.String] and [time.ParseDuration]

    These two functions belong to Go's standard library ([time/time.go],
    [time/format.go]), which [config.Duration] calls; they are transcribed
    here so that the configuration code can be evaluated.  A Go [string] and
    a [[]byte] are both a [string] of 8-bit characters. *)

Module GoTime.
Local Open Scope string_scope.
Local Open Scope Z_scope.

Definition Nanosecond : Z := 1.
Definition Microsecond : Z := 1000 * Nanosecond.
Definition Millisecond : Z := 1000 * Microsecond.
Definition Second : Z := 1000 * Millisecond.
Definition Minute : Z := 60 * Second.
Definition Hour : Z := 60 * Minute.

(** [byte(v) + '0'] for a decimal digit [v]. *)
Definition digit_char (v : Z) : ascii := ascii_of_nat (48 + Z.to_nat v).

(** ['0' <= c && c <= '9'], and [uint64(c) - '0']. *)
Definition is_digit (c : ascii) : bool :=
  (48 <=? nat_of_ascii c)%nat && (nat_of_ascii c <=? 57)%nat.
Definition digit_val (c : ascii) : Z := Z.of_nat (nat_of_ascii c) - 48.

(** The micro sign U+00B5 in UTF-8, and the Greek letter mu U+03BC. *)
Definition micro : string := String (ascii_of_nat 194) (String (ascii_of_nat 181) "").
Definition mu : string := String (ascii_of_nat 206) (String (ascii_of_nat 188) "").

(** *** Formatting *)

(** The loop of [fmtInt]: [for v > 0 { w--; buf[w] = byte(v%10) + '0'; v /= 10 }].
    [buf] is the tail of the buffer already written; a [uint64] has at most
    20 decimal digits, which bounds the number of iterations. *)
Fixpoint fmtInt_loop (fuel : nat) (buf : string) (v : Z) : string :=
  match fuel with
  | O => buf
  | S fuel' =>
      if 0 <? v then fmtInt_loop fuel' (String (digit_char (v mod 10)) buf) (v / 10)
      else buf
  end.

Definition fmtInt (buf : string) (v : Z) : string :=
  if v =? 0 then String "0" buf else fmtInt_loop 20 buf v.

(** The loop of [fmtFrac], [prec] being the iterations left. *)
Fixpoint fmtFrac_loop (prec : nat) (buf : string) (v : Z) (print : bool)
  : string * Z * bool :=
  match prec with
  | O => (buf, v, print)
  | S prec' =>
      let digit := v mod 10 in
      let print := print || negb (digit =? 0) in
      let buf := if print then String (digit_char digit) buf else buf in
      fmtFrac_loop prec' buf (v / 10) print
  end.

Definition fmtFrac (buf : string) (v : Z) (prec : nat) : string * Z :=
  let '(buf, v, print) := fmtFrac_loop prec buf v false in
  (if print then String "." buf else buf, v).

(** [Duration.String] (through [Duration.format]). *)
Definition String_ (d : Z) : string :=
  let u := wrapU64 d in
  let neg := d <? 0 in
  let u := if neg then wrapU64 (- u) else u in
  if u <? Second then
    if u =? 0 then "0s"
    else
      let '(buf, prec) :=
        if u <? Microsecond then ("ns", 0%nat)
        else if u <? Millisecond then (micro ++ "s", 3%nat)
        else ("ms", 6%nat) in
      let '(buf, u) := fmtFrac buf u prec in
      let buf := fmtInt buf u in
      if neg then String "-" buf else buf
  else
    let '(buf, u) := fmtFrac "s" u 9 in
    let buf := fmtInt buf (u mod 60) in
    let u := u / 60 in
    let buf :=
      if 0 <? u then
        let buf := fmtInt (String "m" buf) (u mod 60) in
        let u := u / 60 in
        if 0 <? u then fmtInt (String "h" buf) u else buf
      else buf in
    if neg then String "-" buf else buf.

(** *** Parsing *)

Section Parse.
Context (A : FloatArith).

(** [leadingInt]: [None] is [errLeadingInt]. *)
Fixpoint leadingInt_loop (s : string) (x : Z) : option (Z * string) :=
  match s with
  | EmptyString => Some (x, s)
  | String c rest =>
      if negb (is_digit c) then Some (x, s)
      else if x >? 2 ^ 63 / 10 then None
      else
        let x := x * 10 + digit_val c in
        if x >? 2 ^ 63 then None else leadingInt_loop rest x
  end.

Definition leadingInt (s : string) : option (Z * string) := leadingInt_loop s 0.

(** [leadingFraction]. *)
Fixpoint leadingFraction_loop (s : string) (x : Z) (scale : F A) (overflow : bool)
  : Z * F A * string :=
  match s with
  | EmptyString => (x, scale, s)
  | String c rest =>
      if negb (is_digit c) then (x, scale, s)
      else if overflow then leadingFraction_loop rest x scale overflow
      else if x >? (2 ^ 63 - 1) / 10 then leadingFraction_loop rest x scale true
      else
        let y := x * 10 + digit_val c in
        if y >? 2 ^ 63 then leadingFraction_loop rest x scale true
        else leadingFraction_loop rest y (fmul A scale (of_int A 10)) overflow
  end.

Definition leadingFraction (s : string) : Z * F A * string :=
  leadingFraction_loop s 0 (of_int A 1) false.

(** The unit: the longest prefix without ['.'] and digits, and the rest. *)
Fixpoint split_unit (s : string) : string * string :=
  match s with
  | EmptyString => ("", s)
  | String c rest =>
      if Ascii.eqb c "." || is_digit c then ("", s)
      else let '(u, s') := split_unit rest in (String c u, s')
  end.

Definition unitMap (u : string) : option Z :=
  if String.eqb u "ns" then Some Nanosecond
  else if String.eqb u "us" then Some Microsecond
  else if String.eqb u (micro ++ "s") then Some Microsecond
  else if String.eqb u (mu ++ "s") then Some Microsecond
  else if String.eqb u "ms" then Some Millisecond
  else if String.eqb u "s" then Some Second
  else if String.eqb u "m" then Some Minute
  else if String.eqb u "h" then Some Hour
  else None.

Definition invalid_duration : error := "time: invalid duration".
Definition missing_unit : error := "time: missing unit in duration".
Definition unknown_unit : error := "time: unknown unit in duration".

(** The loop [for s != ""] of [ParseDuration]; every iteration consumes at
    least the unit, so the length of the input bounds their number. *)
Fixpoint parse_loop (fuel : nat) (s : string) (d : Z) : error + Z :=
  match s with
  | EmptyString => inr d
  | String c _ =>
      match fuel with
      | O => inl invalid_duration
      | S fuel' =>
          if negb (Ascii.eqb c "." || is_digit c) then inl invalid_duration
          else
            let pl := String.length s in
            match leadingInt s with
            | None => inl invalid_duration
            | Some (v, s) =>
                let pre := negb (pl =? String.length s)%nat in
                let '(f, scale, s, post) :=
                  match s with
                  | String c' s' =>
                      if Ascii.eqb c' "." then
                        let pl := String.length s' in
                        let '(f, scale, s'') := leadingFraction s' in
                        (f, scale, s'', negb (pl =? String.length s'')%nat)
                      else (0, of_int A 1, s, false)
                  | EmptyString => (0, of_int A 1, s, false)
                  end in
                if negb pre && negb post then inl invalid_duration
                else
                  let '(u, s) := split_unit s in
                  if (String.length u =? 0)%nat then inl missing_unit
                  else
                    match unitMap u with
                    | None => inl unknown_unit
                    | Some unit =>
                        if v >? 2 ^ 63 / unit then inl invalid_duration
                        else
                          let v := v * unit in
                          let v' :=
                            if 0 <? f then
                              v + to_int A (fmul A (of_int A f)
                                              (fdiv A (of_int A unit) scale))
                            else v in
                          if (0 <? f) && (v' >? 2 ^ 63) then inl invalid_duration
                          else
                            let d := d + v' in
                            if d >? 2 ^ 63 then inl invalid_duration
                            else parse_loop fuel' s d
                    end
            end
      end
  end.

Definition ParseDuration (s : string) : error + Z :=
  let orig := s in
  let '(neg, s) :=
    match s with
    | String c s' =>
        if Ascii.eqb c "-" || Ascii.eqb c "+" then (Ascii.eqb c "-", s')
        else (false, s)
    | EmptyString => (false, s)
    end in
  if String.eqb s "0" then inr 0
  else if String.eqb s "" then inl invalid_duration
  else
    match parse_loop (String.length s) s 0 with
    | inl e => inl e
    | inr d =>
        if neg then inr (wrap64 (- wrap64 d))
        else if d >? 2 ^ 63 - 1 then inl invalid_duration
        else inr d
    end.
End Parse.
End GoTime.

(** ** config.Duration ([config/config.go]) *)

Module ConfigDuration.
Local Open Scope string_scope.
Local Open Scope Z_scope.

(** What [Duration] uses of [encoding/json]: decoding into a [string],
    decoding into an [int64], and encoding a [string]. *)
Class JSON : Type := {
  Unmarshal_string : string -> error + string;    (* json.Unmarshal(b, &s) *)
  Unmarshal_int64 : string -> error + Z;          (* json.Unmarshal(b, &n) *)
  Marshal_string : string -> string * option error   (* json.Marshal(s) *)
}.

(** The double quote character. *)
Definition dquote : ascii := ascii_of_nat 34.

(** A string between double quotes, byte for byte. *)
Definition quoted (s : string) : string := String dquote (s ++ String dquote "").

Section WithLibraries.
Context (A : FloatArith) {J : JSON}.

(** [func (d *Duration) UnmarshalJSON(b []byte) error]: the new value of
    [*d] ([d] when the call fails) and the error. *)
Definition UnmarshalJSON (d : Z) (b : string) : Z * option error :=
  match b with
  | EmptyString => (0, None)
  | String c _ =>
      if Ascii.eqb c dquote then
        match Unmarshal_string b with
        | inl err => (d, Some err)
        | inr s =>
            match GoTime.ParseDuration A s with
            | inl err => (d, Some err)
            | inr dur => (dur, None)
            end
        end
      else
        match Unmarshal_int64 b with
        | inl err => (d, Some err)
        | inr n => (n, None)
        end
  end.

(** [func (d Duration) MarshalJSON() ([]byte, error)] *)
Definition MarshalJSON (d : Z) : string * option error :=
  Marshal_string (GoTime.String_ d).
End WithLibraries.

(** *** A JSON codec for the texts that durations need

    Strings made of characters that JSON writes as they are, and integer
    literals; every other text is refused. *)

(** Characters that [json.Marshal] copies unchanged: printable ASCII other
    than the double quote, the backslash and the characters it escapes for
    HTML. *)
Definition plain_char (c : ascii) : bool :=
  let n := nat_of_ascii c in
  ((32 <=? n)%nat && (n <? 127)%nat && negb (n =? 34)%nat && negb (n =? 92)%nat
   && negb (n =? 60)%nat && negb (n =? 62)%nat && negb (n =? 38)%nat).

(** The two bytes of the micro sign, the one character outside ASCII that
    [Duration.String] writes. *)
Definition micro_bytes (c1 c2 : ascii) : bool :=
  (nat_of_ascii c1 =? 194)%nat && (nat_of_ascii c2 =? 181)%nat.

Fixpoint plain (s : string) : bool :=
  match s with
  | EmptyString => true
  | String c s' =>
      if plain_char c then plain s'
      else
        match s' with
        | String c2 s'' => micro_bytes c c2 && plain s''
        | EmptyString => false
        end
  end.

(** The text before the closing quote of a quoted plain string. *)
Fixpoint unquote_tail (s : string) : option string :=
  match s with
  | EmptyString => None
  | String c s' =>
      if Ascii.eqb c dquote then
        match s' with
        | EmptyString => Some ""
        | String _ _ => None
        end
      else if plain_char c then option_map (String c) (unquote_tail s')
      else
        match s' with
        | String c2 s'' =>
            if micro_bytes c c2 then
              option_map (fun r => String c (String c2 r)) (unquote_tail s'')
            else None
        | EmptyString => None
        end
  end.

Definition unquote (b : string) : option string :=
  match b with
  | String c s' => if Ascii.eqb c dquote then unquote_tail s' else None
  | EmptyString => None
  end.

(** A JSON integer literal: an optional minus sign, then a single zero or
    digits that do not start with a zero. *)
Fixpoint decimal_digits (s : string) (x : Z) : option Z :=
  match s with
  | EmptyString => Some x
  | String c s' =>
      if GoTime.is_digit c then decimal_digits s' (x * 10 + GoTime.digit_val c)
      else None
  end.

Definition decimal_nat (s : string) : option Z :=
  match s with
  | EmptyString => None
  | String c s' =>
      if Ascii.eqb c "0" then
        match s' with
        | EmptyString => Some 0
        | String _ _ => None
        end
      else decimal_digits s 0
  end.

Definition decimal (b : string) : option Z :=
  match b with
  | EmptyString => None
  | String c s' =>
      if Ascii.eqb c "-" then option_map Z.opp (decimal_nat s')
      else decimal_nat b
  end.

Definition not_modelled : error := "json: text outside the modelled fragment".

#[global] Instance plain_json : JSON := {|
  Unmarshal_string b :=
    match unquote b with Some s => inr s | None => inl not_modelled end;
  Unmarshal_int64 b :=
    match decimal b with
    | Some n =>
        if (min_int64 <=? n) && (n <=? max_int64) then inr n
        else inl "json: cannot unmarshal number into Go value of type int64"
    | None => inl not_modelled
    end;
  Marshal_string s :=
    if plain s then (quoted s, None) else ("", Some not_modelled)
|}.

(** What [Duration] relies on of [encoding/json]: a plain string is written
    between quotes as it is and read back from there, and an integer literal
    that fits an [int64] decodes to its value. *)
Record json_laws (J : JSON) : Prop := {
  Marshal_plain :
    forall s, plain s = true -> Marshal_string s = (quoted s, None);
  Unmarshal_plain :
    forall s, plain s = true -> Unmarshal_string (quoted s) = inr s;
  Unmarshal_decimal :
    forall b n, decimal b = Some n -> in_int64 n -> Unmarshal_int64 b = inr n
}.
End ConfigDuration.

(** ** Reading decimal digit strings *)

Module Digits.
Local Open Scope string_scope.
Local Open Scope Z_scope.
Import GoTime.

Fixpoint all_digits (s : string) : bool :=
  match s with
  | EmptyString => true
  | String c s' => is_digit c && all_digits s'
  end.

(** The number that the digits of [s] denote after the digits already read,
    whose value is [x]. *)
Fixpoint val_acc (s : string) (x : Z) : Z :=
  match s with
  | EmptyString => x
  | String c s' => val_acc s' (x * 10 + digit_val c)
  end.

(** [s] is empty or starts with a character that is not a digit. *)
Definition no_digit_ahead (s : string) : bool :=
  match s with
  | EmptyString => true
  | String c _ => negb (is_digit c)
  end.

(** [s] is empty or starts with a digit. *)
Definition digit_ahead (s : string) : bool :=
  match s with
  | EmptyString => true
  | String c _ => is_digit c
  end.

(** A unit name: not empty, without digits and dots. *)
Fixpoint unit_chars (s : string) : bool :=
  match s with
  | EmptyString => true
  | String c s' => negb (Ascii.eqb c "." || is_digit c) && unit_chars s'
  end.

(** What [fmtFrac] writes for the fraction [m] of [10^prec]: nothing when
    [m = 0], otherwise a dot and the digits of [m] without trailing zeros. *)
Definition frac_part (fs : string) (prec : nat) (m : Z) : Prop :=
  (m = 0 /\ fs = "")
  \/ (0 < m
      /\ exists ds,
           fs = String "." ds /\ all_digits ds = true
           /\ (0 < String.length ds <= prec)%nat
           /\ val_acc ds 0 * 10 ^ (Z.of_nat prec - Z.of_nat (String.length ds)) = m).

(** What [Duration.String] writes after the sign, for the magnitude [u]. *)
Definition unsigned_text (u : Z) : string :=
  if u <? Second then
    if u =? 0 then "0s"
    else
      let '(buf, prec) :=
        if u <? Microsecond then ("ns", 0%nat)
        else if u <? Millisecond then (micro ++ "s", 3%nat)
        else ("ms", 6%nat) in
      let '(buf, u) := fmtFrac buf u prec in
      fmtInt buf u
  else
    let '(buf, u) := fmtFrac "s" u 9 in
    let buf := fmtInt buf (u mod 60) in
    let u := u / 60 in
    if 0 <? u then
      let buf := fmtInt (String "m" buf) (u mod 60) in
      let u := u / 60 in
      if 0 <? u then fmtInt (String "h" buf) u else buf
    else buf.

(** A text that starts with a digit and goes on. *)
Definition numbered (t : string) : Prop :=
  exists c t', t = String c t' /\ is_digit c = true /\ (0 < String.length t')%nat.

(** [scale] after [n] more fraction digits: [scale *= 10], [n] times. *)
Fixpoint scale_up (A : FloatArith) (n : nat) (scale : F A) : F A :=
  match n with
  | O => scale
  | S n' => scale_up A n' (fmul A scale (of_int A 10))
  end.

(** The one fact about [float64] that reading a fraction printed by
    [Duration.String] relies on: with at most [j <= 9] fraction digits [f]
    and the unit [10^j] nanoseconds, [float64(f) * (float64(unit) / scale)]
    converts back to the integer [f * 10^(j-k)]; all the values involved
    are integers below [2^53]. *)
Definition frac_exact (A : FloatArith) : Prop :=
  forall (f : Z) (j k : nat),
    (k <= j <= 9)%nat -> 0 < f < 10 ^ Z.of_nat k ->
    to_int A (fmul A (of_int A f)
                (fdiv A (of_int A (10 ^ Z.of_nat j)) (scale_up A k (of_int A 1))))
    = f * 10 ^ (Z.of_nat j - Z.of_nat k).
End Digits.

(** * Further code of the same files *)

(** ** Vocabulary for the resolver cache, the pool and the counters *)

Module ResolverFacts.
Import Resolver.

(** The cache holds an entry for [name] that has not expired at instant
    [t]: the test [exists && now.Before(entry.ExpiresAt)] of [Resolve]. *)
Definition live (r : CachingDNSResolver) (name : string) (t : Z) : bool :=
  snd (cache_lookup r name) && (t <? ExpiresAt (fst (cache_lookup r name))).

(** A call of [Resolve] in which the lookup answers [ips] and the context
    stays live. *)
Definition answered (t : Z) (ips : list IP) : resolve_env :=
  {| now := t; lookup := (ips, None); ctx_done_first := false;
     ctx_error := "context canceled" |}.
End ResolverFacts.

Module PoolHistory.
Import Pool.

(** What the users of a pool do to it. *)
Inductive op : Type :=
  | OpGet (pick : option nat)           (* n.GetBuf(), with the choice of sync.Pool *)
  | OpPut (b : buffer).                 (* n.PutBuf(b) *)

(** A history of calls: the buffers handed out, in order, and the pool
    afterwards. *)
Fixpoint apply_ops (ops : list op) (n : NetBuffer) : list buffer * NetBuffer :=
  match ops with
  | [] => ([], n)
  | OpGet pick :: rest =>
      let '(b, n') := GetBuf pick n in
      let '(bs, n'') := apply_ops rest n' in
      (b :: bs, n'')
  | OpPut b :: rest => apply_ops rest (PutBuf b n)
  end.
End PoolHistory.

Module ForwardingFacts.
Import Stats Pool Forwarding.

(** An iteration of the MASQUE-to-device loop in which the context is live
    and both the read and the write succeed. *)
Definition delivered (e : ingress_env) : Prop :=
  in_done e = false /\ snd (in_read e) = None /\ in_write e = None.

(** The values of a [uint64]. *)
Definition is_uint64 (z : Z) : Prop := 0 <= z < 2 ^ 64.

(** The bytes that the reads of a script report, added up. *)
Definition total_read (script : list ingress_env) : Z :=
  fold_right Z.add 0 (List.map (fun e => fst (in_read e)) script).

(** The number of errors sent on [errChan] in a trace. *)
Fixpoint errors_sent (t : list event) : nat :=
  match t with
  | [] => O
  | SendErr _ :: t' => S (errors_sent t')
  | _ :: t' => errors_sent t'
  end.

(** The last event of a trace is an error sent on [errChan]. *)
Definition ends_with_error (t : list event) : Prop :=
  exists t' err, t = t' ++ [SendErr err].

(** What one iteration of a copy loop may add to the trace, as far as
    [errChan] goes: nothing is sent unless the iteration returns, and then
    at most one error, as its last event. *)
Definition sends_at_most_once (res : step_result) (evs : list event) : Prop :=
  match res with
  | Continue | Crash _ => errors_sent evs = O
  | Return =>
      evs = []
      \/ exists pre err, evs = pre ++ [SendErr err] /\ errors_sent pre = O
  end.
End ForwardingFacts.

Module Binary64Facts.
(** A [float64] that is a number: neither an infinity nor NaN. *)
Definition finite (x : spec_float) : bool :=
  match x with
  | S754_zero _ | S754_finite _ _ _ => true
  | S754_infinity _ | S754_nan => false
  end.
End Binary64Facts.

Module LifecycleFacts.
Import Lifecycle.

(** Calls of [stats.RecordError()] and [stats.RecordHandShake()] in a
    trace. *)
Fixpoint recorded_errors (t : list event) : nat :=
  match t with
  | [] => O
  | RecordedError :: t' => S (recorded_errors t')
  | _ :: t' => recorded_errors t'
  end.

Fixpoint recorded_handshakes (t : list event) : nat :=
  match t with
  | [] => O
  | RecordedHandShake :: t' => S (recorded_handshakes t')
  | _ :: t' => recorded_handshakes t'
  end.


End LifecycleFacts.

(** ** The configuration ([config/config.go]) *)

Module Configuration.
Local Open Scope string_scope.
Local Open Scope Z_scope.

Record SocksConfig : Type := {
  BindAddress : string;
  Port : string;
  Username : string;
  Password : string
}.

(** Durations are [config.Duration] values, in nanoseconds. *)
Record TunnelConfig : Type := {
  ConnectPort : Z;
  DNS : list string;
  DNSTimeout : Z;
  UseIPv6 : bool;
  NoTunnelIPv4 : bool;
  NoTunnelIPv6 : bool;
  SNIAddress : string;
  KeepalivePeriod : Z;
  MTU : Z;
  InitialPacketSize : Z;
  ReconnectDelay : Z;
  ConnectionTimeout : Z;
  IdleTimeout : Z;
  PerClient : bool
}.

Record LoggingConfig : Type := {
  OutputPath : string;
  Level : string
}.

Record RegistrationInfo : Type := {
  DeviceName : string
}.

Record Config : Type := {
  PrivateKey : string;
  EndpointV4 : string;
  EndpointV6 : string;
  EndpointPubKey : string;
  License : string;
  ID : string;
  AccessToken : string;
  IPv4 : string;
  IPv6 : string;
  Socks : SocksConfig;
  Tunnel : TunnelConfig;
  Logging : LoggingConfig;
  Registration : RegistrationInfo
}.

(** Assignments to one field of a [Config]. *)
Definition set_Socks (s : SocksConfig) (c : Config) : Config :=
  {| PrivateKey := PrivateKey c; EndpointV4 := EndpointV4 c;
     EndpointV6 := EndpointV6 c; EndpointPubKey := EndpointPubKey c;
     License := License c; ID := ID c; AccessToken := AccessToken c;
     IPv4 := IPv4 c; IPv6 := IPv6 c; Socks := s; Tunnel := Tunnel c;
     Logging := Logging c; Registration := Registration c |}.

Definition set_Tunnel (t : TunnelConfig) (c : Config) : Config :=
  {| PrivateKey := PrivateKey c; EndpointV4 := EndpointV4 c;
     EndpointV6 := EndpointV6 c; EndpointPubKey := EndpointPubKey c;
     License := License c; ID := ID c; AccessToken := AccessToken c;
     IPv4 := IPv4 c; IPv6 := IPv6 c; Socks := Socks c; Tunnel := t;
     Logging := Logging c; Registration := Registration c |}.

Definition set_Logging (l : LoggingConfig) (c : Config) : Config :=
  {| PrivateKey := PrivateKey c; EndpointV4 := EndpointV4 c;
     EndpointV6 := EndpointV6 c; EndpointPubKey := EndpointPubKey c;
     License := License c; ID := ID c; AccessToken := AccessToken c;
     IPv4 := IPv4 c; IPv6 := IPv6 c; Socks := Socks c; Tunnel := Tunnel c;
     Logging := l; Registration := Registration c |}.

Definition set_SNIAddress (sni : string) (t : TunnelConfig) : TunnelConfig :=
  {| ConnectPort := ConnectPort t; DNS := DNS t; DNSTimeout := DNSTimeout t;
     UseIPv6 := UseIPv6 t; NoTunnelIPv4 := NoTunnelIPv4 t;
     NoTunnelIPv6 := NoTunnelIPv6 t; SNIAddress := sni;
     KeepalivePeriod := KeepalivePeriod t; MTU := MTU t;
     InitialPacketSize := InitialPacketSize t;
     ReconnectDelay := ReconnectDelay t;
     ConnectionTimeout := ConnectionTimeout t; IdleTimeout := IdleTimeout t;
     PerClient := PerClient t |}.

Definition GetDefaultSocksConfig : SocksConfig :=
  {| BindAddress := "127.0.0.1"; Port := "1080"; Username := ""; Password := "" |}.

Definition GetDefaultTunnelConfig : TunnelConfig :=
  {| ConnectPort := 443;
     DNS := ["1.1.1.1"; "8.8.8.8"];
     DNSTimeout := 2 * GoTime.Second;
     UseIPv6 := false;
     NoTunnelIPv4 := false;
     NoTunnelIPv6 := false;
     SNIAddress := "";
     KeepalivePeriod := 30 * GoTime.Second;
     MTU := 1280;
     InitialPacketSize := 1242;
     ReconnectDelay := 1 * GoTime.Second;
     ConnectionTimeout := 30 * GoTime.Second;
     IdleTimeout := 5 * GoTime.Minute;
     PerClient := false |}.

Definition GetDefaultLoggingConfig : LoggingConfig :=
  {| OutputPath := ""; Level := "info" |}.

Definition InitNewConfig
    (privateKey endpointV4 endpointV6 endpointPubKey
     license id accessToken ipv4 ipv6 deviceName : string) : Config :=
  {| PrivateKey := privateKey; EndpointV4 := endpointV4;
     EndpointV6 := endpointV6; EndpointPubKey := endpointPubKey;
     License := license; ID := id; AccessToken := accessToken;
     IPv4 := ipv4; IPv6 := ipv6;
     Socks := GetDefaultSocksConfig;
     Tunnel := GetDefaultTunnelConfig;
     Logging := GetDefaultLoggingConfig;
     Registration := {| DeviceName := deviceName |} |}.

(** The package variables [AppConfig] and [ConfigLoaded]. *)
Record state : Type := {
  AppConfig : Config;
  ConfigLoaded : bool
}.

(** The answers of the file system and of [encoding/json] during one call of
    [LoadConfig]: the error of [os.Open], and what [decoder.Decode] makes of
    [AppConfig] (it writes into the value that is there) with its error. *)
Record load_env : Type := {
  open_err : option error;
  decode : Config -> Config * option error
}.

(** The four [if] statements of [LoadConfig] that follow the decoding. *)
Definition fill_defaults (c : Config) : Config :=
  let c :=
    if String.eqb (Port (Socks c)) "" && String.eqb (BindAddress (Socks c)) ""
    then set_Socks GetDefaultSocksConfig c else c in
  let c :=
    if (ConnectPort (Tunnel c) =? 0) && (Z.of_nat (length (DNS (Tunnel c))) =? 0)
    then set_Tunnel GetDefaultTunnelConfig c else c in
  let c :=
    if String.eqb (OutputPath (Logging c)) ""
    then set_Logging {| OutputPath := OutputPath GetDefaultLoggingConfig;
                        Level := Level (Logging c) |} c
    else c in
  let c :=
    if String.eqb (Level (Logging c)) ""
    then set_Logging {| OutputPath := OutputPath (Logging c);
                        Level := Level GetDefaultLoggingConfig |} c
    else c in
  c.

Definition LoadConfig (e : load_env) (st : state) : state * option error :=
  match open_err e with
  | Some err => (st, Some ("failed to open config file: " ++ err))
  | None =>
      let '(c, derr) := decode e (AppConfig st) in
      match derr with
      | Some err =>
          ({| AppConfig := c; ConfigLoaded := ConfigLoaded st |},
           Some ("failed to decode config file: " ++ err))
      | None =>
          ({| AppConfig := fill_defaults c; ConfigLoaded := true |}, None)
      end
  end.
End Configuration.

(** ** Preparing the tunnel ([service/tunnel/setup.go]) *)

Module Setup.
Import Configuration.
Local Open Scope string_scope.
Local Open Scope Z_scope.

(** [TimeoutSettings]: the connection and the idle timeout. *)
Definition TimeoutSettings (cfg : Config) : Z * Z :=
  let conn := ConnectionTimeout (Tunnel cfg) in
  let idle := IdleTimeout (Tunnel cfg) in
  let conn := if conn =? 0 then 30 * GoTime.Second else conn in
  let idle := if idle =? 0 then 5 * GoTime.Minute else idle in
  (conn, idle).

Section Network.
(** [netip.Addr], [net.IP], and the two parsers of the standard library:
    [netip.ParseAddr] returns an error, [net.ParseIP] returns nil, for a
    text that is not an address. *)
Context {Addr IPAddr : Type}.
Context (ParseAddr : string -> error + Addr).
Context (ParseIP : string -> option IPAddr).

Record UDPAddr : Type := {
  udp_IP : option IPAddr;
  udp_Port : Z
}.

(** The loop over [cfg.Tunnel.DNS]; [dnsAddrs] is what was appended so
    far. *)
Fixpoint parse_dns (dns : list string) (dnsAddrs : list Addr)
  : error + list Addr :=
  match dns with
  | [] => inr dnsAddrs
  | d :: rest =>
      match ParseAddr d with
      | inl err => inl ("failed to parse DNS server: " ++ err)
      | inr addr => parse_dns rest (dnsAddrs ++ [addr])%list
      end
  end.

Definition PrepareNetworkConfig (cfg : Config)
  : error + (UDPAddr * list Addr * list Addr) :=
  let endpoint :=
    if UseIPv6 (Tunnel cfg)
    then {| udp_IP := ParseIP (EndpointV6 cfg); udp_Port := ConnectPort (Tunnel cfg) |}
    else {| udp_IP := ParseIP (EndpointV4 cfg); udp_Port := ConnectPort (Tunnel cfg) |} in
  let locals : error + list Addr :=
    if negb (NoTunnelIPv4 (Tunnel cfg)) then
      match ParseAddr (IPv4 cfg) with
      | inl err => inl ("failed to parse IPv4 address: " ++ err)
      | inr v4 => inr [v4]
      end
    else inr [] in
  match locals with
  | inl err => inl err
  | inr locals =>
      let locals : error + list Addr :=
        if negb (NoTunnelIPv6 (Tunnel cfg)) then
          match ParseAddr (IPv6 cfg) with
          | inl err => inl ("failed to parse IPv6 address: " ++ err)
          | inr v6 => inr (locals ++ [v6])%list
          end
        else inr locals in
      match locals with
      | inl err => inl err
      | inr locals =>
          match parse_dns (DNS (Tunnel cfg)) [] with
          | inl err => inl err
          | inr dnsAddrs => inr (endpoint, locals, dnsAddrs)
          end
      end
  end.
End Network.

(** [StartTunnel]: the connection configuration it builds, as far as the
    maintenance loop reads it.  The factor is the constant 2.0. *)
Definition StartTunnel_config (cfg : Config)
  : Lifecycle.ConnectionConfig (Backoff.ExponentialBackoff Binary64.arith) :=
  {| Lifecycle.MTU := MTU (Tunnel cfg);
     Lifecycle.ReconnectStrategy :=
       Backoff.Build_ExponentialBackoff Binary64.arith
         (ReconnectDelay (Tunnel cfg)) (5 * GoTime.Minute)
         ScenarioBackoff.two 0 |}.

(** The goroutine that [StartTunnel] starts with [DefaultManager]:
    [api.MaintainTunnel(ctx, conf, adapter)]. *)
Definition StartTunnel (cfg : Config)
    (script : list (Lifecycle.iter_env spec_float))
  : go (Lifecycle.status
        * Lifecycle.world (Backoff.ExponentialBackoff Binary64.arith)) :=
  Lifecycle.MaintainTunnel (StartTunnel_config cfg) script.
End Setup.

Module SetupFacts.
Import Configuration.

(** The texts of the tunnel-side addresses that are enabled, IPv4 first. *)
Definition local_texts (cfg : Config) : list string :=
  (if NoTunnelIPv4 (Tunnel cfg) then [] else [IPv4 cfg])
  ++ (if NoTunnelIPv6 (Tunnel cfg) then [] else [IPv6 cfg]).

(** The text of the endpoint that is dialled. *)
Definition endpoint_text (cfg : Config) : string :=
  if UseIPv6 (Tunnel cfg) then EndpointV6 cfg else EndpointV4 cfg.

(** The wrapper that [socks.Run] puts around every accepted connection,
    [&models.TimeoutConn{Conn: conn, IdleTimeout: idleTimeout}], with the
    idle timeout that [Service.Run] takes from [TimeoutSettings]. *)
Definition accepted {C : Type} (cfg : Config) (conn : C)
  : TimeoutConn.TimeoutConn C :=
  {| TimeoutConn.Conn := conn;
     TimeoutConn.IdleTimeout := snd (Setup.TimeoutSettings cfg) |}.

(** A configuration file that [LoadConfig] reads: [os.Open] succeeds and the
    decoder leaves [c] in [AppConfig], without error. *)
Definition file_with (c : Config) : load_env :=
  {| open_err := None; decode := fun _ => (c, None) |}.

(** A configuration whose sections are all empty, and one whose tunnel
    section gives only a connect port. *)
Definition empty_config : Config :=
  {| PrivateKey := ""; EndpointV4 := ""; EndpointV6 := ""; EndpointPubKey := "";
     License := ""; ID := ""; AccessToken := ""; IPv4 := ""; IPv6 := "";
     Socks := {| BindAddress := ""; Port := ""; Username := ""; Password := "" |};
     Tunnel := {| ConnectPort := 0; DNS := []; DNSTimeout := 0; UseIPv6 := false;
                  NoTunnelIPv4 := false; NoTunnelIPv6 := false; SNIAddress := "";
                  KeepalivePeriod := 0; MTU := 0; InitialPacketSize := 0;
                  ReconnectDelay := 0; ConnectionTimeout := 0; IdleTimeout := 0;
                  PerClient := false |};
     Logging := {| OutputPath := ""; Level := "" |};
     Registration := {| DeviceName := "" |} |}.

Definition only_connect_port (port : Z) : Config :=
  set_Tunnel
    {| ConnectPort := port; DNS := []; DNSTimeout := 0; UseIPv6 := false;
       NoTunnelIPv4 := false; NoTunnelIPv6 := false; SNIAddress := "";
       KeepalivePeriod := 0; MTU := 0; InitialPacketSize := 0;
       ReconnectDelay := 0; ConnectionTimeout := 0; IdleTimeout := 0;
       PerClient := false |}
    empty_config.
End SetupFacts.

(** ** The proxy command ([cmd]: [runProxyCmd], [handleRegistration]) *)

Module Cmd.
Import Configuration.
Local Open Scope string_scope.
Local Open Scope Z_scope.

(** [s[lo:hi]] on a string: a run-time panic unless [0 <= lo <= hi <= len(s)]. *)
Definition slice (s : string) (lo hi : Z) : go string :=
  if (0 <=? lo) && (lo <=? hi) && (hi <=? Z.of_nat (String.length s))
  then Done (String.substring (Z.to_nat lo) (Z.to_nat (hi - lo)) s)
  else Panic "slice bounds out of range".

(** What the command reads of the account data that the API returns. *)
Record Peer : Type := {
  peer_V4 : string;                   (* Endpoint.V4 *)
  peer_V6 : string;                   (* Endpoint.V6 *)
  peer_PublicKey : string
}.

Record AccountData : Type := {
  acc_Token : string;
  acc_ID : string;
  acc_License : string;               (* Account.License *)
  acc_Peers : list Peer;              (* Config.Peers *)
  acc_V4 : string;                    (* Config.Interface.Addresses.V4 *)
  acc_V6 : string                     (* Config.Interface.Addresses.V6 *)
}.

(** The flags of the command. *)
Record flags : Type := {
  flag_config : error + string;       (* cmd.Flags().GetString("config") *)
  flag_reset_config : bool;
  flag_bind_address : string;
  flag_port : string;
  flag_username : string;
  flag_password : string;
  flag_name : string;
  flag_locale : string;
  flag_model : string;
  flag_accept_tos : bool;
  flag_jwt : string
}.

(** What the command does that can be seen from outside. *)
Inductive event : Type :=
  | Register (model locale jwt : string) (acceptTos : bool)
  | GenerateEcKeyPair
  | EnrollKey (deviceName : string)
  | SaveConfig (path : string) (c : Config)   (* the AppConfig written *)
  | Printed (msg : string)                    (* cmd.Printf *)
  | RunService (c : Config).                  (* svc.Run(ctx, &config.AppConfig) *)

(** The answers of the collaborators during registration.  [enroll] gives,
    on failure, the error and the text of the API errors when there are
    some; [save_registered] is what [SaveConfig] returns. *)
Record registration_env : Type := {
  register : error + AccountData;
  keypair : error + (list Byte.byte * list Byte.byte);
  enroll : (error * option string) + AccountData;
  save_registered : option error
}.

(** The answers during the rest of the command: what [SaveConfig] returns
    after a reset, and what the proxy service returns.  The two other calls
    of [SaveConfig] only log their error; logging is left out. *)
Record proxy_env : Type := {
  registration : registration_env;
  save_reset : option error;
  run_service : option error
}.

(** The line feed that ends the messages of [cmd.Printf]. *)
Definition nl : string := String (ascii_of_nat 10) "".

Section WithLibraries.
(** [base64.StdEncoding.EncodeToString] and the constant
    [internal.ConnectSNI]. *)
Context (EncodeToString : list Byte.byte -> string).
Context (ConnectSNI : string).

(** The three arguments of [InitNewConfig] that index and slice:
    [Peers[0]], [V4[:len(V4)-2]] and [V6[1:len(V6)-3]], evaluated in this
    order. *)
Definition first_peer (a : AccountData) : go Peer :=
  match acc_Peers a with
  | p :: _ => Done p
  | [] => Panic "index out of range [0] with length 0"
  end.

Definition strip_v4 (v4 : string) : go string :=
  slice v4 0 (Z.of_nat (String.length v4) - 2).

Definition strip_v6 (v6 : string) : go string :=
  slice v6 1 (Z.of_nat (String.length v6) - 3).

Definition handleRegistration (fl : flags) (configPath : string)
    (e : registration_env) (st : state)
  : go (state * option error * list event) :=
  let deviceName := flag_name fl in
  let t := [Register (flag_model fl) (flag_locale fl) (flag_jwt fl)
              (flag_accept_tos fl)] in
  match register e with
  | inl err => Done (st, Some ("Failed to register: " ++ err), t)
  | inr accountData =>
      let t := (t ++ [GenerateEcKeyPair])%list in
      match keypair e with
      | inl err => Done (st, Some ("Failed to generate key pair: " ++ err), t)
      | inr (privKey, pubKey) =>
          let t := (t ++ [EnrollKey deviceName])%list in
          match enroll e with
          | inl (err, Some apiErrors) =>
              Done (st,
                    Some ("Failed to enroll key: " ++ err
                          ++ " (API errors: " ++ apiErrors ++ ")"), t)
          | inl (err, None) =>
              Done (st, Some ("Failed to enroll key: " ++ err), t)
          | inr updated =>
              match first_peer updated with
              | Panic msg => Panic msg
              | Done peer =>
                  match strip_v4 (peer_V4 peer) with
                  | Panic msg => Panic msg
                  | Done endpointV4 =>
                      match strip_v6 (peer_V6 peer) with
                      | Panic msg => Panic msg
                      | Done endpointV6 =>
                          let c :=
                            InitNewConfig (EncodeToString privKey)
                              endpointV4 endpointV6 (peer_PublicKey peer)
                              (acc_License updated) (acc_ID updated)
                              (acc_Token accountData)
                              (acc_V4 updated) (acc_V6 updated) deviceName in
                          let st := {| AppConfig := c;
                                       ConfigLoaded := ConfigLoaded st |} in
                          let t := (t ++ [SaveConfig configPath c])%list in
                          match save_registered e with
                          | Some err =>
                              Done (st, Some ("Failed to save config: " ++ err), t)
                          | None =>
                              Done ({| AppConfig := c; ConfigLoaded := true |},
                                    None, t)
                          end
                      end
                  end
              end
          end
      end
  end.

(** The four overrides of [runProxyCmd]: a flag that is not empty replaces
    the field of the SOCKS section; the result says whether any did. *)
Definition apply_overrides (fl : flags) (c : Config) : Config * bool :=
  let configChanged := false in
  let '(c, configChanged) :=
    if negb (String.eqb (flag_bind_address fl) "")
    then (set_Socks {| BindAddress := flag_bind_address fl;
                       Port := Port (Socks c); Username := Username (Socks c);
                       Password := Password (Socks c) |} c, true)
    else (c, configChanged) in
  let '(c, configChanged) :=
    if negb (String.eqb (flag_port fl) "")
    then (set_Socks {| BindAddress := BindAddress (Socks c);
                       Port := flag_port fl; Username := Username (Socks c);
                       Password := Password (Socks c) |} c, true)
    else (c, configChanged) in
  let '(c, configChanged) :=
    if negb (String.eqb (flag_username fl) "")
    then (set_Socks {| BindAddress := BindAddress (Socks c);
                       Port := Port (Socks c); Username := flag_username fl;
                       Password := Password (Socks c) |} c, true)
    else (c, configChanged) in
  let '(c, configChanged) :=
    if negb (String.eqb (flag_password fl) "")
    then (set_Socks {| BindAddress := BindAddress (Socks c);
                       Port := Port (Socks c); Username := Username (Socks c);
                       Password := flag_password fl |} c, true)
    else (c, configChanged) in
  (c, configChanged).

(** The end of [runProxyCmd], from the overrides on. *)
Definition override_and_run (fl : flags) (configPath : string) (e : proxy_env)
    (st : state) (t : list event) : state * list event :=
  let '(c, configChanged) := apply_overrides fl (AppConfig st) in
  let st := {| AppConfig := c; ConfigLoaded := ConfigLoaded st |} in
  let t := if configChanged then (t ++ [SaveConfig configPath c])%list else t in
  let t := (t ++ [RunService c])%list in
  match run_service e with
  | Some err => (st, (t ++ [Printed (err ++ nl)])%list)
  | None => (st, t)
  end.

Definition runProxyCmd (fl : flags) (e : proxy_env) (st : state)
  : go (state * list event) :=
  match flag_config fl with
  | inl err => Done (st, [Printed ("Failed to get config path: " ++ err ++ nl)])
  | inr configPath =>
      let configPath := if String.eqb configPath "" then "config.json" else configPath in
      let resetConfig := flag_reset_config fl in
      if negb (ConfigLoaded st) then
        match handleRegistration fl configPath (registration e) st with
        | Panic msg => Panic msg
        | Done (st, Some err, t) => Done (st, (t ++ [Printed (err ++ nl)])%list)
        | Done (st, None, t) =>
            let c := set_Tunnel (set_SNIAddress ConnectSNI (Tunnel (AppConfig st)))
                       (AppConfig st) in
            let st := {| AppConfig := c; ConfigLoaded := ConfigLoaded st |} in
            let t := (t ++ [SaveConfig configPath c])%list in
            Done (override_and_run fl configPath e st t)
        end
      else if resetConfig then
        let sniAddress := SNIAddress (Tunnel (AppConfig st)) in
        let c := set_Socks GetDefaultSocksConfig (AppConfig st) in
        let c := set_Tunnel GetDefaultTunnelConfig c in
        let c := set_Tunnel (set_SNIAddress sniAddress (Tunnel c)) c in
        let st := {| AppConfig := c; ConfigLoaded := ConfigLoaded st |} in
        let t := [SaveConfig configPath c] in
        match save_reset e with
        | Some err =>
            Done (st, (t ++ [Printed ("Failed to save reset configuration: "
                                      ++ err ++ nl)])%list)
        | None => Done (override_and_run fl configPath e st t)
        end
      else Done (override_and_run fl configPath e st [])
  end.
End WithLibraries.
End Cmd.

Module ScenarioCmd.
Import Configuration Cmd.
Local Open Scope string_scope.

(** The account data of a device whose peer has the endpoints
    162.159.198.1:0 and [2606:4700:103::1]:0. *)
Definition enrolled : AccountData :=
  {| acc_Token := "token"; acc_ID := "id-1"; acc_License := "license-1";
     acc_Peers := [{| peer_V4 := "162.159.198.1:0";
                      peer_V6 := "[2606:4700:103::1]:0";
                      peer_PublicKey := "PEM" |}];
     acc_V4 := "172.16.0.2"; acc_V6 := "2606:4700:110::2" |}.

Definition no_flags : flags :=
  {| flag_config := inr "config.json"; flag_reset_config := false;
     flag_bind_address := ""; flag_port := ""; flag_username := "";
     flag_password := ""; flag_name := "laptop"; flag_locale := "en_US";
     flag_model := "PC"; flag_accept_tos := true; flag_jwt := "" |}.

(** The flags [--port 9050 --username alice], and [--reset-config]. *)
Definition port_and_user : flags :=
  {| flag_config := inr "config.json"; flag_reset_config := false;
     flag_bind_address := ""; flag_port := "9050"; flag_username := "alice";
     flag_password := ""; flag_name := ""; flag_locale := "en_US";
     flag_model := "PC"; flag_accept_tos := true; flag_jwt := "" |}.

Definition reset_flag : flags :=
  {| flag_config := inr ""; flag_reset_config := true;
     flag_bind_address := ""; flag_port := ""; flag_username := "";
     flag_password := ""; flag_name := ""; flag_locale := "en_US";
     flag_model := "PC"; flag_accept_tos := true; flag_jwt := "" |}.

(** Every collaborator succeeds. *)
Definition all_well : proxy_env :=
  {| registration :=
       {| register := inr enrolled;
          keypair := inr ([Byte.x01], [Byte.x02]);
          enroll := inr enrolled;
          save_registered := None |};
     save_reset := None;
     run_service := None |}.

(** A loaded configuration with a password and an SNI address. *)
Definition loaded : state :=
  {| AppConfig :=
       set_Tunnel (set_SNIAddress "sni.example" GetDefaultTunnelConfig)
         (set_Socks {| BindAddress := "0.0.0.0"; Port := "1080";
                       Username := "bob"; Password := "secret" |}
            (InitNewConfig "key" "162.159.198.1" "2606:4700:103::1" "PEM"
               "license-1" "id-1" "token" "172.16.0.2" "2606:4700:110::2"
               "laptop"));
     ConfigLoaded := true |}.

(** A stand-in for [base64.StdEncoding.EncodeToString] in examples. *)
Definition encode (b : list Byte.byte) : string := "base64".
End ScenarioCmd.

Module CmdFacts.
Import Configuration Cmd.
Local Open Scope string_scope.

(** The value of a field after an override: the flag when it is not empty. *)
Definition pick (flag old : string) : string :=
  if String.eqb flag "" then old else flag.

(** The SOCKS section after the overrides of the flags. *)
Definition overridden (fl : flags) (s : SocksConfig) : SocksConfig :=
  {| BindAddress := pick (flag_bind_address fl) (BindAddress s);
     Port := pick (flag_port fl) (Port s);
     Username := pick (flag_username fl) (Username s);
     Password := pick (flag_password fl) (Password s) |}.

(** Some override flag is given. *)
Definition any_override (fl : flags) : bool :=
  negb (String.eqb (flag_bind_address fl) "")
  || negb (String.eqb (flag_port fl) "")
  || negb (String.eqb (flag_username fl) "")
  || negb (String.eqb (flag_password fl) "").

(** The path that the command uses. *)
Definition config_path (p : string) : string :=
  if String.eqb p "" then "config.json" else p.

(** Whether a trace reaches the proxy service. *)
Definition runs_service (t : list event) : bool :=
  existsb (fun ev => match ev with RunService _ => true | _ => false end) t.
End CmdFacts.

(** ** The SOCKS server loop ([service/socks]: [Run], [createServer]) *)

Module SocksServer.
Import Configuration.
Local Open Scope string_scope.
Local Open Scope Z_scope.

(** [time.Duration.Seconds] (Go's standard library):
    [sec := d / Second; nsec := d % Second;
     return float64(sec) + float64(nsec)/1e9], on binary64. *)
Definition Seconds (d : Z) : spec_float :=
  let sec := Z.quot d GoTime.Second in
  let nsec := Z.rem d GoTime.Second in
  SFadd Binary64.prec Binary64.emax (Binary64.of_int64 sec)
    (SFdiv Binary64.prec Binary64.emax (Binary64.of_int64 nsec)
       (Binary64.of_int64 1000000000)).

(** The resolver that [Run] creates:
    [api.NewCachingDNSResolver("", int(cfg.Tunnel.DNSTimeout.Duration().Seconds()))]. *)
Definition resolver_of (cfg : Config) : Resolver.CachingDNSResolver :=
  let dnsTimeoutSec := Binary64.to_int64 (Seconds (DNSTimeout (Tunnel cfg))) in
  Resolver.NewCachingDNSResolver "" dnsTimeoutSec.

(** What the loop does with connections, servers and tunnels.  A server is
    named by the number of servers created before it, a connection, a TUN
    device and a network stack by the number the environment gives them;
    network stack 0 is the shared one passed to [Run]. *)
Inductive event : Type :=
  | CreateServer (auth : bool) (netTun : nat)
  | Listen (bindAddress port : string)
  | CloseConn (conn : nat)                      (* conn.Close() *)
  | StartTunnel (dev : nat)                     (* tunnel.StartTunnel(cctx, ..., dev) *)
  | ServeConn (server : nat) (conn : nat) (idleTimeout : Z)
      (own : option nat).
      (* go server.ServeConn(&models.TimeoutConn{Conn: conn, IdleTimeout: idleTimeout});
         with [own = Some dev] the goroutine then cancels the tunnel's
         context and closes [dev] *)

(** [createServer]: the pool of 32 KiB buffers is always created
    ([api.NewNetBuffer] never returns nil), and authentication is asked for
    when both the user name and the password are given. *)
Definition createServer (username password : string) (netTun : nat)
  : go event :=
  match Pool.NewNetBuffer (32 * 1024) with
  | Panic msg => Panic msg
  | Done _ =>
      Done (CreateServer
              (negb (String.eqb username "") && negb (String.eqb password ""))
              netTun)
  end.

(** The answers of the collaborators during one iteration of the accept
    loop. *)
Record accept_env : Type := {
  accept : error + nat;               (* l.Accept() *)
  ctx_cancelled : bool;               (* ctx.Err() != nil, after a failed Accept *)
  create_tun : error + (nat * nat)    (* tunnel.CreateTun: the device and its stack *)
}.

(** The answers before the loop. *)
Record run_env : Type := {
  tls_config : option error;          (* tunnel.PrepareTLSConfig *)
  network_config : option error;      (* tunnel.PrepareNetworkConfig *)
  listen : option error               (* net.Listen *)
}.

Inductive outcome : Type :=
  | Accepting                           (* the script ended; the loop goes on *)
  | Returned (err : option error)
  | Panicked (msg : string).

(** The [for] loop.  [server] is the shared server (none in per-client
    mode), [created] the number of servers created so far. *)
Fixpoint accept_loop (cfg : Config) (idleTimeout : Z) (server : option nat)
    (created : nat) (script : list accept_env) (t : list event)
  : outcome * list event :=
  match script with
  | [] => (Accepting, t)
  | it :: rest =>
      match accept it with
      | inl _ =>
          if ctx_cancelled it then (Returned None, t)
          else accept_loop cfg idleTimeout server created rest t
      | inr conn =>
          if PerClient (Tunnel cfg) then
            match create_tun it with
            | inl _ =>
                accept_loop cfg idleTimeout server created rest
                  (t ++ [CloseConn conn])%list
            | inr (dev, netTun) =>
                match createServer (Username (Socks cfg)) (Password (Socks cfg))
                        netTun with
                | Panic msg => (Panicked msg, (t ++ [StartTunnel dev])%list)
                | Done ev =>
                    accept_loop cfg idleTimeout server (S created) rest
                      (t ++ [StartTunnel dev; ev;
                             ServeConn created conn idleTimeout (Some dev)])%list
                end
            end
          else
            match server with
            | Some s =>
                accept_loop cfg idleTimeout server created rest
                  (t ++ [ServeConn s conn idleTimeout None])%list
            | None => (Panicked "invalid memory address or nil pointer dereference", t)
            end
      end
  end.

Definition Run (cfg : Config) (idleTimeout : Z) (e : run_env)
    (script : list accept_env) : outcome * list event :=
  match tls_config e with
  | Some err => (Returned (Some err), [])
  | None =>
      match network_config e with
      | Some err => (Returned (Some err), [])
      | None =>
          let start : go (option nat * nat * list event) :=
            if negb (PerClient (Tunnel cfg)) then
              match createServer (Username (Socks cfg)) (Password (Socks cfg)) 0 with
              | Panic msg => Panic msg
              | Done ev => Done (Some O, 1%nat, [ev])
              end
            else Done (None, O, []) in
          match start with
          | Panic msg => (Panicked msg, [])
          | Done (server, created, t) =>
              let t := (t ++ [Listen (BindAddress (Socks cfg)) (Port (Socks cfg))])%list in
              match listen e with
              | Some err =>
                  (Returned (Some ("failed to start SOCKS proxy: " ++ err)), t)
              | None => accept_loop cfg idleTimeout server created script t
              end
          end
      end
  end.

(** The connections that a trace serves and closes, and the ones that a
    script hands out, in order. *)
Fixpoint handled (t : list event) : list nat :=
  match t with
  | [] => []
  | CloseConn c :: t' => c :: handled t'
  | ServeConn _ c _ _ :: t' => c :: handled t'
  | _ :: t' => handled t'
  end.

Fixpoint accepted_conns (script : list accept_env) : list nat :=
  match script with
  | [] => []
  | it :: rest =>
      match accept it with
      | inl _ => if ctx_cancelled it then [] else accepted_conns rest
      | inr c => c :: accepted_conns rest
      end
  end.

(** The idle timeouts of the connections served. *)
Fixpoint served_timeouts (t : list event) : list Z :=
  match t with
  | [] => []
  | ServeConn _ _ idle _ :: t' => idle :: served_timeouts t'
  | _ :: t' => served_timeouts t'
  end.

(** The servers created, each with its authentication requirement. *)
Fixpoint servers (t : list event) : list bool :=
  match t with
  | [] => []
  | CreateServer auth _ :: t' => auth :: servers t'
  | _ :: t' => servers t'
  end.
End SocksServer.

Module ScenarioSocks.
Import Configuration SocksServer.
Local Open Scope string_scope.

Definition ready : run_env :=
  {| tls_config := None; network_config := None; listen := None |}.

(** Client 1 arrives and gets a tunnel, client 2 arrives and the TUN device
    cannot be created, an [Accept] fails, client 3 arrives, and then the
    context is cancelled. *)
Definition arrivals : list accept_env :=
  [ {| accept := inr 1%nat; ctx_cancelled := false; create_tun := inr (10, 20)%nat |};
    {| accept := inr 2%nat; ctx_cancelled := false;
       create_tun := inl "too many open files" |};
    {| accept := inl "temporary failure"; ctx_cancelled := false;
       create_tun := inr (11, 21)%nat |};
    {| accept := inr 3%nat; ctx_cancelled := false; create_tun := inr (12, 22)%nat |};
    {| accept := inl "use of closed network connection"; ctx_cancelled := true;
       create_tun := inr (13, 23)%nat |} ].

(** The configuration of [ScenarioCmd.loaded] in per-client mode. *)
Definition per_client : Config :=
  set_Tunnel
    {| ConnectPort := 443; DNS := ["1.1.1.1"]; DNSTimeout := 2000000000;
       UseIPv6 := false; NoTunnelIPv4 := false; NoTunnelIPv6 := false;
       SNIAddress := ""; KeepalivePeriod := 30000000000; MTU := 1280;
       InitialPacketSize := 1242; ReconnectDelay := 1000000000;
       ConnectionTimeout := 30000000000; IdleTimeout := 300000000000;
       PerClient := true |}
    (AppConfig ScenarioCmd.loaded).
End ScenarioSocks.

(** * Properties *)

(** ** Machine integers *)

Lemma wrap64_id z : in_int64 z -> wrap64 z = z.
Proof.
  unfold in_int64, min_int64, max_int64, wrap64. intros H.
  rewrite Z.mod_small; lia.
Qed.

Lemma wrap64_range z : in_int64 (wrap64 z).
Proof.
  unfold in_int64, min_int64, max_int64, wrap64.
  pose proof (Z.mod_pos_bound (z + 2 ^ 63) (2 ^ 64) ltac:(lia)). lia.
Qed.


(** ** handleConnection *)

Section HandleConnection.
Import Stats Lifecycle.

Lemma closes_app t1 t2 : closes (t1 ++ t2) = closes t1 ++ closes t2.
Proof. unfold closes. apply List.filter_app. Qed.

Lemma closes_teardown d : closes (teardown d) = teardown d.
Proof.
    unfold teardown.
    destruct (ipConn d), (udpConn d), (tr d); reflexivity.
Qed.

(** What [handleConnection] returns when the dial fails. *)
Lemma handleConnection_dial_failed e stats a err :
    dial_err (dial e) = Some err ->
    handleConnection e stats a
    = ((wrap64 (a + 1), Some err), stats,
       [LogEstablishing (wrap64 (a + 1)); ConnectTunnel]).
Proof. intros H. unfold handleConnection. rewrite H. reflexivity. Qed.

(** What [handleConnection] returns once forwarding has run. *)
Lemma handleConnection_forwarded e stats a :
    dial_err (dial e) = None ->
    StatusCode (rsp (dial e)) = 200 ->
    fst (fst (handleConnection e stats a)) = (0, fwd_err e).
Proof.
    intros Hd Hs. unfold handleConnection. rewrite Hd, Hs. simpl.
    destruct (fwd_err e); reflexivity.
Qed.

(** C6: when the dial succeeds and the HTTP status is not 200,
    [handleConnection a] bumps the error counter and nothing else in the
    statistics, returns [a + 1] (Go's [int] addition) with the error
    "tunnel connection failed: <status text>", and neither records a
    handshake nor starts the statistics logger or forwarding; the only
    other thing it does is the deferred tear-down. *)
Theorem handleConnection_rejected e stats a :
    dial_err (dial e) = None ->
    StatusCode (rsp (dial e)) <> 200 ->
    exists a' err stats' t,
      handleConnection e stats a = ((a', Some err), stats', t)
      /\ a' = wrap64 (a + 1)
      /\ (min_int64 <= a < max_int64 -> a' = a + 1)
      /\ err = String.append "tunnel connection failed: " (Status (rsp (dial e)))
      /\ stats' = RecordError stats
      /\ Errors stats' = wrapU64 (Errors stats + 1)
      /\ HandShake stats' = HandShake stats
      /\ LastReconnect stats' = LastReconnect stats
      /\ t = [LogEstablishing (wrap64 (a + 1)); ConnectTunnel; RecordedError]
             ++ teardown (dial e)
      /\ ~ In RecordedHandShake t
      /\ ~ In MonitorStats t
      /\ ~ In HandleForwarding t.
Proof.
    intros Hd Hs. unfold handleConnection. rewrite Hd.
    destruct (Z.eqb_spec (StatusCode (rsp (dial e))) 200) as [E | _]; [contradiction |].
    simpl negb. cbv iota.
    eexists _, _, _, _. split; [reflexivity |].
    repeat split.
    - intros Ha. apply wrap64_id. unfold in_int64. lia.
    - unfold teardown. intros Hin. simpl in Hin.
      destruct (ipConn (dial e)), (udpConn (dial e)), (tr (dial e));
        simpl in Hin; intuition discriminate.
    - unfold teardown. intros Hin. simpl in Hin.
      destruct (ipConn (dial e)), (udpConn (dial e)), (tr (dial e));
        simpl in Hin; intuition discriminate.
    - unfold teardown. intros Hin. simpl in Hin.
      destruct (ipConn (dial e)), (udpConn (dial e)), (tr (dial e));
        simpl in Hin; intuition discriminate.
Qed.
End HandleConnection.

Section HandleConnectionTeardown.
Import Stats Lifecycle.

(** Before the deferred function runs, [handleConnection] closes nothing. *)
Lemma handleConnection_trace e stats a :
  dial_err (dial e) = None ->
  exists t0, snd (handleConnection e stats a) = t0 ++ teardown (dial e)
             /\ closes t0 = [].
Proof.
  intros Hd. unfold handleConnection. rewrite Hd.
  destruct (negb (StatusCode (rsp (dial e)) =? 200)).
  - exists [LogEstablishing (wrap64 (a + 1)); ConnectTunnel; RecordedError].
    split; reflexivity.
  - destruct (fwd_err e).
    + exists [LogEstablishing (wrap64 (a + 1)); ConnectTunnel; RecordedHandShake;
              MonitorStats; HandleForwarding; RecordedError; CancelForwarding].
      split; reflexivity.
    + exists [LogEstablishing (wrap64 (a + 1)); ConnectTunnel; RecordedHandShake;
              MonitorStats; HandleForwarding; CancelForwarding].
      split; reflexivity.
Qed.

(** C5, as the code has it: whenever [handleConnection] returns after a
    successful dial, whatever the status and the fate of forwarding, the last
    thing it does is close the IP-packet connection, then the UDP socket,
    then the QUIC transport (each one if it is not nil), and it closes
    nothing before that. *)
Theorem handleConnection_teardown e stats a :
  dial_err (dial e) = None ->
  (exists t0, snd (handleConnection e stats a) = t0 ++ teardown (dial e)
              /\ closes t0 = [])
  /\ closes (snd (handleConnection e stats a)) = teardown (dial e)
  /\ forall hi hu ht,
       ipConn (dial e) = Some hi -> udpConn (dial e) = Some hu ->
       tr (dial e) = Some ht ->
       closes (snd (handleConnection e stats a))
       = [CloseIP hi; CloseUDP hu; CloseTR ht].
Proof.
  intros Hd.
  destruct (handleConnection_trace e stats a Hd) as (t0 & Ht & H0).
  assert (Hc : closes (snd (handleConnection e stats a)) = teardown (dial e)).
  { rewrite Ht, closes_app, H0, closes_teardown. reflexivity. }
  split; [exists t0; auto |]. split; [exact Hc |].
  intros hi hu ht Hi Hu Htr. rewrite Hc. unfold teardown.
  rewrite Hi, Hu, Htr. reflexivity.
Qed.

Lemma handleConnection_teardown_witness :
  dial_err (dial Scenario.forwarding_fails) = None
  /\ closes (snd (handleConnection Scenario.forwarding_fails Stats.zero 0))
     = [CloseIP 3%nat; CloseUDP 1%nat; CloseTR 2%nat].
Proof.
  split; [reflexivity |].
  apply (handleConnection_teardown Scenario.forwarding_fails Stats.zero 0 eq_refl);
    reflexivity.
Defined.

(** C5 as the claim words it (IP connection, then QUIC transport, then UDP
    socket) does not hold: with forwarding failing after a 200 answer the
    UDP socket is closed before the transport. *)
Lemma handleConnection_teardown_counterexample :
  dial_err (dial Scenario.forwarding_fails) = None
  /\ closes (snd (handleConnection Scenario.forwarding_fails Stats.zero 0))
     <> [CloseIP 3%nat; CloseTR 2%nat; CloseUDP 1%nat].
Proof. split; [reflexivity | discriminate]. Qed.

Lemma handleConnection_rejected_witness :
  dial_err (dial Scenario.rejected_403) = None
  /\ StatusCode (rsp (dial Scenario.rejected_403)) <> 200
  /\ fst (handleConnection Scenario.rejected_403 Stats.zero 0)
     = ((1, Some "tunnel connection failed: 403 Forbidden"%string),
        RecordError Stats.zero).
Proof.
  split; [reflexivity |]. split; [discriminate |].
  destruct (handleConnection_rejected Scenario.rejected_403 Stats.zero 0
              eq_refl ltac:(discriminate))
    as (a' & err & stats' & t & Heq & Ha & _ & Herr & Hst & _).
  rewrite Heq, Ha, Herr, Hst. reflexivity.
Defined.
End HandleConnectionTeardown.

(** ** The buffer pool *)

Section PoolProperties.
Import Pool Forwarding Lifecycle.

Lemma buffer_eqb_refl b : buffer_eqb b b = true.
Proof.
  unfold buffer_eqb. rewrite Nat.eqb_refl, Z.eqb_refl. reflexivity.
Qed.

Lemma buffer_eqb_eq a b : buffer_eqb a b = true <-> a = b.
Proof.
  unfold buffer_eqb. destruct a as [i c], b as [j d]. simpl.
  rewrite andb_true_iff, Nat.eqb_eq, Z.eqb_eq. split.
  - intros [-> ->]. reflexivity.
  - intros E. inversion E. auto.
Qed.

Lemma GetBuf_capacity pick n : capacity (snd (GetBuf pick n)) = capacity n.
Proof.
  unfold GetBuf, New. destruct pick as [i |]; [| reflexivity].
  destruct (pooled n !! i); reflexivity.
Qed.

Lemma PutBuf_capacity b n : capacity (PutBuf b n) = capacity n.
Proof. unfold PutBuf. destruct (negb (buf_cap b =? capacity n)); reflexivity. Qed.

(** A buffer taken from a well-formed pool has the pool's capacity. *)
Lemma GetBuf_cap pick n : wf n -> buf_cap (fst (GetBuf pick n)) = capacity n.
Proof.
  intros Hwf. unfold GetBuf, New. destruct pick as [i |]; [| reflexivity].
  destruct (pooled n !! i) as [b |] eqn:E; [| reflexivity].
  simpl. unfold wf in Hwf. rewrite List.Forall_forall in Hwf.
  apply Hwf. apply list_elem_of_In. eapply list_elem_of_lookup_2. exact E.
Qed.

Lemma GetBuf_wf pick n : wf n -> wf (snd (GetBuf pick n)).
Proof.
  intros Hwf. unfold GetBuf, New. destruct pick as [i |]; [| exact Hwf].
  destruct (pooled n !! i) as [b |] eqn:E; [| exact Hwf].
  unfold wf in *. simpl.
  rewrite List.Forall_forall in *. intros x Hx. apply Hwf.
  apply list_elem_of_In. apply list_elem_of_In in Hx.
  eapply list_elem_of_delete_inv. exact Hx.
Qed.

Lemma PutBuf_wf b n : wf n -> wf (PutBuf b n).
Proof.
  intros Hwf. unfold PutBuf.
  destruct (Z.eqb_spec (buf_cap b) (capacity n)) as [E | _]; [| exact Hwf].
  unfold wf in *. simpl. constructor; assumption.
Qed.

(** [PutBuf] stores exactly the buffers whose capacity is the pool's. *)
Lemma PutBuf_in_pool b n :
  buf_cap b = capacity n -> in_pool b (PutBuf b n) = true.
Proof.
  intros E. unfold PutBuf, in_pool. rewrite E, Z.eqb_refl. simpl.
  rewrite buffer_eqb_refl. reflexivity.
Qed.

Lemma PutBuf_discards b n : buf_cap b <> capacity n -> PutBuf b n = n.
Proof.
  intros E. unfold PutBuf. destruct (Z.eqb_spec (buf_cap b) (capacity n)); [contradiction | reflexivity].
Qed.

(** C10: [NewNetBuffer] panics for every capacity [<= 0]; for every capacity
    [> 0] it returns a pool of that capacity from which every [GetBuf] yields
    a buffer of that capacity that [PutBuf] takes back; and [MaintainTunnel]
    with an MTU [<= 0] panics with that message, whatever the strategy and
    the environment, having made no connection attempt (no state and no trace
    is produced). *)
Theorem NewNetBuffer_capacity_check :
  (forall c, c <= 0 -> NewNetBuffer c = Panic "capacity must be greater than 0")
  /\ (forall c, 0 < c ->
        exists p, NewNetBuffer c = Done p /\ capacity p = c /\ wf p
                  /\ forall pick,
                       buf_cap (fst (GetBuf pick p)) = c
                       /\ in_pool (fst (GetBuf pick p))
                            (PutBuf (fst (GetBuf pick p)) (snd (GetBuf pick p)))
                          = true)
  /\ (forall (B R : Type) (S : BackoffStrategy B R)
             (config : ConnectionConfig B) (script : list (iter_env R)),
        MTU config <= 0 ->
        MaintainTunnel config script = Panic "capacity must be greater than 0").
Proof.
  split; [| split].
  - intros c Hc. unfold NewNetBuffer.
    destruct (Z.leb_spec c 0); [reflexivity | lia].
  - intros c Hc. unfold NewNetBuffer.
    destruct (Z.leb_spec c 0); [lia |].
    eexists. split; [reflexivity |]. split; [reflexivity |].
    split; [constructor |].
    intros pick. split.
    + rewrite GetBuf_cap; [reflexivity | constructor].
    + apply PutBuf_in_pool. rewrite GetBuf_capacity.
      apply GetBuf_cap. constructor.
  - intros B R S config script Hc. unfold MaintainTunnel, NewNetBuffer.
    destruct (Z.leb_spec (MTU config) 0); [reflexivity | lia].
Qed.

Lemma NewNetBuffer_capacity_check_witness :
  NewNetBuffer 0 = Panic "capacity must be greater than 0"
  /\ (exists p, NewNetBuffer 1280 = Done p /\ capacity p = 1280)
  /\ MaintainTunnel (ScenarioBackoff.config (-1))
       [ScenarioBackoff.iteration Scenario.dial_fails ScenarioBackoff.half]
     = Panic "capacity must be greater than 0".
Proof.
  destruct NewNetBuffer_capacity_check as (H1 & H2 & H3).
  split; [apply H1; lia |]. split.
  - destruct (H2 1280 ltac:(lia)) as (p & Hp & Hc & _). exists p. auto.
  - apply H3. simpl. lia.
Defined.
End PoolProperties.

(** ** The resolver cache *)

Section ResolverProperties.
Import Resolver.

(** C7: if the cache holds an entry for [name] and the current time is
    strictly before its [ExpiresAt], [Resolve] returns the entry's address
    with a nil error, issues no lookup and leaves the resolver, cache
    included, as it was. *)
Theorem Resolve_cache_hit (r : CachingDNSResolver) (name : string)
    (e : resolve_env) (entry : DNSCacheEntry) :
  cache r !! name = Some entry ->
  now e < ExpiresAt entry ->
  Resolve r name e = ((entry_IP entry, None), r, []).
Proof.
  intros Hc Ht. unfold Resolve, cache_lookup. rewrite Hc.
  destruct (Z.ltb_spec (now e) (ExpiresAt entry)); [reflexivity | lia].
Qed.
End ResolverProperties.

Lemma Resolve_cache_hit_witness :
  Resolver.cache ScenarioResolver.warm !! "example.com"%string
  = Some {| Resolver.entry_IP := ScenarioResolver.example_ip;
            Resolver.ExpiresAt := 600 |}
  /\ Resolver.now (ScenarioResolver.at_time 599) < 600
  /\ Resolver.Resolve ScenarioResolver.warm "example.com"
       (ScenarioResolver.at_time 599)
     = ((ScenarioResolver.example_ip, None), ScenarioResolver.warm, []).
Proof.
  split; [reflexivity |]. split; [reflexivity |].
  apply (Resolve_cache_hit ScenarioResolver.warm "example.com"
           (ScenarioResolver.at_time 599)
           {| Resolver.entry_IP := ScenarioResolver.example_ip;
              Resolver.ExpiresAt := 600 |});
    reflexivity.
Defined.

(** ** TimeoutConn *)

Section TimeoutConnProperties.
Import TimeoutConn.
Context {C : Type} `{NetConn C}.

(** C8: with an idle timeout [T > 0], [Read] first sets the read deadline
    of the embedded connection to [now + T] and [Write] the write deadline to
    [now + T].  If that call fails, its error is returned with 0 bytes and it
    is the only call made on the embedded connection; otherwise the embedded
    [Read] (resp. [Write]) is called next, on the same bytes, and its result
    is returned. *)
Theorem TimeoutConn_sets_deadline (c : TimeoutConn C) (now : Z)
    (b : list Byte.byte) :
  0 < IdleTimeout c ->
  let t := now + IdleTimeout c in
  match conn_SetReadDeadline (Conn c) t with
  | (conn, Some err) =>
      Read c now b = (with_conn c conn, (0, Some err), [SetReadDeadline t])
  | (conn, None) =>
      Read c now b = (with_conn c (fst (conn_Read conn b)),
                      snd (conn_Read conn b),
                      [SetReadDeadline t; ConnRead b])
  end
  /\
  match conn_SetWriteDeadline (Conn c) t with
  | (conn, Some err) =>
      Write c now b = (with_conn c conn, (0, Some err), [SetWriteDeadline t])
  | (conn, None) =>
      Write c now b = (with_conn c (fst (conn_Write conn b)),
                       snd (conn_Write conn b),
                       [SetWriteDeadline t; ConnWrite b])
  end.
Proof.
  intros HT t. unfold Read, Write.
  destruct (Z.gtb_spec (IdleTimeout c) 0) as [_ | Hle]; [| lia].
  fold t. split.
  - destruct (conn_SetReadDeadline (Conn c) t) as [conn [err |]]; [reflexivity |].
    destruct (conn_Read conn b) as [conn' res]. reflexivity.
  - destruct (conn_SetWriteDeadline (Conn c) t) as [conn [err |]]; [reflexivity |].
    destruct (conn_Write conn b) as [conn' res]. reflexivity.
Qed.
End TimeoutConnProperties.

Lemma TimeoutConn_sets_deadline_witness :
  let ok := {| TimeoutConn.Conn := ScenarioConn.healthy;
               TimeoutConn.IdleTimeout := 300000000000 |} in
  let bad := {| TimeoutConn.Conn := ScenarioConn.closed;
                TimeoutConn.IdleTimeout := 300000000000 |} in
  0 < 300000000000
  /\ snd (TimeoutConn.Read ok 1000 ScenarioConn.payload)
     = [TimeoutConn.SetReadDeadline 300000001000;
        TimeoutConn.ConnRead ScenarioConn.payload]
  /\ snd (TimeoutConn.Write bad 1000 ScenarioConn.payload)
     = [TimeoutConn.SetWriteDeadline 300000001000]
  /\ snd (fst (TimeoutConn.Write bad 1000 ScenarioConn.payload))
     = (0, Some "use of closed network connection"%string).
Proof.
  intros ok bad.
  pose proof (TimeoutConn_sets_deadline ok 1000 ScenarioConn.payload
                ltac:(simpl; lia)) as [Hr _].
  pose proof (TimeoutConn_sets_deadline bad 1000 ScenarioConn.payload
                ltac:(simpl; lia)) as [_ Hw].
  simpl in Hr, Hw.
  split; [lia |]. split; [rewrite Hr; reflexivity |].
  split; rewrite Hw; reflexivity.
Defined.

(** ** The copy loops *)

Section ForwardingProperties.
Import Stats Pool Forwarding ScenarioForwarding.

Lemma exactly_once_app t1 t2 held :
  exactly_once held t1 = true ->
  exactly_once held (t1 ++ t2) = exactly_once None t2.
Proof.
  revert held. induction t1 as [| ev t1 IH]; intros held Ht.
  - destruct held; [discriminate | reflexivity].
  - destruct ev; simpl in *; try (apply IH; exact Ht).
    + destruct held; [discriminate | apply IH; exact Ht].
    + destruct held as [h |]; [| discriminate].
      apply andb_true_iff in Ht as [Hb Ht]. rewrite Hb. simpl.
      apply IH. exact Ht.
Qed.

Lemma get_buf_spec pick w :
  let '(b, w') := get_buf pick w in
  b = fst (GetBuf pick (pool w))
  /\ pool w' = snd (GetBuf pick (pool w))
  /\ stats w' = stats w
  /\ trace w' = trace w ++ [PoolGet b].
Proof.
  unfold get_buf. destruct (GetBuf pick (pool w)) as [b p]. simpl. auto.
Qed.

(** Closes a path of a loop iteration: the events appended to the trace
    contain one [PoolGet] followed by one [PoolPut] of the same buffer. *)
Ltac close_path Ht Hwf1 Hc1 :=
  eexists; simpl; rewrite Ht; rewrite <- !List.app_assoc; simpl;
  split; [reflexivity |]; simpl; rewrite buffer_eqb_refl; simpl;
  split; [reflexivity |]; split; [apply PutBuf_wf; exact Hwf1 |];
  split; [rewrite PutBuf_capacity; exact Hc1 | discriminate].

(** One iteration of the device-to-MASQUE loop on a pool whose buffers are
    smaller than [2 * packetBuffCap]: the buffer taken is released exactly
    once, on every path. *)
Lemma egress_step_exactly_once e w :
  wf (pool w) ->
  capacity (pool w) < 2 * packetBuffCap ->
  egress_fits (capacity (pool w)) e ->
  exists evs,
    trace (snd (egress_step e w)) = trace w ++ evs
    /\ exactly_once None evs = true
    /\ wf (pool (snd (egress_step e w)))
    /\ capacity (pool (snd (egress_step e w))) = capacity (pool w)
    /\ forall msg, fst (egress_step e w) <> Crash msg.
Proof.
  intros Hwf Hcap Hfit. unfold egress_step.
  destruct (eg_done e).
  { exists []. simpl. rewrite List.app_nil_r. repeat split; auto; discriminate. }
  pose proof (get_buf_spec (eg_pick e) w) as Hg.
  destruct (get_buf (eg_pick e) w) as [buf w1].
  destruct Hg as (Hb & Hp & Hs & Ht).
  assert (Hbc : buf_cap buf = capacity (pool w)).
  { rewrite Hb. apply GetBuf_cap. exact Hwf. }
  assert (Hwf1 : wf (pool w1)) by (rewrite Hp; apply GetBuf_wf; exact Hwf).
  assert (Hc1 : capacity (pool w1) = capacity (pool w))
    by (rewrite Hp; apply GetBuf_capacity).
  unfold egress_fits in Hfit.
  destruct (eg_read e) as [n [err |]]; simpl in Hfit.
  - close_path Ht Hwf1 Hc1.
  - specialize (Hfit eq_refl).
    unfold slice_ok. rewrite Hbc.
    destruct (Z.leb_spec 0 n); [| lia].
    destruct (Z.leb_spec n (capacity (pool w))); [| lia].
    simpl negb. cbv iota.
    destruct (Z.ltb_spec (capacity (pool w)) (2 * packetBuffCap)); [| lia].
    destruct (eg_write e) as [icmp [err |]]; [close_path Ht Hwf1 Hc1 |].
    destruct (0 <? Z.of_nat (length icmp)); [| close_path Ht Hwf1 Hc1].
    destruct (eg_icmp e) as [err |]; close_path Ht Hwf1 Hc1.
Qed.

(** The same for one iteration of the MASQUE-to-device loop. *)
Lemma ingress_step_exactly_once e w :
  wf (pool w) ->
  capacity (pool w) < 2 * packetBuffCap ->
  ingress_fits (capacity (pool w)) e ->
  exists evs,
    trace (snd (ingress_step e w)) = trace w ++ evs
    /\ exactly_once None evs = true
    /\ wf (pool (snd (ingress_step e w)))
    /\ capacity (pool (snd (ingress_step e w))) = capacity (pool w)
    /\ forall msg, fst (ingress_step e w) <> Crash msg.
Proof.
  intros Hwf Hcap Hfit. unfold ingress_step.
  destruct (in_done e).
  { exists []. simpl. rewrite List.app_nil_r. repeat split; auto; discriminate. }
  pose proof (get_buf_spec (in_pick e) w) as Hg.
  destruct (get_buf (in_pick e) w) as [buf w1].
  destruct Hg as (Hb & Hp & Hs & Ht).
  assert (Hbc : buf_cap buf = capacity (pool w)).
  { rewrite Hb. apply GetBuf_cap. exact Hwf. }
  assert (Hwf1 : wf (pool w1)) by (rewrite Hp; apply GetBuf_wf; exact Hwf).
  assert (Hc1 : capacity (pool w1) = capacity (pool w))
    by (rewrite Hp; apply GetBuf_capacity).
  unfold ingress_fits in Hfit.
  destruct (in_read e) as [n [err |]]; simpl in Hfit.
  - close_path Ht Hwf1 Hc1.
  - specialize (Hfit eq_refl).
    unfold slice_ok. rewrite Hbc.
    destruct (Z.leb_spec 0 n); [| lia].
    destruct (Z.leb_spec n (capacity (pool w))); [| lia].
    simpl negb. cbv iota.
    destruct (Z.ltb_spec (capacity (pool w)) (2 * packetBuffCap)); [| lia].
    destruct (in_write e) as [err |]; close_path Ht Hwf1 Hc1.
Qed.

(** From one iteration to the whole loop. *)
Lemma run_exactly_once {E : Type} (step : E -> world -> step_result * world)
    (fits : Z -> E -> Prop) :
  (forall e w,
      wf (pool w) -> capacity (pool w) < 2 * packetBuffCap ->
      fits (capacity (pool w)) e ->
      exists evs,
        trace (snd (step e w)) = trace w ++ evs
        /\ exactly_once None evs = true
        /\ wf (pool (snd (step e w)))
        /\ capacity (pool (snd (step e w))) = capacity (pool w)
        /\ forall msg, fst (step e w) <> Crash msg) ->
  forall script w,
    wf (pool w) -> capacity (pool w) < 2 * packetBuffCap ->
    Forall (fits (capacity (pool w))) script ->
    exists evs,
      trace (snd (run step script w)) = trace w ++ evs
      /\ exactly_once None evs = true
      /\ forall msg, fst (run step script w) <> Crashed msg.
Proof.
  intros Hstep script. induction script as [| e rest IH]; intros w Hwf Hcap Hfits.
  - exists []. simpl. rewrite List.app_nil_r. repeat split; auto; discriminate.
  - inversion Hfits as [| ? ? He Hrest]; subst.
    destruct (Hstep e w Hwf Hcap He) as (evs & Ht & Hx & Hwf' & Hc' & Hnc).
    simpl. destruct (step e w) as [[| | msg] w'] eqn:Es; simpl in *.
    + destruct (IH w' Hwf' ltac:(lia) ltac:(rewrite Hc'; exact Hrest))
        as (evs' & Ht' & Hx' & Hnc').
      exists (evs ++ evs'). rewrite Ht', Ht, List.app_assoc.
      split; [reflexivity |]. split; [| exact Hnc'].
      rewrite (exactly_once_app _ _ _ Hx). exact Hx'.
    + exists evs. repeat split; auto; discriminate.
    + exfalso. apply (Hnc msg). reflexivity.
Qed.

(** X10: With an MTU below [2 * packetBuffCap = 4096], both copy loops release
    every buffer they take exactly once, whatever the collaborators answer
    (within the contract of [ReadPacket]), and neither loop panics. *)
Lemma forwarding_releases_exactly_once mtu :
  0 < mtu < 2 * packetBuffCap ->
  (forall script,
      Forall (egress_fits mtu) script ->
      exactly_once None (trace (snd (egress_loop script (start mtu)))) = true
      /\ forall msg, fst (egress_loop script (start mtu)) <> Crashed msg)
  /\ (forall script,
      Forall (ingress_fits mtu) script ->
      exactly_once None (trace (snd (ingress_loop script (start mtu)))) = true
      /\ forall msg, fst (ingress_loop script (start mtu)) <> Crashed msg).
Proof.
  intros Hm. split; intros script Hfits.
  - destruct (run_exactly_once egress_step egress_fits egress_step_exactly_once
                script (start mtu)) as (evs & Ht & Hx & Hnc);
      [constructor | simpl; lia | exact Hfits |].
    unfold egress_loop. rewrite Ht. simpl. auto.
  - destruct (run_exactly_once ingress_step ingress_fits ingress_step_exactly_once
                script (start mtu)) as (evs & Ht & Hx & Hnc);
      [constructor | simpl; lia | exact Hfits |].
    unfold ingress_loop. rewrite Ht. simpl. auto.
Qed.

(** C3 at an MTU of 9000: on the path where the read and the submission both
    succeed, neither loop ever hands the buffer it took to [PutBuf]; the
    error path of the same loop does. *)
Theorem forwarding_release_skipped_for_jumbo_mtu :
  let b := first_buffer 9000 in
  egress_loop [egress_ok] (start 9000)
  = (Running,
     {| pool := {| capacity := 9000; pooled := []; next_id := 1 |};
        stats := RecordPacketOut 60 Stats.zero;
        trace := [PoolGet b; DeviceRead b; IPWrite b 60] |})
  /\ releases b (trace (snd (egress_loop [egress_ok] (start 9000)))) = 0%nat
  /\ exactly_once None (trace (snd (egress_loop [egress_ok] (start 9000)))) = false
  /\ ingress_loop [ingress_ok] (start 9000)
     = (Running,
        {| pool := {| capacity := 9000; pooled := []; next_id := 1 |};
           stats := RecordPacketIn 60 Stats.zero;
           trace := [PoolGet b; IPRead b; DeviceWrite 60] |})
  /\ releases b (trace (snd (ingress_loop [ingress_ok] (start 9000)))) = 0%nat
  /\ releases b (trace (snd (egress_loop [egress_read_fails] (start 9000)))) = 1%nat.
Proof. repeat split. Qed.

(** [PutBuf] never stores a buffer whose capacity is not the pool's, so no
    buffer of twice the capacity or more ever enters the pool. *)
Lemma oversized_buffer_never_pooled b n :
  0 < capacity n -> 2 * capacity n <= buf_cap b -> PutBuf b n = n.
Proof. intros Hc Hb. apply PutBuf_discards. lia. Qed.

(** C4 at an MTU of 9000: the MTU-sized buffer taken for a packet is not in
    the pool after the packet has been submitted, in either loop, while at
    the default MTU of 1280 it is. *)
Theorem forwarding_buffer_not_returned_for_jumbo_mtu :
  buf_cap (first_buffer 9000) = capacity (fresh_pool 9000)
  /\ in_pool (first_buffer 9000)
       (pool (snd (egress_loop [egress_ok] (start 9000)))) = false
  /\ in_pool (first_buffer 9000)
       (pool (snd (ingress_loop [ingress_ok] (start 9000)))) = false
  /\ in_pool (first_buffer 1280)
       (pool (snd (egress_loop [egress_ok] (start 1280)))) = true
  /\ in_pool (first_buffer 1280)
       (pool (snd (ingress_loop [ingress_ok] (start 1280)))) = true.
Proof. repeat split. Qed.
End ForwardingProperties.

(** ** ExponentialBackoff *)

Section BackoffGeneric.
Import Backoff.
Context (A : FloatArith).

(** An attempt of zero or less stands for the internal attempt plus one. *)
Lemma effective_attempt_idem (b : ExponentialBackoff A) k :
  k <= 0 ->
  effective_attempt A b (effective_attempt A b k) = effective_attempt A b k.
Proof.
  intros Hk. unfold effective_attempt.
  destruct (Z.leb_spec k 0); [| lia].
  destruct (Z.leb_spec (wrap64 (attempt A b + 1)) 0); reflexivity.
Qed.

Lemma NextDelay_nonpositive (b : ExponentialBackoff A) k r :
  k <= 0 ->
  NextDelay A b k r = NextDelay A b (wrap64 (attempt A b + 1)) r.
Proof.
  intros Hk. unfold NextDelay.
  assert (E : effective_attempt A b (wrap64 (attempt A b + 1))
              = effective_attempt A b k).
  { unfold effective_attempt.
    destruct (Z.leb_spec k 0); [| lia].
    destruct (Z.leb_spec (wrap64 (attempt A b + 1)) 0); reflexivity. }
  rewrite E. reflexivity.
Qed.

Lemma NextDelay_attempt (b : ExponentialBackoff A) k r :
  attempt A (snd (NextDelay A b k r)) = effective_attempt A b k.
Proof. reflexivity. Qed.

Lemma NextDelay_fields (b : ExponentialBackoff A) k r :
  InitialDelay A (snd (NextDelay A b k r)) = InitialDelay A b
  /\ MaxDelay A (snd (NextDelay A b k r)) = MaxDelay A b
  /\ Factor A (snd (NextDelay A b k r)) = Factor A b.
Proof. repeat split. Qed.
End BackoffGeneric.

(** Exposes the operations of exact arithmetic. *)
Ltac exact_ops :=
  cbn [F of_int to_int fmul fdiv flt tenth Exact.arith] in *.

Section ExactArithmetic.

Lemma Exact_trunc_floor q : (0 <= q)%Q -> Exact.trunc q = Qfloor q.
Proof.
  destruct q as [n d]. unfold Qle. simpl. intros Hq.
  unfold Exact.trunc. simpl. apply Z.quot_div_nonneg; lia.
Qed.

Lemma Exact_to_int64_floor q :
  (0 <= q)%Q -> (q <= inject_Z max_int64)%Q -> Exact.to_int64 q = Qfloor q.
Proof.
  intros H0 Hmax. unfold Exact.to_int64. rewrite (Exact_trunc_floor q H0).
  pose proof (Qfloor_resp_le _ _ H0) as Hlo. change (Qfloor 0) with 0 in Hlo.
  pose proof (Qfloor_resp_le _ _ Hmax) as Hhi. rewrite Qfloor_Z in Hhi.
  destruct (Z.leb_spec min_int64 (Qfloor q)); [| unfold min_int64 in *; lia].
  destruct (Z.leb_spec (Qfloor q) max_int64); [reflexivity | lia].
Qed.
End ExactArithmetic.

Section BackoffWindow.
Import Backoff BackoffClaim.

(** C2 as the claim words it fails on the strategy that [StartTunnel]
    builds (initial delay 1 s, factor 2.0, maximum 5 min), on binary64:
    attempt 0 is answered as attempt 1 (2 s, outside [0.9 s, 1.1 s]);
    attempt 9 stops at 256 s, outside [270 s, 330 s]; and with a maximum of
    1 s the delay of attempt 1 is 1.05 s, above the maximum. *)
Lemma NextDelay_window_counterexample :
  let b := ScenarioBackoff.start_strategy 1000000000 in
  fst (NextDelay Binary64.arith b 0 ScenarioBackoff.half) = 2000000000
  /\ ~ claimed_window 1000000000 2 300000000000 0 2000000000
  /\ fst (NextDelay Binary64.arith b 9 ScenarioBackoff.half) = 256000000000
  /\ ~ claimed_window 1000000000 2 300000000000 9 256000000000
  /\ fst (NextDelay Binary64.arith (flat_strategy 1000000000) 1
            ScenarioBackoff.three_quarters) = 1050000000
  /\ ~ claimed_window 1000000000 2 1000000000 1 1050000000.
Proof.
  cbv zeta. split; [vm_compute; reflexivity |].
  split; [intros (_ & _ & H); vm_compute in H; apply H; reflexivity |].
  split; [vm_compute; reflexivity |].
  split; [intros (_ & H & _); vm_compute in H; apply H; reflexivity |].
  split; [vm_compute; reflexivity |].
  intros (H & _). vm_compute in H. apply H. reflexivity.
Qed.
End BackoffWindow.

(** ** The attempt counter and the maintenance loop *)

Section AttemptCounter.
Import Stats Lifecycle LifecycleTrace.

Lemma next_delay_calls_app t1 t2 :
  next_delay_calls (t1 ++ t2) = next_delay_calls t1 ++ next_delay_calls t2.
Proof.
  induction t1 as [| ev t1 IH]; [reflexivity |].
  destruct ev; simpl; rewrite ?IH; reflexivity.
Qed.

Lemma handle_connection_calls_app t1 t2 :
  handle_connection_calls (t1 ++ t2)
  = handle_connection_calls t1 ++ handle_connection_calls t2.
Proof.
  induction t1 as [| ev t1 IH]; [reflexivity |].
  destruct ev; simpl; rewrite ?IH; reflexivity.
Qed.

Lemma resets_app t1 t2 : resets (t1 ++ t2) = (resets t1 + resets t2)%nat.
Proof.
  induction t1 as [| ev t1 IH]; [reflexivity |].
  destruct ev; simpl; rewrite ?IH; reflexivity.
Qed.

(** [handleConnection] itself calls neither the strategy nor itself. *)
Lemma handleConnection_quiet e stats a :
  next_delay_calls (snd (handleConnection e stats a)) = []
  /\ handle_connection_calls (snd (handleConnection e stats a)) = []
  /\ resets (snd (handleConnection e stats a)) = O.
Proof.
  unfold handleConnection, teardown.
  destruct (dial_err (dial e)); [repeat split |].
  destruct (negb (StatusCode (rsp (dial e)) =? 200)).
  - destruct (ipConn (dial e)), (udpConn (dial e)), (tr (dial e)); repeat split.
  - destruct (fwd_err e), (ipConn (dial e)), (udpConn (dial e)), (tr (dial e));
      repeat split.
Qed.

Lemma delays_from_ext (A : FloatArith) (b b' : Backoff.ExponentialBackoff A) a rs :
  Backoff.InitialDelay A b' = Backoff.InitialDelay A b ->
  Backoff.MaxDelay A b' = Backoff.MaxDelay A b ->
  Backoff.Factor A b' = Backoff.Factor A b ->
  delays_from A b' a rs = delays_from A b a rs.
Proof.
  intros H1 H2 H3. revert a. induction rs as [| r rs IH]; intros a; [reflexivity |].
  simpl. rewrite IH. unfold Backoff.base_delay. rewrite H1, H2, H3. reflexivity.
Qed.

(** Consecutive failed sessions: each one makes the loop call
    [NextDelay(0)], which the strategy answers from its own attempt plus one;
    [Reset] is not called. *)
Lemma loop_failed_sessions (A : FloatArith)
    (script : list (iter_env (F A))) :
  Forall failed_session script ->
  forall (a : Z) (w : world (Backoff.ExponentialBackoff A)),
    0 <= Backoff.attempt A (strategy w) ->
    Backoff.attempt A (strategy w) + Z.of_nat (length script) <= max_int64 ->
    let r := loop script a w in
    fst r = Running
    /\ next_delay_calls (trace (snd r))
       = next_delay_calls (trace w)
         ++ List.map (fun d => (0, d))
              (delays_from A (strategy w) (Backoff.attempt A (strategy w))
                 (List.map rand script))
    /\ Backoff.attempt A (strategy (snd r))
       = Backoff.attempt A (strategy w) + Z.of_nat (length script)
    /\ resets (trace (snd r)) = resets (trace w).
Proof.
  induction 1 as [| it script Hit Hrest IH]; intros a w Ha Hmax r.
  - unfold r. simpl. rewrite List.app_nil_r. repeat split. lia.
  - destruct Hit as (Hdone & Hdial & Hcode & Hfwd & Hctx & Htimer).
    unfold r. simpl loop. rewrite Hdone.
    pose proof (handleConnection_forwarded (conn it) (stats w) a Hdial Hcode) as Hret.
    pose proof (handleConnection_quiet (conn it) (stats w) a) as (Hq1 & Hq2 & Hq3).
    destruct (handleConnection (conn it) (stats w) a) as [[[a' err] s] t].
    simpl in Hret, Hq1, Hq3. inversion Hret; subst a' err.
    rewrite Hctx. destruct (fwd_err (conn it)) as [e |] eqn:Ee; [| contradiction].
    simpl strategy. simpl stats. simpl trace.
    cbn [NextDelay ExponentialBackoff_strategy].
    unfold Backoff.NextDelay.
    assert (Heff : Backoff.effective_attempt A (strategy w) 0
                   = Backoff.attempt A (strategy w) + 1).
    { unfold Backoff.effective_attempt. simpl. apply wrap64_id.
      unfold in_int64, min_int64. simpl length in Hmax. lia. }
    rewrite Heff. rewrite Htimer.
    simpl length in Hmax.
    match goal with
    | |- context [loop script a ?w1] =>
        specialize (IH a w1); simpl in IH;
        specialize (IH ltac:(lia) ltac:(lia));
        destruct IH as (I1 & I2 & I3 & I4)
    end.
    split; [exact I1 |]. split; [| split].
    + rewrite I2, !next_delay_calls_app. cbn [next_delay_calls].
      rewrite Hq1. cbn [List.map delays_from].
      rewrite <- !List.app_assoc. cbn [List.app]. do 3 f_equal.
      apply delays_from_ext; reflexivity.
    + rewrite I3. simpl length. lia.
    + rewrite I4, !resets_app. cbn [resets]. rewrite Hq3. simpl. lia.
Qed.
Import LifecycleClaim.

(** The error that [handleConnection] returns is nil exactly when a
    forwarding session ran and returned no error. *)
Lemma handleConnection_error e stats a :
  snd (fst (fst (handleConnection e stats a))) = None
  <-> session_ended_normally e = true.
Proof.
  unfold handleConnection, session_ended_normally.
  destruct (dial_err (dial e)); [simpl; split; discriminate |].
  destruct (Z.eqb_spec (StatusCode (rsp (dial e))) 200) as [E | E]; simpl.
  - destruct (fwd_err e); simpl; split; congruence.
  - destruct (fwd_err e); simpl; split; discriminate.
Qed.

(** What [handleConnection] returns when no forwarding session starts. *)
Lemma handleConnection_before_forwarding e stats a :
  dial_err (dial e) <> None \/ StatusCode (rsp (dial e)) <> 200 ->
  fst (fst (fst (handleConnection e stats a))) = wrap64 (a + 1).
Proof.
  intros Hfail. unfold handleConnection.
  destruct (dial_err (dial e)); [reflexivity |].
  destruct (Z.eqb_spec (StatusCode (rsp (dial e))) 200) as [E | E]; simpl.
  - destruct Hfail; contradiction.
  - reflexivity.
Qed.

(** One iteration of the loop calls [Reset] exactly when the context is live
    and the attempt ended a forwarding session without error. *)
Lemma loop_reset_iff {B R : Type} `{BackoffStrategy B R}
    (it : iter_env R) (a : Z) (w : world B) :
  resets (trace (snd (loop [it] a w)))
  = (resets (trace w)
     + if negb (ctx_done it) && negb (ctx_err it)
          && session_ended_normally (conn it)
       then 1 else 0)%nat.
Proof.
  simpl loop. destruct (ctx_done it); [simpl; lia |].
  pose proof (handleConnection_error (conn it) (stats w) a) as Herr.
  pose proof (handleConnection_quiet (conn it) (stats w) a) as (_ & _ & Hq).
  destruct (handleConnection (conn it) (stats w) a) as [[[a' err] s] t].
  simpl in Herr, Hq.
  destruct (ctx_err it).
  { simpl. rewrite resets_app. cbn [resets]. rewrite Hq. lia. }
  destruct err as [e |].
  - destruct (session_ended_normally (conn it)).
    + destruct Herr as [_ Hn]. discriminate (Hn eq_refl).
    + destruct (NextDelay (strategy w) a' (rand it)) as [delay b].
      destruct (timer_first it); simpl;
        rewrite !resets_app; cbn [resets]; rewrite Hq; simpl; lia.
  - destruct Herr as [Hn _]. rewrite (Hn eq_refl).
    simpl. rewrite !resets_app. cbn [resets]. rewrite Hq. simpl. lia.
Qed.

Lemma loop_reset_strategy {B R : Type} `{BackoffStrategy B R}
    (it : iter_env R) (a : Z) (w : world B) :
  ctx_done it = false -> ctx_err it = false ->
  session_ended_normally (conn it) = true ->
  strategy (snd (loop [it] a w)) = Reset (strategy w).
Proof.
  intros Hd Hc Hn. simpl loop. rewrite Hd.
  pose proof (handleConnection_error (conn it) (stats w) a) as Herr.
  destruct (handleConnection (conn it) (stats w) a) as [[[a' err] s] t].
  simpl in Herr. rewrite Hc.
  destruct Herr as [_ He]. rewrite (He Hn). reflexivity.
Qed.
End AttemptCounter.

Section AttemptCounterScenarios.
Import Stats Lifecycle LifecycleTrace LifecycleClaim.
Import ScenarioBackoff ScenarioLifecycle.

Lemma failing_sessions_failed n : Forall failed_session (failing_sessions n).
Proof.
  unfold failing_sessions. induction n as [| n IH]; simpl; constructor; [| exact IH].
  unfold failed_session. simpl. repeat split; discriminate.
Qed.

(** The loop never assigns the variable it passes to [handleConnection]:
    every call receives the value the variable had before the loop. *)
Lemma loop_passes_outer_attempt {B R : Type} `{BackoffStrategy B R}
    (script : list (iter_env R)) (a : Z) (w : world B) :
  exists n,
    handle_connection_calls (trace (snd (loop script a w)))
    = handle_connection_calls (trace w) ++ List.repeat a n.
Proof.
  revert w. induction script as [| it script IH]; intros w.
  - exists O. simpl. rewrite List.app_nil_r. reflexivity.
  - simpl loop. destruct (ctx_done it).
    { exists O. simpl. rewrite List.app_nil_r. reflexivity. }
    pose proof (handleConnection_quiet (conn it) (stats w) a) as (_ & Hq & _).
    destruct (handleConnection (conn it) (stats w) a) as [[[a' err] s] t].
    simpl in Hq.
    destruct (ctx_err it).
    { exists 1%nat. simpl. rewrite handle_connection_calls_app.
      cbn [handle_connection_calls]. rewrite Hq. reflexivity. }
    destruct err as [e |].
    + destruct (NextDelay (strategy w) a' (rand it)) as [delay b].
      destruct (timer_first it).
      * match goal with
        | |- context [loop script a ?w1] => destruct (IH w1) as [n Hn]
        end.
        exists (S n). rewrite Hn. simpl trace.
        rewrite !handle_connection_calls_app. cbn [handle_connection_calls].
        rewrite Hq. rewrite <- !List.app_assoc. cbn [List.app List.repeat].
        reflexivity.
      * exists 1%nat. simpl. rewrite !handle_connection_calls_app.
        cbn [handle_connection_calls]. rewrite Hq. simpl.
        rewrite List.app_nil_r. reflexivity.
    + match goal with
      | |- context [loop script a ?w1] => destruct (IH w1) as [n Hn]
      end.
      exists (S n). rewrite Hn. simpl trace.
      rewrite !handle_connection_calls_app. cbn [handle_connection_calls].
      rewrite Hq. rewrite <- !List.app_assoc. cbn [List.app List.repeat].
      reflexivity.
Qed.

(** Three dials that fail in a row, on the strategy of [StartTunnel]: each
    call of [handleConnection] receives 0 and hands back 1, and each delay is
    that of attempt 1. *)
Lemma failing_dials_example :
  match MaintainTunnel (config 1280) (failing_dials 3) with
  | Done (st, w) =>
      st = Running
      /\ handle_connection_calls (trace w) = [0; 0; 0]
      /\ next_delay_calls (trace w)
         = [(1, 2000000000); (1, 2000000000); (1, 2000000000)]
  | Panic _ => False
  end.
Proof. vm_compute. repeat split. Qed.
End AttemptCounterScenarios.

Section AttemptCounterLost.
Import Stats Lifecycle LifecycleTrace AttemptClaim.
Context (A : FloatArith).

Lemma base_delay_fields (b b' : Backoff.ExponentialBackoff A) a :
  Backoff.InitialDelay A b' = Backoff.InitialDelay A b ->
  Backoff.MaxDelay A b' = Backoff.MaxDelay A b ->
  Backoff.Factor A b' = Backoff.Factor A b ->
  Backoff.base_delay A b' a = Backoff.base_delay A b a.
Proof. intros H1 H2 H3. unfold Backoff.base_delay. rewrite H1, H2, H3. reflexivity. Qed.

(** Consecutive attempts that fail before forwarding: every call of
    [handleConnection] receives the value of the outer variable, every call
    of [NextDelay] receives that value plus one. *)
Lemma loop_failed_attempts (b : Backoff.ExponentialBackoff A)
    (script : list (iter_env (F A))) :
  Forall failed_attempt script ->
  forall w : world (Backoff.ExponentialBackoff A),
    Backoff.InitialDelay A (strategy w) = Backoff.InitialDelay A b ->
    Backoff.MaxDelay A (strategy w) = Backoff.MaxDelay A b ->
    Backoff.Factor A (strategy w) = Backoff.Factor A b ->
    let r := loop script 0 w in
    fst r = Running
    /\ handle_connection_calls (trace (snd r))
       = handle_connection_calls (trace w) ++ List.repeat 0 (length script)
    /\ next_delay_calls (trace (snd r))
       = next_delay_calls (trace w)
         ++ List.map (fun it => (1, Backoff.add_jitter A (Backoff.base_delay A b 1)
                                      (rand it))) script
    /\ resets (trace (snd r)) = resets (trace w).
Proof.
  induction 1 as [| it script Hit Hrest IH]; intros w H1 H2 H3 r.
  - unfold r. cbn. rewrite !List.app_nil_r. repeat split.
  - destruct Hit as (Hdone & Hfail & Hctx & Htimer).
    unfold r. cbn [loop]. rewrite Hdone.
    pose proof (handleConnection_before_forwarding (conn it) (stats w) 0 Hfail) as Hret.
    pose proof (handleConnection_quiet (conn it) (stats w) 0) as (Hq1 & Hq2 & Hq3).
    assert (Herr : snd (fst (fst (handleConnection (conn it) (stats w) 0))) <> None).
    { intros E. apply handleConnection_error in E.
      unfold LifecycleClaim.session_ended_normally in E.
      destruct (dial_err (dial (conn it))); [discriminate |].
      destruct (fwd_err (conn it)); [discriminate |].
      apply Z.eqb_eq in E. destruct Hfail as [Hf | Hf]; [apply Hf; reflexivity | contradiction]. }
    destruct (handleConnection (conn it) (stats w) 0) as [[[a' err] s] t].
    cbn [fst snd] in Hret, Hq1, Hq2, Hq3, Herr.
    change (wrap64 (0 + 1)) with 1 in Hret. subst a'.
    rewrite Hctx. destruct err as [e |]; [| contradiction].
    cbn [strategy stats trace].
    cbn [NextDelay ExponentialBackoff_strategy]. unfold Backoff.NextDelay.
    change (Backoff.effective_attempt A (strategy w) 1) with 1.
    rewrite Htimer.
    match goal with
    | |- context [loop script 0 ?w1] =>
        specialize (IH w1 H1 H2 H3); cbv zeta in IH;
        destruct IH as (I1 & I2 & I3 & I4)
    end.
    split; [exact I1 |]. split; [| split].
    + rewrite I2. cbn [trace]. rewrite !handle_connection_calls_app.
      cbn [handle_connection_calls]. rewrite Hq2.
      cbn [length List.repeat]. rewrite <- !List.app_assoc. reflexivity.
    + rewrite I3. cbn [trace]. rewrite !next_delay_calls_app.
      cbn [next_delay_calls]. rewrite Hq1. cbn [List.map].
      rewrite (base_delay_fields b (strategy w) 1 H1 H2 H3).
      rewrite <- !List.app_assoc. reflexivity.
    + rewrite I4. cbn [trace]. rewrite !resets_app. cbn [resets]. rewrite Hq3.
      cbn. lia.
Qed.

Lemma repeat_zero_not_claimed n :
  (2 <= n)%nat -> List.repeat 0 n <> claimed_attempts n.
Proof.
  intros Hn. destruct n as [| [| n]]; try lia.
  unfold claimed_attempts. cbn. discriminate.
Qed.

(** C1 against the code.  The claim has the attempt counter grow across
    consecutive failed attempts: 0, 1, ..., n-1.  In the loop of
    [MaintainTunnel] the statement
    [reconnectAttempt, err := handleConnection(..., reconnectAttempt)]
    declares a new variable, so the counter that [handleConnection] hands
    back is lost at the end of the iteration: over any [n] consecutive
    attempts that fail before forwarding (the dial fails or the status is
    not 200), with the context live and the timers firing, every call of
    [handleConnection] receives 0, every call of [NextDelay] receives 1, the
    delay before jitter is that of attempt 1 each time (on any arithmetic,
    binary64 included), and [Reset] is never called.  From the second
    attempt on this is not the sequence of the claim. *)
Theorem attempt_counter_lost_across_failed_attempts
    (config : ConnectionConfig (Backoff.ExponentialBackoff A))
    (script : list (iter_env (F A))) :
  0 < MTU config -> Forall failed_attempt script ->
  exists w,
    MaintainTunnel config script = Done (Running, w)
    /\ handle_connection_calls (trace w) = List.repeat 0 (length script)
    /\ next_delay_calls (trace w)
       = List.map (fun it =>
                     (1, Backoff.add_jitter A
                           (Backoff.base_delay A (ReconnectStrategy config) 1)
                           (rand it))) script
    /\ resets (trace w) = O
    /\ ((2 <= length script)%nat ->
        handle_connection_calls (trace w) <> claimed_attempts (length script)).
Proof.
  intros Hmtu Hs.
  unfold MaintainTunnel, Pool.NewNetBuffer.
  destruct (Z.leb_spec (MTU config) 0); [lia |].
  match goal with
  | |- context [loop script 0 ?w0] =>
      pose proof (loop_failed_attempts (ReconnectStrategy config) script Hs w0
                    eq_refl eq_refl eq_refl) as Hl;
      destruct (loop script 0 w0) as [st w]
  end.
  cbv zeta in Hl. cbn [fst snd trace] in Hl.
  destruct Hl as (E1 & E2 & E3 & E4). subst st.
  exists w. split; [reflexivity |].
  cbn [handle_connection_calls next_delay_calls resets List.app] in E2, E3, E4.
  split; [exact E2 |]. split; [exact E3 |]. split; [exact E4 |].
  intros Hn. rewrite E2. apply repeat_zero_not_claimed. exact Hn.
Qed.
End AttemptCounterLost.

Section AttemptCounterLostScenario.
Import Stats Lifecycle LifecycleTrace AttemptClaim.
Import ScenarioBackoff ScenarioLifecycle.

Lemma failing_dials_failed n : Forall failed_attempt (failing_dials n).
Proof.
  unfold failing_dials. induction n as [| n IH]; cbn; constructor; [| exact IH].
  unfold failed_attempt. cbn. repeat split; try reflexivity. left. discriminate.
Qed.

Lemma attempt_counter_lost_across_failed_attempts_witness :
  exists w,
    MaintainTunnel (config 1280) (failing_dials 3) = Done (Running, w)
    /\ handle_connection_calls (trace w) = [0; 0; 0]
    /\ claimed_attempts 3 = [0; 1; 2]
    /\ next_delay_calls (trace w)
       = [(1, 2000000000); (1, 2000000000); (1, 2000000000)].
Proof.
  destruct (attempt_counter_lost_across_failed_attempts Binary64.arith
              (config 1280) (failing_dials 3))
    as (w & Hw & Hc & Hd & _ & _).
  - reflexivity.
  - apply failing_dials_failed.
  - exists w. split; [exact Hw |]. split; [exact Hc |]. split; [reflexivity |].
    rewrite Hd. vm_compute. reflexivity.
Defined.
End AttemptCounterLostScenario.

(** ** Strings of digits *)

Section DigitStrings.
Import GoTime Digits.
Local Open Scope string_scope.
Local Open Scope Z_scope.

Lemma append_cons (c : ascii) (a b : string) :
  String c a ++ b = String c (a ++ b).
Proof. reflexivity. Qed.

Lemma append_nil_l (a : string) : "" ++ a = a.
Proof. reflexivity. Qed.

Lemma append_assoc (a b c : string) : (a ++ b) ++ c = a ++ (b ++ c).
Proof.
  induction a as [| x a IH]; [reflexivity |].
  rewrite !append_cons, IH. reflexivity.
Qed.

Lemma append_nil_r (a : string) : a ++ "" = a.
Proof.
  induction a as [| x a IH]; [reflexivity |].
  rewrite append_cons, IH. reflexivity.
Qed.

Lemma length_append (a b : string) :
  String.length (a ++ b) = (String.length a + String.length b)%nat.
Proof.
  induction a as [| x a IH]; [reflexivity |].
  rewrite append_cons. simpl. rewrite IH. reflexivity.
Qed.

Lemma digit_char_spec v :
  0 <= v < 10 ->
  is_digit (digit_char v) = true /\ digit_val (digit_char v) = v.
Proof.
  intros Hv.
  assert (E : v = 0 \/ v = 1 \/ v = 2 \/ v = 3 \/ v = 4 \/ v = 5 \/ v = 6
              \/ v = 7 \/ v = 8 \/ v = 9) by lia.
  repeat (destruct E as [-> | E]; [split; reflexivity |]).
  subst v. split; reflexivity.
Qed.

Lemma digit_val_range c : is_digit c = true -> 0 <= digit_val c <= 9.
Proof.
  unfold is_digit, digit_val. intros H.
  apply andb_true_iff in H as [H1 H2].
  apply Nat.leb_le in H1. apply Nat.leb_le in H2. lia.
Qed.

Lemma all_digits_app a b :
  all_digits (a ++ b) = all_digits a && all_digits b.
Proof.
  induction a as [| x a IH]; [reflexivity |].
  rewrite append_cons. simpl. rewrite IH, andb_assoc. reflexivity.
Qed.

Lemma val_acc_app a b x : val_acc (a ++ b) x = val_acc b (val_acc a x).
Proof.
  revert x. induction a as [| c a IH]; intros x; [reflexivity |].
  rewrite append_cons. simpl. apply IH.
Qed.

(** Reading digits never loses what was read before. *)
Lemma val_acc_ge s x : all_digits s = true -> 0 <= x -> x <= val_acc s x.
Proof.
  revert x. induction s as [| c s IH]; intros x Hs Hx; simpl; [lia |].
  simpl in Hs. apply andb_true_iff in Hs as [Hc Hs].
  pose proof (digit_val_range c Hc).
  specialize (IH (x * 10 + digit_val c) Hs ltac:(lia)). lia.
Qed.

(** The digits read so far weigh [10^length] in the result. *)
Lemma val_acc_shift s x :
  val_acc s x = x * 10 ^ Z.of_nat (String.length s) + val_acc s 0.
Proof.
  revert x. induction s as [| c s IH]; intros x.
  - simpl. lia.
  - cbn [val_acc String.length]. rewrite IH, (IH (0 * 10 + digit_val c)).
    rewrite Nat2Z.inj_succ, Z.pow_succ_r by lia. lia.
Qed.

Lemma val_acc_bound s :
  all_digits s = true -> 0 <= val_acc s 0 < 10 ^ Z.of_nat (String.length s).
Proof.
  induction s as [| c s IH]; intros Hs.
  - simpl. lia.
  - revert Hs. cbn [all_digits val_acc String.length]. intros Hs.
    apply andb_true_iff in Hs as [Hc Hs].
    pose proof (digit_val_range c Hc).
    rewrite val_acc_shift. specialize (IH Hs).
    rewrite Nat2Z.inj_succ, Z.pow_succ_r by lia.
    set (p := 10 ^ Z.of_nat (String.length s)) in *.
    assert (Hp : 0 < p) by (apply Z.pow_pos_nonneg; lia).
    nia.
Qed.
(** [fmtInt] writes the decimal digits of [v] in front of the buffer. *)
Lemma fmtInt_loop_spec fuel buf v :
  0 <= v < 10 ^ Z.of_nat fuel ->
  exists ds,
    fmtInt_loop fuel buf v = ds ++ buf
    /\ all_digits ds = true /\ val_acc ds 0 = v
    /\ (0 < v -> (0 < String.length ds)%nat).
Proof.
  revert buf v. induction fuel as [| fuel IH]; intros buf v Hv.
  - exists "". change (10 ^ Z.of_nat 0) with 1 in Hv.
    cbn [fmtInt_loop]. repeat split; try reflexivity; cbn [val_acc]; lia.
  - cbn [fmtInt_loop]. destruct (Z.ltb_spec 0 v) as [Hpos | Hz].
    + rewrite Nat2Z.inj_succ, Z.pow_succ_r in Hv by lia.
      destruct (IH (String (digit_char (v mod 10)) buf) (v / 10)) as (ds & E & Hd & Hval & _).
      { split; [apply Z.div_pos; lia | apply Z.div_lt_upper_bound; lia]. }
      pose proof (Z.mod_pos_bound v 10 ltac:(lia)) as Hm.
      destruct (digit_char_spec (v mod 10) Hm) as (Hdc & Hdv).
      exists (ds ++ String (digit_char (v mod 10)) "").
      rewrite E, append_assoc, append_cons, append_nil_l.
      split; [reflexivity |]. split.
      { rewrite all_digits_app, Hd. cbn [all_digits andb]. rewrite Hdc. reflexivity. }
      split.
      { rewrite val_acc_app, Hval. cbn [val_acc]. rewrite Hdv.
        pose proof (Z.div_mod v 10 ltac:(lia)). lia. }
      intros _. rewrite length_append. cbn [String.length]. lia.
    + exists "". repeat split; try reflexivity; cbn [val_acc]; lia.
Qed.

Lemma fmtInt_spec buf v :
  0 <= v < 10 ^ 20 ->
  exists ds,
    fmtInt buf v = ds ++ buf
    /\ all_digits ds = true /\ val_acc ds 0 = v
    /\ (0 < String.length ds)%nat.
Proof.
  intros Hv. unfold fmtInt. destruct (Z.eqb_spec v 0) as [-> | Hnz].
  - exists "0". repeat split. cbn [String.length]. lia.
  - destruct (fmtInt_loop_spec 20 buf v Hv) as (ds & E & Hd & Hval & Hlen).
    exists ds. repeat split; auto. apply Hlen. lia.
Qed.

(** [leadingInt] reads a run of digits back. *)
Lemma leadingInt_loop_digits ds rest x :
  all_digits ds = true -> no_digit_ahead rest = true ->
  0 <= x -> val_acc ds x <= 2 ^ 63 ->
  leadingInt_loop (ds ++ rest) x = Some (val_acc ds x, rest).
Proof.
  revert x. induction ds as [| c ds IH]; intros x Hd Hr Hx Hmax.
  - rewrite append_nil_l. cbn [val_acc]. destruct rest as [| c r]; [reflexivity |].
    cbn [leadingInt_loop no_digit_ahead] in *. rewrite Hr. reflexivity.
  - rewrite append_cons. cbn [leadingInt_loop val_acc] in *.
    cbn [all_digits] in Hd. apply andb_true_iff in Hd as [Hc Hd]. rewrite Hc.
    cbn [negb].
    pose proof (digit_val_range c Hc) as Hdv.
    pose proof (val_acc_ge ds (x * 10 + digit_val c) Hd ltac:(lia)) as Hge.
    destruct (Z.gtb_spec x (2 ^ 63 / 10)) as [Hov | _].
    { exfalso. pose proof (Z.div_le_lower_bound (2 ^ 63) 10 x ltac:(lia)). lia. }
    destruct (Z.gtb_spec (x * 10 + digit_val c) (2 ^ 63)) as [Hov | _]; [lia |].
    apply IH; auto. lia.
Qed.

(** [fmtFrac] writes the fraction digits of [v], without the trailing
    zeros. *)
Lemma fmtFrac_loop_spec prec buf v print :
  0 <= v ->
  exists ds,
    fmtFrac_loop prec buf v print
    = (ds ++ buf, v / 10 ^ Z.of_nat prec,
       print || negb (v mod 10 ^ Z.of_nat prec =? 0))
    /\ all_digits ds = true
    /\ (String.length ds <= prec)%nat
    /\ val_acc ds 0 * 10 ^ (Z.of_nat prec - Z.of_nat (String.length ds))
       = v mod 10 ^ Z.of_nat prec
    /\ (print = true -> String.length ds = prec)
    /\ (print = false -> v mod 10 ^ Z.of_nat prec = 0 -> ds = "").
Proof.
  revert buf v print. induction prec as [| p IH]; intros buf v print Hv.
  - exists "". change (10 ^ Z.of_nat 0) with 1.
    cbn [fmtFrac_loop String.length all_digits val_acc].
    rewrite append_nil_l, Z.div_1_r, Z.mod_1_r, orb_false_r.
    repeat split; auto.
  - cbn [fmtFrac_loop].
    pose proof (Z.mod_pos_bound v 10 ltac:(lia)) as Hm.
    destruct (digit_char_spec (v mod 10) Hm) as (Hdc & Hdv).
    assert (Hp : 0 < 10 ^ Z.of_nat p) by (apply Z.pow_pos_nonneg; lia).
    assert (Hmod : v mod 10 ^ Z.of_nat (S p)
                   = v mod 10 + 10 * ((v / 10) mod 10 ^ Z.of_nat p)).
    { rewrite Nat2Z.inj_succ, Z.pow_succ_r by lia. apply Z.rem_mul_r; lia. }
    assert (Hdiv : v / 10 / 10 ^ Z.of_nat p = v / 10 ^ Z.of_nat (S p)).
    { rewrite Nat2Z.inj_succ, Z.pow_succ_r by lia. apply Z.div_div; lia. }
    pose proof (Z.mod_pos_bound (v / 10) (10 ^ Z.of_nat p) Hp) as Hm2.
    destruct (print || negb (v mod 10 =? 0)) eqn:Epr.
    + destruct (IH (String (digit_char (v mod 10)) buf) (v / 10) true)
        as (ds & E & Hd & Hlen & Hval & Hfull & _).
      { apply Z.div_pos; lia. }
      specialize (Hfull eq_refl).
      exists (ds ++ String (digit_char (v mod 10)) "").
      rewrite E, append_assoc, append_cons, append_nil_l, Hdiv.
      rewrite Hfull, Z.sub_diag, Z.mul_1_r in Hval.
      assert (Hl : String.length (ds ++ String (digit_char (v mod 10)) "") = S p).
      { rewrite length_append. cbn [String.length]. lia. }
      split.
      { f_equal. cbn [orb].
        destruct print; [reflexivity |]. cbn [orb] in *.
        destruct (Z.eqb_spec (v mod 10) 0) as [? | Hn]; [discriminate |].
        destruct (Z.eqb_spec (v mod 10 ^ Z.of_nat (S p)) 0); [lia | reflexivity]. }
      split.
      { rewrite all_digits_app, Hd. cbn [all_digits andb]. rewrite Hdc. reflexivity. }
      split; [lia |].
      split.
      { rewrite Hl, Z.sub_diag, Z.mul_1_r, val_acc_app, Hval. cbn [val_acc].
        rewrite Hdv. lia. }
      split; [intros _; exact Hl |].
      intros -> Hz. cbn [orb] in Epr.
      destruct (Z.eqb_spec (v mod 10) 0); [discriminate | lia].
    + apply orb_false_iff in Epr as [-> Hd0].
      apply negb_false_iff, Z.eqb_eq in Hd0.
      destruct (IH buf (v / 10) false)
        as (ds & E & Hd & Hlen & Hval & _ & Hempty).
      { apply Z.div_pos; lia. }
      exists ds. rewrite E, Hdiv.
      split.
      { f_equal. cbn [orb].
        destruct (Z.eqb_spec ((v / 10) mod 10 ^ Z.of_nat p) 0),
                 (Z.eqb_spec (v mod 10 ^ Z.of_nat (S p)) 0); try reflexivity; lia. }
      split; [exact Hd |]. split; [lia |].
      split.
      { rewrite Hmod, Hd0, <- Hval.
        replace (Z.of_nat (S p) - Z.of_nat (String.length ds))
          with (Z.succ (Z.of_nat p - Z.of_nat (String.length ds))) by lia.
        rewrite Z.pow_succ_r by lia. lia. }
      split; [discriminate |].
      intros _ Hz. apply Hempty; [reflexivity | lia].
Qed.

(** [leadingFraction] reads a run of digits back and counts them in
    [scale]. *)
Lemma leadingFraction_loop_digits (A : FloatArith) ds rest x (scale : F A) :
  all_digits ds = true -> no_digit_ahead rest = true ->
  0 <= x -> val_acc ds x <= (2 ^ 63 - 1) / 10 ->
  leadingFraction_loop A (ds ++ rest) x scale false
  = (val_acc ds x, scale_up A (String.length ds) scale, rest).
Proof.
  revert x scale. induction ds as [| c ds IH]; intros x scale Hd Hr Hx Hmax.
  - rewrite append_nil_l. cbn [val_acc String.length scale_up].
    destruct rest as [| c r]; [reflexivity |].
    cbn [leadingFraction_loop no_digit_ahead] in *. rewrite Hr. reflexivity.
  - rewrite append_cons.
    cbn [leadingFraction_loop val_acc String.length scale_up] in *.
    cbn [all_digits] in Hd. apply andb_true_iff in Hd as [Hc Hd]. rewrite Hc.
    cbn [negb].
    pose proof (digit_val_range c Hc) as Hdv.
    pose proof (val_acc_ge ds (x * 10 + digit_val c) Hd ltac:(lia)) as Hge.
    assert (Hb : (2 ^ 63 - 1) / 10 < 2 ^ 63) by reflexivity.
    destruct (Z.gtb_spec x ((2 ^ 63 - 1) / 10)) as [Hov | _]; [lia |].
    destruct (Z.gtb_spec (x * 10 + digit_val c) (2 ^ 63)) as [Hov | _]; [lia |].
    apply IH; auto. lia.
Qed.

(** The unit is read up to the next digit. *)
Lemma split_unit_spec u rest :
  unit_chars u = true -> digit_ahead rest = true ->
  split_unit (u ++ rest) = (u, rest).
Proof.
  intros Hu Hr. induction u as [| c u IH].
  - rewrite append_nil_l. destruct rest as [| c r]; [reflexivity |].
    cbn [split_unit digit_ahead] in *. rewrite Hr, orb_true_r. reflexivity.
  - rewrite append_cons. cbn [split_unit unit_chars] in *.
    apply andb_true_iff in Hu as [Hc Hu]. apply negb_true_iff in Hc.
    rewrite Hc, (IH Hu). reflexivity.
Qed.
End DigitStrings.

(** ** Reading back what [Duration.String] writes *)

Section DurationRoundTrip.
Import GoTime Digits.
Local Open Scope string_scope.
Local Open Scope Z_scope.

Lemma fmtFrac_spec buf v prec :
  0 <= v ->
  exists fs,
    fmtFrac buf v prec = (fs ++ buf, v / 10 ^ Z.of_nat prec)
    /\ frac_part fs prec (v mod 10 ^ Z.of_nat prec).
Proof.
  intros Hv. unfold fmtFrac.
  destruct (fmtFrac_loop_spec prec buf v false Hv)
    as (ds & E & Hd & Hlen & Hval & _ & Hempty).
  rewrite E. cbn [orb].
  assert (Hp : 0 < 10 ^ Z.of_nat prec) by (apply Z.pow_pos_nonneg; lia).
  pose proof (Z.mod_pos_bound v (10 ^ Z.of_nat prec) Hp) as Hm.
  destruct (Z.eqb_spec (v mod 10 ^ Z.of_nat prec) 0) as [Hz | Hnz]; cbn [negb].
  - exists "". rewrite (Hempty eq_refl Hz). split; [reflexivity |].
    left. auto.
  - exists (String "." ds). rewrite append_cons. split; [reflexivity |].
    right. split; [lia |]. exists ds. repeat split; auto.
    destruct ds as [| c ds]; [| cbn [String.length]; lia].
    cbn [val_acc] in Hval. lia.
Qed.

Lemma no_digit_ahead_unit u rest :
  unit_chars u = true -> (0 < String.length u)%nat ->
  no_digit_ahead (u ++ rest) = true.
Proof.
  destruct u as [| c u]; cbn [String.length]; [lia |]. intros Hu _.
  rewrite append_cons. cbn [unit_chars no_digit_ahead] in *.
  apply andb_true_iff in Hu as [Hc _].
  apply negb_true_iff, orb_false_iff in Hc as [_ Hc]. rewrite Hc. reflexivity.
Qed.

Context (A : FloatArith) (HA : frac_exact A).

(** One term of a duration, [<digits>[.<digits>]<unit>], read by one
    iteration of the loop of [ParseDuration]. *)
Lemma parse_segment fuel ds fs u rest d unit (j : nat) m :
  all_digits ds = true -> (0 < String.length ds)%nat ->
  frac_part fs j m -> (m = 0 \/ (unit = 10 ^ Z.of_nat j /\ (j <= 9)%nat)) ->
  unit_chars u = true -> (0 < String.length u)%nat ->
  unitMap u = Some unit -> 0 < unit ->
  digit_ahead rest = true ->
  val_acc ds 0 <= 2 ^ 63 / unit ->
  0 <= d -> d + val_acc ds 0 * unit + m <= 2 ^ 63 ->
  parse_loop A (S fuel) (ds ++ fs ++ u ++ rest) d
  = parse_loop A fuel rest (d + val_acc ds 0 * unit + m).
Proof.
  intros Hds Hlen Hfs Hunit Hu Hulen Hmap Hpos Hrest Hv Hd Htot.
  pose proof (val_acc_bound ds Hds) as [Hv0 _].
  assert (Hdu : 2 ^ 63 / unit <= 2 ^ 63).
  { apply Z.div_le_upper_bound; [lia |]. nia. }
  assert (Hm0 : 0 <= m) by (destruct Hfs as [[-> _] | [? _]]; lia).
  destruct ds as [| c ds']; [cbn [String.length] in Hlen; lia |].
  set (ds := String c ds') in *.
  assert (Hnda : no_digit_ahead (fs ++ u ++ rest) = true).
  { destruct Hfs as [[_ ->] | (_ & fds & -> & _)].
    - rewrite append_nil_l. apply no_digit_ahead_unit; assumption.
    - rewrite append_cons. reflexivity. }
  pose proof (leadingInt_loop_digits ds (fs ++ u ++ rest) 0 Hds Hnda
                ltac:(lia) ltac:(lia)) as Hli.
  assert (Hc : is_digit c = true).
  { unfold ds in Hds. cbn [all_digits] in Hds.
    apply andb_true_iff in Hds as [Hc _]. exact Hc. }
  unfold ds at 1. rewrite append_cons. cbn [parse_loop].
  rewrite Hc, orb_true_r. cbn [negb].
  rewrite <- append_cons. fold ds. unfold leadingInt. rewrite Hli.
  assert (Hpre : (String.length (ds ++ fs ++ u ++ rest)
                  =? String.length (fs ++ u ++ rest))%nat = false).
  { apply Nat.eqb_neq. rewrite (length_append ds). lia. }
  rewrite Hpre. cbn [negb andb].
  assert (Hsu : split_unit (u ++ rest) = (u, rest))
    by (apply split_unit_spec; assumption).
  assert (Hul : (String.length u =? 0)%nat = false)
    by (apply Nat.eqb_neq; lia).
  assert (Hnov : (val_acc ds 0 >? 2 ^ 63 / unit) = false).
  { destruct (Z.gtb_spec (val_acc ds 0) (2 ^ 63 / unit)); [lia | reflexivity]. }
  destruct Hfs as [[-> ->] | (Hmpos & fds & -> & Hfd & Hfl & Hfv)].
  - rewrite append_nil_l.
    destruct u as [| cu u']; [cbn [String.length] in Hulen; lia |].
    assert (Hcu : Ascii.eqb cu "." = false).
    { cbn [unit_chars] in Hu. apply andb_true_iff in Hu as [Hcu _].
      apply negb_true_iff, orb_false_iff in Hcu as [Hcu _]. exact Hcu. }
    rewrite append_cons, Hcu, <- append_cons.
    rewrite Hsu, Hul, Hmap, Hnov.
    cbn [Z.ltb Z.compare andb].
    destruct (Z.gtb_spec (d + val_acc ds 0 * unit) (2 ^ 63)); [lia |].
    f_equal. lia.
  - rewrite append_cons. cbn [Ascii.eqb Bool.eqb]. cbv iota.
    assert (Hnd2 : no_digit_ahead (u ++ rest) = true)
      by (apply no_digit_ahead_unit; assumption).
    pose proof (val_acc_bound fds Hfd) as Hfb.
    assert (Hk9 : 10 ^ Z.of_nat (String.length fds) <= 10 ^ 9).
    { destruct Hunit as [? | [_ Hj]]; [lia |].
      apply Z.pow_le_mono_r; lia. }
    unfold leadingFraction.
    rewrite (leadingFraction_loop_digits A fds (u ++ rest) 0 (of_int A 1) Hfd Hnd2
               ltac:(lia)).
    2:{ assert ((2 ^ 63 - 1) / 10 = 922337203685477580) by reflexivity. lia. }
    rewrite Hsu, Hul, Hmap, Hnov.
    assert (Hfpos : 0 < val_acc fds 0).
    { assert (0 < 10 ^ (Z.of_nat j - Z.of_nat (String.length fds)))
        by (apply Z.pow_pos_nonneg; lia).
      nia. }
    destruct (Z.ltb_spec 0 (val_acc fds 0)) as [_ | ?]; [| lia].
    destruct Hunit as [? | [Hunit Hj]]; [lia |].
    pose proof (HA (val_acc fds 0) j (String.length fds) ltac:(lia) ltac:(lia))
      as Hfr.
    rewrite <- Hunit in Hfr. rewrite Hfr, Hfv.
    cbn [andb].
    destruct (Z.gtb_spec (val_acc ds 0 * unit + m) (2 ^ 63)); [lia |].
    destruct (Z.gtb_spec (d + (val_acc ds 0 * unit + m)) (2 ^ 63)); [lia |].
    f_equal. lia.
Qed.
(** The same with the fuel that [ParseDuration] provides: the length of the
    text still to read. *)
Lemma parse_segment_fuel fuel ds fs u rest d unit (j : nat) m :
  all_digits ds = true -> (0 < String.length ds)%nat ->
  frac_part fs j m -> (m = 0 \/ (unit = 10 ^ Z.of_nat j /\ (j <= 9)%nat)) ->
  unit_chars u = true -> (0 < String.length u)%nat ->
  unitMap u = Some unit -> 0 < unit ->
  digit_ahead rest = true ->
  val_acc ds 0 <= 2 ^ 63 / unit ->
  0 <= d -> d + val_acc ds 0 * unit + m <= 2 ^ 63 ->
  (String.length (ds ++ fs ++ u ++ rest) <= fuel)%nat ->
  exists fuel',
    (String.length rest <= fuel')%nat
    /\ parse_loop A fuel (ds ++ fs ++ u ++ rest) d
       = parse_loop A fuel' rest (d + val_acc ds 0 * unit + m).
Proof.
  intros Hds Hlen Hfs Hunit Hu Hulen Hmap Hpos Hrest Hv Hd Htot Hfuel.
  rewrite !length_append in Hfuel.
  destruct fuel as [| fuel]; [lia |].
  exists fuel. split; [lia |].
  eapply parse_segment; eassumption.
Qed.

Lemma parse_loop_done fuel d : parse_loop A fuel "" d = inr d.
Proof. destruct fuel; reflexivity. Qed.

Lemma frac_part_none j : frac_part "" j 0.
Proof. left. auto. Qed.

Lemma digit_ahead_digits ds rest :
  all_digits ds = true -> (0 < String.length ds)%nat ->
  digit_ahead (ds ++ rest) = true.
Proof.
  destruct ds as [| c ds]; cbn [String.length]; [lia |]. intros Hd _.
  rewrite append_cons. cbn [all_digits digit_ahead] in *.
  apply andb_true_iff in Hd as [Hc _]. exact Hc.
Qed.

Lemma numbered_digits ds rest :
  all_digits ds = true -> (0 < String.length ds)%nat ->
  (0 < String.length rest)%nat -> numbered (ds ++ rest).
Proof.
  destruct ds as [| c ds]; cbn [String.length]; [lia |]. intros Hd _ Hr.
  exists c, (ds ++ rest). rewrite append_cons.
  cbn [all_digits] in Hd. apply andb_true_iff in Hd as [Hc _].
  repeat split; auto. rewrite length_append. lia.
Qed.
Lemma numbered_digit_ahead t : numbered t -> digit_ahead t = true.
Proof. intros (c & t' & -> & Hc & _). exact Hc. Qed.

Lemma fmtInt_numbered buf q :
  0 <= q < 10 ^ 20 -> (0 < String.length buf)%nat -> numbered (fmtInt buf q).
Proof.
  intros Hq Hb. destruct (fmtInt_spec buf q Hq) as (ds & -> & Hd & _ & Hl).
  apply numbered_digits; assumption.
Qed.

(** A term without fraction, followed by more terms. *)
Lemma parse_term_then U unit q rest d fuel :
  unit_chars U = true -> (0 < String.length U)%nat ->
  unitMap U = Some unit -> 0 < unit ->
  0 <= q < 10 ^ 20 -> q <= 2 ^ 63 / unit ->
  digit_ahead rest = true ->
  0 <= d -> d + q * unit <= 2 ^ 63 ->
  (String.length (fmtInt (U ++ rest) q) <= fuel)%nat ->
  exists fuel',
    (String.length rest <= fuel')%nat
    /\ parse_loop A fuel (fmtInt (U ++ rest) q) d
       = parse_loop A fuel' rest (d + q * unit).
Proof.
  intros HU HUl Hmap Hpos Hq Hqu Hrest Hd Htot Hfuel.
  destruct (fmtInt_spec (U ++ rest) q Hq) as (ds & E & Hds & Hval & Hl).
  rewrite E in *.
  change (ds ++ U ++ rest) with (ds ++ "" ++ U ++ rest) in *.
  destruct (parse_segment_fuel fuel ds "" U rest d unit 0 0)
    as (fuel' & Hf & Hp); auto using frac_part_none; try (rewrite Hval; lia).
  exists fuel'. split; [exact Hf |]. rewrite Hp, Hval. f_equal. lia.
Qed.

(** The last term, with its fraction. *)
Lemma parse_last_term fs U (j : nat) q m d fuel :
  frac_part fs j m ->
  unit_chars U = true -> (0 < String.length U)%nat ->
  unitMap U = Some (10 ^ Z.of_nat j) -> (j <= 9)%nat ->
  0 <= q < 10 ^ 20 -> q <= 2 ^ 63 / 10 ^ Z.of_nat j ->
  0 <= d -> d + q * 10 ^ Z.of_nat j + m <= 2 ^ 63 ->
  (String.length (fmtInt (fs ++ U) q) <= fuel)%nat ->
  parse_loop A fuel (fmtInt (fs ++ U) q) d = inr (d + q * 10 ^ Z.of_nat j + m).
Proof.
  intros Hfs HU HUl Hmap Hj Hq Hqu Hd Htot Hfuel.
  destruct (fmtInt_spec (fs ++ U) q Hq) as (ds & E & Hds & Hval & Hl).
  rewrite E in *.
  replace (ds ++ fs ++ U) with (ds ++ fs ++ U ++ "") in *
    by (rewrite (append_nil_r U); reflexivity).
  assert (Hp10 : 0 < 10 ^ Z.of_nat j) by (apply Z.pow_pos_nonneg; lia).
  destruct (parse_segment_fuel fuel ds fs U "" d (10 ^ Z.of_nat j) j m)
    as (fuel' & Hf & Hp); auto; try (rewrite Hval; lia).
  rewrite Hp, parse_loop_done, Hval. reflexivity.
Qed.
(** A magnitude written with a single term. *)
Lemma parse_single U (j : nat) u buf q fuel :
  unit_chars U = true -> (0 < String.length U)%nat ->
  unitMap U = Some (10 ^ Z.of_nat j) -> (j <= 9)%nat ->
  0 < u <= 2 ^ 63 ->
  fmtFrac U u j = (buf, q) ->
  (String.length (fmtInt buf q) <= fuel)%nat ->
  parse_loop A fuel (fmtInt buf q) 0 = inr u /\ numbered (fmtInt buf q).
Proof.
  intros HU HUl Hmap Hj Hu E Hfuel.
  destruct (fmtFrac_spec U u j ltac:(lia)) as (fs & E' & Hfs).
  rewrite E in E'. inversion E'; subst buf q. clear E'.
  assert (Hp : 0 < 10 ^ Z.of_nat j) by (apply Z.pow_pos_nonneg; lia).
  pose proof (Z.div_mod u (10 ^ Z.of_nat j) ltac:(lia)) as Hdm.
  pose proof (Z.mod_pos_bound u (10 ^ Z.of_nat j) Hp) as Hm.
  assert (Hq : 0 <= u / 10 ^ Z.of_nat j <= u).
  { split; [apply Z.div_pos; lia | apply Z.div_le_upper_bound; nia]. }
  split.
  - rewrite (parse_last_term fs U j (u / 10 ^ Z.of_nat j)
               (u mod 10 ^ Z.of_nat j) 0 fuel); auto.
    + f_equal. lia.
    + assert (2 ^ 63 < 10 ^ 20) by reflexivity. lia.
    + apply Z.div_le_mono; lia.
    + lia.
    + lia.
  - apply fmtInt_numbered.
    + assert (2 ^ 63 < 10 ^ 20) by reflexivity. lia.
    + rewrite length_append. lia.
Qed.

(** Every positive magnitude is read back from its text. *)
Lemma parse_unsigned u fuel :
  0 < u <= 2 ^ 63 ->
  (String.length (unsigned_text u) <= fuel)%nat ->
  parse_loop A fuel (unsigned_text u) 0 = inr u /\ numbered (unsigned_text u).
Proof.
  intros Hu. unfold unsigned_text.
  assert (Hbig : 2 ^ 63 < 10 ^ 20) by reflexivity.
  destruct (Z.ltb_spec u Second) as [Hs | Hs].
  - destruct (Z.eqb_spec u 0) as [? | _]; [lia |].
    destruct (Z.ltb_spec u Microsecond) as [H1 | H1]; cbv beta iota zeta.
    { destruct (fmtFrac "ns" u 0) as [buf q] eqn:E.
      apply (parse_single "ns" 0 u buf q fuel); auto; cbn [String.length]; lia. }
    destruct (Z.ltb_spec u Millisecond) as [H2 | H2]; cbv beta iota zeta.
    { destruct (fmtFrac (micro ++ "s") u 3) as [buf q] eqn:E.
      apply (parse_single (micro ++ "s") 3 u buf q fuel); auto;
        try reflexivity; try lia. cbv. lia. }
    destruct (fmtFrac "ms" u 6) as [buf q] eqn:E.
    apply (parse_single "ms" 6 u buf q fuel); auto; cbn [String.length]; lia.
  - destruct (fmtFrac_spec "s" u 9 ltac:(lia)) as (fs & E & Hfs).
    rewrite E. cbv beta iota zeta.
    change (10 ^ Z.of_nat 9) with 1000000000 in *.
    set (m := u mod 1000000000) in *.
    set (st := u / 1000000000) in *.
    assert (Hst : u = 1000000000 * st + m /\ 0 <= m < 1000000000).
    { unfold st, m. split; [apply Z.div_mod; lia | apply Z.mod_pos_bound; lia]. }
    set (mt := st / 60) in *.
    set (s3 := st mod 60) in *.
    assert (Hmt : st = 60 * mt + s3 /\ 0 <= s3 < 60).
    { unfold mt, s3. split; [apply Z.div_mod; lia | apply Z.mod_pos_bound; lia]. }
    set (ht := mt / 60) in *.
    set (m2 := mt mod 60) in *.
    assert (Hht : mt = 60 * ht + m2 /\ 0 <= m2 < 60).
    { unfold ht, m2. split; [apply Z.div_mod; lia | apply Z.mod_pos_bound; lia]. }
    unfold Second, Millisecond, Microsecond, Nanosecond in Hs.
    assert (Hst0 : 0 <= st) by (unfold st; apply Z.div_pos; lia).
    assert (Hmt0 : 0 <= mt) by (unfold mt; apply Z.div_pos; lia).
    assert (Hht0 : 0 <= ht) by (unfold ht; apply Z.div_pos; lia).
    assert (EM : Minute = 60000000000) by reflexivity.
    assert (EH : Hour = 3600000000000) by reflexivity.
    assert (Hlast : forall d fuel',
               0 <= d -> d + s3 * 1000000000 + m <= 2 ^ 63 ->
               (String.length (fmtInt (fs ++ "s") s3) <= fuel')%nat ->
               parse_loop A fuel' (fmtInt (fs ++ "s") s3) d
               = inr (d + s3 * 1000000000 + m)).
    { intros d fuel' Hd Htot Hf.
      assert (Hq : s3 <= 2 ^ 63 / 10 ^ Z.of_nat 9).
      { apply Z.div_le_lower_bound; [reflexivity |].
        change (10 ^ Z.of_nat 9) with 1000000000. lia. }
      exact (parse_last_term fs "s" 9 s3 m d fuel' Hfs eq_refl
               ltac:(cbn [String.length]; lia) eq_refl ltac:(lia)
               ltac:(lia) Hq Hd Htot Hf). }
    assert (Hn3 : numbered (fmtInt (fs ++ "s") s3)).
    { apply fmtInt_numbered; [lia |]. rewrite length_append. cbn [String.length]. lia. }
    destruct (Z.ltb_spec 0 mt) as [Hm1 | Hm1].
    + change (String "m" (fmtInt (fs ++ "s") s3))
        with ("m" ++ fmtInt (fs ++ "s") s3).
      assert (Hn2 : numbered (fmtInt ("m" ++ fmtInt (fs ++ "s") s3) m2)).
      { apply fmtInt_numbered; [lia |]. rewrite length_append. cbn [String.length]. lia. }
      assert (Hmid : forall d fuel',
                 0 <= d -> d + m2 * Minute + s3 * 1000000000 + m <= 2 ^ 63 ->
                 (String.length (fmtInt ("m" ++ fmtInt (fs ++ "s") s3) m2) <= fuel')%nat ->
                 parse_loop A fuel' (fmtInt ("m" ++ fmtInt (fs ++ "s") s3) m2) d
                 = inr (d + m2 * Minute + s3 * 1000000000 + m)).
      { intros d fuel' Hd Htot Hf.
        assert (Hq : m2 <= 2 ^ 63 / Minute).
        { apply Z.div_le_lower_bound; [reflexivity | lia]. }
        destruct (parse_term_then "m" Minute m2 (fmtInt (fs ++ "s") s3) d fuel'
                    eq_refl ltac:(cbn [String.length]; lia) eq_refl
                    ltac:(reflexivity) ltac:(lia) Hq
                    (numbered_digit_ahead _ Hn3) Hd ltac:(lia) Hf)
          as (fuel2 & Hf2 & Hp).
        rewrite Hp. apply Hlast; [lia | lia | exact Hf2]. }
      destruct (Z.ltb_spec 0 ht) as [Hh1 | Hh1].
      * change (String "h" (fmtInt ("m" ++ fmtInt (fs ++ "s") s3) m2))
          with ("h" ++ fmtInt ("m" ++ fmtInt (fs ++ "s") s3) m2).
        intros Hfuel. split.
        -- assert (Hq : ht <= 2 ^ 63 / Hour).
           { apply Z.div_le_lower_bound; [reflexivity | lia]. }
           destruct (parse_term_then "h" Hour ht
                       (fmtInt ("m" ++ fmtInt (fs ++ "s") s3) m2) 0 fuel
                       eq_refl ltac:(cbn [String.length]; lia) eq_refl
                       ltac:(reflexivity) ltac:(lia) Hq
                       (numbered_digit_ahead _ Hn2) ltac:(lia) ltac:(lia) Hfuel)
             as (fuel2 & Hf2 & Hp).
           rewrite Hp, Hmid; [f_equal; lia | lia | lia | exact Hf2].
        -- apply fmtInt_numbered; [lia |]. rewrite length_append. cbn [String.length]. lia.
      * intros Hfuel. split; [| exact Hn2].
        rewrite Hmid; [f_equal; lia | lia | lia | exact Hfuel].
    + intros Hfuel. split; [| exact Hn3].
      rewrite Hlast; [f_equal; lia | lia | lia | exact Hfuel].
Qed.
(** [Duration.String] writes a minus sign, if any, and the magnitude. *)
Lemma String_unsigned d :
  in_int64 d ->
  String_ d = if d <? 0 then String "-" (unsigned_text (- d)) else unsigned_text d.
Proof.
  unfold in_int64, min_int64, max_int64. intros Hd.
  unfold String_, unsigned_text, wrapU64.
  destruct (Z.ltb_spec d 0) as [Hneg | Hpos].
  - assert (E : (- (d mod 2 ^ 64)) mod 2 ^ 64 = - d).
    { replace (d mod 2 ^ 64) with (d + 2 ^ 64).
      - symmetry. apply (Z.mod_unique _ _ (-1)); lia.
      - apply (Z.mod_unique _ _ (-1)); lia. }
    rewrite E.
    destruct (- d <? Second).
    + destruct (Z.eqb_spec (- d) 0); [lia |].
      destruct (if - d <? Microsecond then ("ns", 0%nat)
                else if - d <? Millisecond then (micro ++ "s", 3%nat)
                     else ("ms", 6%nat)) as [buf prec].
      destruct (fmtFrac buf (- d) prec). reflexivity.
    + destruct (fmtFrac "s" (- d) 9) as [buf q].
      destruct (0 <? q / 60); [| reflexivity].
      destruct (0 <? q / 60 / 60); reflexivity.
  - rewrite (Z.mod_small d) by lia.
    destruct (d <? Second).
    + destruct (d =? 0); [reflexivity |].
      destruct (if d <? Microsecond then ("ns", 0%nat)
                else if d <? Millisecond then (micro ++ "s", 3%nat)
                     else ("ms", 6%nat)) as [buf prec].
      destruct (fmtFrac buf d prec). reflexivity.
    + destruct (fmtFrac "s" d 9) as [buf q].
      destruct (0 <? q / 60); [| reflexivity].
      destruct (0 <? q / 60 / 60); reflexivity.
Qed.

Lemma digit_not_sign c :
  is_digit c = true -> Ascii.eqb c "-" = false /\ Ascii.eqb c "+" = false.
Proof.
  intros Hc. split.
  - destruct (Ascii.eqb_spec c "-") as [-> | _]; [discriminate | reflexivity].
  - destruct (Ascii.eqb_spec c "+") as [-> | _]; [discriminate | reflexivity].
Qed.

(** A positive magnitude goes through [ParseDuration] unsigned. *)
Lemma ParseDuration_unsigned u :
  0 < u <= 2 ^ 63 ->
  ParseDuration A (unsigned_text u)
  = (if u >? 2 ^ 63 - 1 then inl invalid_duration else inr u)
  /\ ParseDuration A (String "-" (unsigned_text u)) = inr (wrap64 (- wrap64 u)).
Proof.
  intros Hu.
  destruct (parse_unsigned u (String.length (unsigned_text u)) Hu (le_n _))
    as (Hp & c & t' & Et & Hc & Hl).
  destruct (digit_not_sign c Hc) as (Hm & Hpl).
  assert (Hne0 : String.eqb (unsigned_text u) "0" = false).
  { apply String.eqb_neq. rewrite Et. intros E. inversion E; subst.
    cbn [String.length] in Hl. lia. }
  assert (Hne : String.eqb (unsigned_text u) "" = false).
  { apply String.eqb_neq. rewrite Et. discriminate. }
  split.
  - unfold ParseDuration. rewrite Et at 1. rewrite Hm, Hpl. cbn [orb].
    rewrite Hne0, Hne, Hp. reflexivity.
  - unfold ParseDuration. cbn [Ascii.eqb Bool.eqb orb]. cbv iota.
    rewrite Hne0, Hne, Hp. reflexivity.
Qed.

(** [ParseDuration] reads back every duration that [Duration.String]
    writes. *)
Lemma ParseDuration_String d :
  in_int64 d -> ParseDuration A (String_ d) = inr d.
Proof.
  intros Hd. rewrite (String_unsigned d Hd).
  unfold in_int64, min_int64, max_int64 in Hd.
  destruct (Z.ltb_spec d 0) as [Hneg | Hpos].
  - destruct (ParseDuration_unsigned (- d) ltac:(lia)) as [_ E]. rewrite E.
    f_equal. unfold wrap64.
    destruct (Z.eq_dec d (- 2 ^ 63)) as [-> | Hne]; [reflexivity |].
    rewrite (Z.mod_small (- d + 2 ^ 63)) by lia.
    replace (- (- d + 2 ^ 63 - 2 ^ 63) + 2 ^ 63) with (d + 2 ^ 63) by lia.
    rewrite Z.mod_small by lia. lia.
  - destruct (Z.eq_dec d 0) as [-> | Hnz]; [reflexivity |].
    destruct (ParseDuration_unsigned d ltac:(lia)) as [E _]. rewrite E.
    destruct (Z.gtb_spec d (2 ^ 63 - 1)); [lia | reflexivity].
Qed.
End DurationRoundTrip.

Section ExactFraction.
Import Digits.

Lemma scale_up_exact (n : nat) (s : Q) :
  (scale_up Exact.arith n s == s * inject_Z (10 ^ Z.of_nat n))%Q.
Proof.
  revert s. induction n as [| n IH]; intros s.
  - cbn [scale_up]. change (inject_Z (10 ^ Z.of_nat 0)) with 1%Q.
    rewrite Qmult_1_r. reflexivity.
  - cbn [scale_up]. exact_ops. rewrite IH.
    rewrite Nat2Z.inj_succ, Z.pow_succ_r by lia.
    rewrite inject_Z_mult. rewrite <- Qmult_assoc. reflexivity.
Qed.

(** Exact arithmetic converts a printed fraction back exactly. *)
Lemma Exact_frac_exact : frac_exact Exact.arith.
Proof.
  intros f j k Hjk Hf. exact_ops.
  assert (Hk : 0 < 10 ^ Z.of_nat k) by (apply Z.pow_pos_nonneg; lia).
  assert (Hd : 0 < 10 ^ (Z.of_nat j - Z.of_nat k)) by (apply Z.pow_pos_nonneg; lia).
  assert (Hpow : 10 ^ Z.of_nat j = 10 ^ (Z.of_nat j - Z.of_nat k) * 10 ^ Z.of_nat k).
  { rewrite <- Z.pow_add_r by lia. f_equal. lia. }
  assert (Hq : (inject_Z f * (inject_Z (10 ^ Z.of_nat j)
                              / scale_up Exact.arith k (inject_Z 1))
                == inject_Z (f * 10 ^ (Z.of_nat j - Z.of_nat k)))%Q).
  { rewrite scale_up_exact. change (inject_Z 1) with 1%Q. rewrite Qmult_1_l.
    rewrite Hpow, !inject_Z_mult.
    rewrite Qdiv_mult_l; [reflexivity |].
    intros E. change 0%Q with (inject_Z 0) in E.
    unfold Qeq in E. cbn [Qnum Qden inject_Z] in E.
    rewrite !Z.mul_1_r in E. rewrite E in Hk. inversion Hk. }
  assert (Hmax : f * 10 ^ (Z.of_nat j - Z.of_nat k) <= max_int64).
  { assert (10 ^ Z.of_nat j <= 10 ^ 9) by (apply Z.pow_le_mono_r; lia).
    assert (f * 10 ^ (Z.of_nat j - Z.of_nat k) < 10 ^ Z.of_nat j) by (rewrite Hpow; nia).
    assert (10 ^ 9 <= max_int64) by discriminate. lia. }
  rewrite Exact_to_int64_floor.
  - rewrite Hq. apply Qfloor_Z.
  - rewrite Hq. change 0%Q with (inject_Z 0). rewrite <- Zle_Qle. nia.
  - rewrite Hq. rewrite <- Zle_Qle. exact Hmax.
Qed.
End ExactFraction.

(** ** binary64 on small integers *)

Section Binary64Fraction.
Import Binary64.
Local Open Scope Z_scope.

Lemma iter_pos_iter {A : Type} (f : A -> A) p x : SpecFloat.iter_pos f p x = Pos.iter f x p.
Proof.
  revert x. induction p as [p IH | p IH |]; intros x; cbn [SpecFloat.iter_pos Pos.iter].
  - rewrite !IH, !Pos.iter_swap. reflexivity.
  - rewrite !IH. reflexivity.
  - reflexivity.
Qed.

Lemma digits2_log2 p : Z.pos (digits2_pos p) = Z.log2 (Z.pos p) + 1.
Proof.
  assert (E : forall q, digits2_pos q = Pos.size q).
  { induction q as [q IH | q IH |]; cbn [digits2_pos Pos.size]; congruence. }
  rewrite E. destruct p; cbn [Z.log2 Pos.size]; lia.
Qed.

Lemma iter_xO_Z a k : Z.pos (Pos.iter xO a k) = Z.pos a * 2 ^ Z.pos k.
Proof.
  induction k as [| k IH] using Pos.peano_ind.
  - cbn [Pos.iter]. lia.
  - rewrite Pos.iter_succ, Pos2Z.inj_succ, Z.pow_succ_r by lia.
    rewrite Pos2Z.inj_xO, IH. lia.
Qed.

Lemma shr_exact a k :
  Pos.iter shr_1 {| shr_m := Z.pos (Pos.iter xO a k); shr_r := false; shr_s := false |} k
  = {| shr_m := Z.pos a; shr_r := false; shr_s := false |}.
Proof.
  induction k as [| k IH] using Pos.peano_ind.
  - reflexivity.
  - rewrite Pos.iter_succ_r. rewrite Pos.iter_succ. cbn [shr_1 orb]. exact IH.
Qed.

Lemma fexp_normal e : -1021 <= e -> fexp prec emax e = e - 53.
Proof. unfold fexp, emin, prec, emax. lia. Qed.

(** A mantissa of 53 bits is kept as it is. *)
Lemma round_aux_canonical sx m e :
  Z.log2 (Z.pos m) = 52 -> -1074 <= e <= 971 ->
  binary_round_aux prec emax sx (Z.pos m) e loc_Exact = S754_finite sx m e.
Proof.
  intros Hm He. unfold binary_round_aux, shr_fexp.
  cbn [Zdigits2 shr_record_of_loc]. rewrite digits2_log2, Hm.
  rewrite fexp_normal by lia.
  replace (52 + 1 + e - 53 - e) with 0 by lia. cbn [shr shr_m loc_of_shr_record round_nearest_even].
  cbn [Zdigits2 shr_record_of_loc]. rewrite digits2_log2, Hm.
  rewrite fexp_normal by lia.
  replace (52 + 1 + e - 53 - e) with 0 by lia. cbn [shr shr_m].
  unfold emax, prec. destruct (Z.leb_spec e (1024 - 53)); [reflexivity | lia].
Qed.

(** Zero bits below a mantissa of 53 bits are shifted out exactly. *)
Lemma round_aux_shift sx a n e :
  Z.log2 (Z.pos a) = 52 -> -1074 <= e + Z.pos n <= 971 ->
  binary_round_aux prec emax sx (Z.pos (Pos.iter xO a n)) e loc_Exact
  = S754_finite sx a (e + Z.pos n).
Proof.
  intros Ha He.
  pose proof (round_aux_canonical sx a (e + Z.pos n) Ha He) as Hc.
  unfold binary_round_aux in *. unfold shr_fexp at 1.
  assert (Hlog : Z.log2 (Z.pos (Pos.iter xO a n)) = Z.pos n + 52).
  { rewrite iter_xO_Z, Z.log2_mul_pow2 by lia. lia. }
  cbn [Zdigits2 shr_record_of_loc]. rewrite digits2_log2, Hlog.
  rewrite fexp_normal by lia.
  replace (Z.pos n + 52 + 1 + e - 53 - e) with (Z.pos n) by lia.
  cbn [shr]. rewrite iter_pos_iter, shr_exact.
  cbn [shr_m loc_of_shr_record round_nearest_even].
  unfold shr_fexp in Hc at 1. cbn [Zdigits2 shr_record_of_loc] in Hc.
  rewrite digits2_log2, Ha, fexp_normal in Hc by lia.
  replace (52 + 1 + (e + Z.pos n) - 53 - (e + Z.pos n)) with 0 in Hc by lia.
  cbn [shr shr_m loc_of_shr_record round_nearest_even] in Hc. exact Hc.
Qed.

(** The binary64 of a small positive integer. *)
Lemma of_int64_small z :
  0 < z < 2 ^ 52 ->
  exists a d, Z.pos d = 52 - Z.log2 z /\ Z.pos a = z * 2 ^ Z.pos d
              /\ of_int64 z = S754_finite false a (Z.neg d).
Proof.
  intros Hz. destruct z as [| p | p]; try lia.
  assert (Hl : 0 <= Z.log2 (Z.pos p) < 52).
  { split; [apply Z.log2_nonneg |]. apply Z.log2_lt_pow2; lia. }
  unfold of_int64, binary_normalize, binary_round, shl_align.
  rewrite digits2_log2, fexp_normal by lia.
  destruct (Z.log2 (Z.pos p) + 1 + 0 - 53 - 0) as [| q | d] eqn:E; try lia.
  exists (Pos.iter xO p d), d.
  assert (Ed : Z.pos d = 52 - Z.log2 (Z.pos p)) by lia.
  split; [exact Ed |]. split; [apply iter_xO_Z |].
  replace (Z.log2 (Z.pos p) + 1 + 0 - 53) with (Z.neg d) by lia.
  apply round_aux_canonical.
  - rewrite iter_xO_Z, Z.log2_mul_pow2 by lia. lia.
  - lia.
Qed.

(** The product of two integers is exact when it stays below [2^52]. *)
Lemma SFmul_small x y :
  0 < x -> 0 < y -> x * y < 2 ^ 52 ->
  SFmul prec emax (of_int64 x) (of_int64 y) = of_int64 (x * y).
Proof.
  intros Hx Hy Hxy.
  assert (Hx' : 0 < x < 2 ^ 52) by nia.
  assert (Hy' : 0 < y < 2 ^ 52) by nia.
  destruct (of_int64_small x Hx') as (ax & dx & Edx & Eax & ->).
  destruct (of_int64_small y Hy') as (ay & dy & Edy & Eay & ->).
  destruct (of_int64_small (x * y) ltac:(nia)) as (a & d & Ed & Ea & ->).
  cbn [SFmul xorb].
  pose proof (Z.log2_mul_below x y Hx Hy) as Hlow.
  assert (Hn : 0 < Z.pos dx + Z.pos dy - Z.pos d) by lia.
  destruct (Z.pos dx + Z.pos dy - Z.pos d) as [| n |] eqn:En; try lia.
  assert (Em : (ax * ay)%positive = Pos.iter xO a n).
  { apply Pos2Z.inj. rewrite iter_xO_Z, Pos2Z.inj_mul, Eax, Eay, Ea.
    assert (Ep : 2 ^ Z.pos dx * 2 ^ Z.pos dy = 2 ^ Z.pos d * 2 ^ Z.pos n).
    { rewrite <- !Z.pow_add_r by lia. f_equal. lia. }
    transitivity (x * y * (2 ^ Z.pos dx * 2 ^ Z.pos dy)); [ring |].
    rewrite Ep. ring. }
  rewrite Em.
  replace (Z.neg d) with (Z.neg dx + Z.neg dy + Z.pos n) by lia.
  pose proof (Z.log2_nonneg (x * y)) as Hnn.
  apply round_aux_shift; [| lia].
  rewrite Ea, Z.log2_mul_pow2 by lia. lia.
Qed.

Lemma to_int64_of_int64 z : 0 < z < 2 ^ 52 -> to_int64 (of_int64 z) = z.
Proof.
  intros Hz. destruct (of_int64_small z Hz) as (a & d & _ & Ea & ->).
  cbn [to_int64]. change (0 <=? Z.neg d) with false. cbv iota.
  change (- Z.neg d) with (Z.pos d). rewrite Ea.
  rewrite Z.div_mul by (apply Z.pow_nonzero; lia).
  unfold min_int64, max_int64.
  destruct (Z.leb_spec (- 2 ^ 63) z); [| lia].
  destruct (Z.leb_spec z (2 ^ 63 - 1)); [reflexivity | lia].
Qed.

(** Dividing a unit of at most a second by the scale of its fraction
    digits gives the power of ten between them. *)
Lemma unit_over_scale (j k : nat) :
  (k <= j <= 9)%nat ->
  SFdiv prec emax (of_int64 (10 ^ Z.of_nat j))
    (Digits.scale_up arith k (of_int64 1))
  = of_int64 (10 ^ (Z.of_nat j - Z.of_nat k)).
Proof.
  intros H.
  do 10 (destruct j as [| j];
         [do 10 (destruct k as [| k]; [try lia; vm_compute; reflexivity |]); lia |]).
  lia.
Qed.

(** binary64 converts a printed fraction back exactly. *)
Lemma Binary64_frac_exact : Digits.frac_exact arith.
Proof.
  intros f j k Hjk Hf.
  cbn [to_int fmul fdiv of_int arith].
  rewrite (unit_over_scale j k Hjk).
  assert (Hk : 0 < 10 ^ Z.of_nat k) by (apply Z.pow_pos_nonneg; lia).
  assert (Hd : 0 < 10 ^ (Z.of_nat j - Z.of_nat k)) by (apply Z.pow_pos_nonneg; lia).
  assert (Hpow : 10 ^ Z.of_nat j
                 = 10 ^ (Z.of_nat j - Z.of_nat k) * 10 ^ Z.of_nat k).
  { rewrite <- Z.pow_add_r by lia. f_equal. lia. }
  assert (Hj : 10 ^ Z.of_nat j <= 10 ^ 9) by (apply Z.pow_le_mono_r; lia).
  assert (Hs : f * 10 ^ (Z.of_nat j - Z.of_nat k) < 10 ^ Z.of_nat j)
    by (rewrite Hpow; nia).
  assert (H52 : 10 ^ 9 < 2 ^ 52) by reflexivity.
  rewrite SFmul_small by lia.
  apply to_int64_of_int64. nia.
Qed.
End Binary64Fraction.

(** ** The JSON form of a configuration duration ([config/config.go]) *)

Section PlainText.
Import GoTime ConfigDuration Digits.
Local Open Scope string_scope.
Local Open Scope Z_scope.

Lemma plain_char_not_quote c : plain_char c = true -> Ascii.eqb c dquote = false.
Proof.
  destruct c as [[] [] [] [] [] [] [] []]; vm_compute; congruence.
Qed.

Lemma micro_bytes_spec c1 c2 :
  micro_bytes c1 c2 = true ->
  Ascii.eqb c1 dquote = false /\ plain_char c1 = false.
Proof.
  unfold micro_bytes. intros H. apply andb_true_iff in H. destruct H as [H _].
  revert H. destruct c1 as [[] [] [] [] [] [] [] []]; vm_compute; intuition congruence.
Qed.

Lemma digit_plain c : is_digit c = true -> plain_char c = true.
Proof.
  destruct c as [[] [] [] [] [] [] [] []]; vm_compute; congruence.
Qed.

Lemma digit_not_quote c : is_digit c = true -> Ascii.eqb c dquote = false.
Proof.
  intros H. apply plain_char_not_quote, digit_plain, H.
Qed.

Lemma plain_cons c s : plain_char c = true -> plain (String c s) = plain s.
Proof.
  intros H. cbn [plain]. rewrite H. reflexivity.
Qed.

Lemma plain_digits ds buf : all_digits ds = true -> plain (ds ++ buf) = plain buf.
Proof.
  induction ds as [| c ds IH]; intros H.
  - apply f_equal, append_nil_l.
  - cbn [all_digits] in H. apply andb_true_iff in H. destruct H as [Hc Hd].
    rewrite append_cons, plain_cons by (apply digit_plain, Hc). auto.
Qed.

Lemma plain_fmtInt buf v : 0 <= v < 10 ^ 20 -> plain (fmtInt buf v) = plain buf.
Proof.
  intros Hv. destruct (fmtInt_spec buf v Hv) as (ds & E & Hd & _).
  rewrite E. apply plain_digits, Hd.
Qed.

Lemma plain_fmtFrac buf v prec :
  0 <= v -> plain (fst (fmtFrac buf v prec)) = plain buf.
Proof.
  intros Hv. destruct (fmtFrac_spec buf v prec Hv) as (fs & E & Hfs).
  rewrite E. cbn [fst].
  destruct Hfs as [[_ ->] | (_ & ds & -> & Hd & _)].
  - apply f_equal, append_nil_l.
  - rewrite append_cons, plain_cons by reflexivity. apply plain_digits, Hd.
Qed.

Lemma fmtFrac_snd buf v prec :
  0 <= v -> snd (fmtFrac buf v prec) = v / 10 ^ Z.of_nat prec.
Proof.
  intros Hv. destruct (fmtFrac_spec buf v prec Hv) as (fs & E & _).
  rewrite E. reflexivity.
Qed.

(** [Duration.String] writes plain text only. *)
Lemma plain_unsigned u : 0 <= u <= 2 ^ 63 -> plain (unsigned_text u) = true.
Proof.
  intros Hu. unfold unsigned_text.
  assert (Hbig : 2 ^ 63 < 10 ^ 20) by reflexivity.
  assert (Hfrac : forall buf prec,
             plain buf = true ->
             plain (let '(b, q) := fmtFrac buf u prec in fmtInt b q) = true).
  { intros buf prec Hb.
    pose proof (plain_fmtFrac buf u prec ltac:(lia)) as Hp.
    pose proof (fmtFrac_snd buf u prec ltac:(lia)) as Hq.
    destruct (fmtFrac buf u prec) as [b q]. cbn [fst snd] in Hp, Hq.
    rewrite plain_fmtInt; [congruence |].
    assert (0 < 10 ^ Z.of_nat prec) by (apply Z.pow_pos_nonneg; lia).
    assert (0 <= q <= u); [| lia].
    subst q. split; [apply Z.div_pos; lia |].
    apply Z.div_le_upper_bound; nia. }
  destruct (u <? Second).
  - destruct (u =? 0); [reflexivity |].
    destruct (u <? Microsecond); [apply (Hfrac "ns" 0%nat); reflexivity |].
    destruct (u <? Millisecond).
    + apply (Hfrac (micro ++ "s") 3%nat). reflexivity.
    + apply (Hfrac "ms" 6%nat). reflexivity.
  - pose proof (plain_fmtFrac "s" u 9 ltac:(lia)) as Hp.
    pose proof (fmtFrac_snd "s" u 9 ltac:(lia)) as Hq.
    destruct (fmtFrac "s" u 9) as [b q]. cbn [fst snd] in Hp, Hq.
    change (10 ^ Z.of_nat 9) with 1000000000 in Hq.
    assert (Hq0 : 0 <= q <= u).
    { subst q. split; [apply Z.div_pos; lia |].
      apply Z.div_le_upper_bound; lia. }
    assert (H60 : forall x, 0 <= x -> 0 <= x mod 60 < 10 ^ 20).
    { intros x Hx. pose proof (Z.mod_pos_bound x 60 ltac:(lia)). lia. }
    assert (Hq1 : 0 <= q / 60 <= u).
    { split; [apply Z.div_pos; lia |]. apply Z.div_le_upper_bound; lia. }
    assert (Hq2 : 0 <= q / 60 / 60 <= u).
    { split; [apply Z.div_pos; lia |]. apply Z.div_le_upper_bound; lia. }
    assert (Hs : plain (fmtInt b (q mod 60)) = true).
    { rewrite plain_fmtInt by (apply H60; lia). exact Hp. }
    destruct (0 <? q / 60); [| exact Hs].
    assert (Hm : plain (fmtInt (String "m" (fmtInt b (q mod 60))) (q / 60 mod 60)) = true).
    { rewrite plain_fmtInt by (apply H60; lia).
      rewrite plain_cons by reflexivity. exact Hs. }
    destruct (0 <? q / 60 / 60); [| exact Hm].
    rewrite plain_fmtInt by lia. rewrite plain_cons by reflexivity. exact Hm.
Qed.

Lemma plain_String d : in_int64 d -> plain (String_ d) = true.
Proof.
  intros Hd. rewrite (String_unsigned d Hd).
  unfold in_int64, min_int64, max_int64 in Hd.
  destruct (Z.ltb_spec d 0).
  - rewrite plain_cons by reflexivity. apply plain_unsigned. lia.
  - apply plain_unsigned. lia.
Qed.

(** Reading a quoted plain string gives the string back. *)
Lemma unquote_tail_plain s :
  plain s = true -> unquote_tail (s ++ String dquote "") = Some s.
Proof.
  assert (H : forall n s, (String.length s <= n)%nat -> plain s = true ->
                          unquote_tail (s ++ String dquote "") = Some s).
  { clear s. induction n as [| n IH]; intros s Hn Hp.
    - destruct s; [reflexivity | cbn [String.length] in Hn; lia].
    - destruct s as [| c s]; [reflexivity |].
      cbn [String.length] in Hn. rewrite append_cons.
      cbn [plain] in Hp. cbn [unquote_tail].
      destruct (plain_char c) eqn:Ec.
      + rewrite (plain_char_not_quote c Ec), IH by (auto; lia). reflexivity.
      + destruct s as [| c2 s]; [discriminate |].
        apply andb_true_iff in Hp. destruct Hp as [Hm Hp].
        destruct (micro_bytes_spec c c2 Hm) as [Eq _].
        rewrite Eq, append_cons, Hm.
        cbn [String.length] in Hn. rewrite IH by (auto; lia). reflexivity. }
  apply (H (String.length s)). lia.
Qed.

Lemma unquote_quoted s : plain s = true -> unquote (quoted s) = Some s.
Proof.
  intros H. unfold quoted. cbn [unquote]. rewrite Ascii.eqb_refl.
  apply unquote_tail_plain, H.
Qed.

(** The codec of the modelled fragment keeps the laws. *)
Lemma plain_json_laws : json_laws plain_json.
Proof.
  split.
  - intros s H. cbn [Marshal_string plain_json]. rewrite H. reflexivity.
  - intros s H. cbn [Unmarshal_string plain_json].
    rewrite (unquote_quoted s H). reflexivity.
  - intros b n E [Hlo Hhi]. cbn [Unmarshal_int64 plain_json]. rewrite E.
    destruct (Z.leb_spec min_int64 n); [| lia].
    destruct (Z.leb_spec n max_int64); [reflexivity | lia].
Qed.

(** An integer literal is not empty and does not start with a quote. *)
Lemma decimal_head b n :
  decimal b = Some n ->
  exists c b', b = String c b' /\ Ascii.eqb c dquote = false.
Proof.
  destruct b as [| c b']; [discriminate |].
  intros H. exists c, b'. split; [reflexivity |].
  destruct (Ascii.eqb c dquote) eqn:E; [| reflexivity].
  apply Ascii.eqb_eq in E. subst c. exfalso. revert H.
  unfold decimal.
  change (Ascii.eqb dquote "-") with false. cbv iota.
  unfold decimal_nat.
  change (Ascii.eqb dquote "0") with false. cbv iota.
  cbn [decimal_digits].
  change (is_digit dquote) with false. cbv iota. discriminate.
Qed.
End PlainText.

Section DurationJSON.
Import GoTime ConfigDuration Digits.
Local Open Scope string_scope.
Local Open Scope Z_scope.
Context (A : FloatArith) (J : JSON).

(** A quoted duration string decodes to what [time.ParseDuration] reads. *)
Lemma UnmarshalJSON_string (d0 n : Z) (s : string) :
  Unmarshal_string (quoted s) = inr s -> ParseDuration A s = inr n ->
  UnmarshalJSON A d0 (quoted s) = (n, None).
Proof.
  intros Hs Hp. unfold UnmarshalJSON.
  change (quoted s) with (String dquote (s ++ String dquote "")) at 1.
  cbv iota. rewrite Ascii.eqb_refl, Hs, Hp. reflexivity.
Qed.

(** An integer literal decodes to its value, taken as nanoseconds. *)
Lemma UnmarshalJSON_number (d0 n : Z) (b : string) :
  decimal b = Some n -> Unmarshal_int64 b = inr n ->
  UnmarshalJSON A d0 b = (n, None).
Proof.
  intros Hd Hn. destruct (decimal_head b n Hd) as (c & b' & -> & Hc).
  unfold UnmarshalJSON. rewrite Hc, Hn. reflexivity.
Qed.

(** C9: a duration field accepts a human-readable string and an integer
    number of nanoseconds, both decoding to the same duration when they
    denote the same one; serialisation always writes the string form that
    [Duration.String] gives, and parsing what was serialised gives the
    duration back, for every duration.  [encoding/json] enters through its
    laws on plain strings and integer literals, [float64] through the one
    law that reading a printed fraction needs. *)
Theorem Duration_json_round_trip :
  frac_exact A -> json_laws J ->
  (forall (d0 n : Z) (s b : string),
      plain s = true -> ParseDuration A s = inr n ->
      decimal b = Some n -> in_int64 n ->
      UnmarshalJSON A d0 (quoted s) = (n, None)
      /\ UnmarshalJSON A d0 b = (n, None))
  /\ (forall d0 d : Z,
         in_int64 d ->
         MarshalJSON d = (quoted (String_ d), None)
         /\ UnmarshalJSON A d0 (fst (MarshalJSON d)) = (d, None)).
Proof.
  intros HA HJ. split.
  - intros d0 n s b Hs Hp Hb Hn. split.
    + apply UnmarshalJSON_string; [apply (Unmarshal_plain J HJ), Hs | exact Hp].
    + apply UnmarshalJSON_number; [exact Hb | apply (Unmarshal_decimal J HJ); assumption].
  - intros d0 d Hd.
    pose proof (plain_String d Hd) as Hpl.
    assert (Hm : MarshalJSON d = (quoted (String_ d), None)).
    { unfold MarshalJSON. apply (Marshal_plain J HJ), Hpl. }
    split; [exact Hm |].
    rewrite Hm. cbn [fst].
    apply UnmarshalJSON_string; [apply (Unmarshal_plain J HJ), Hpl |].
    apply ParseDuration_String; assumption.
Qed.
End DurationJSON.

Section DurationJSONExamples.
Import GoTime ConfigDuration Digits.
Local Open Scope string_scope.
Local Open Scope Z_scope.

Lemma Duration_json_round_trip_witness :
  (UnmarshalJSON Binary64.arith 7 (quoted "5m") = (300000000000, None)
   /\ UnmarshalJSON Binary64.arith 7 "300000000000" = (300000000000, None))
  /\ MarshalJSON (-1500) = (quoted ("-1.5" ++ micro ++ "s"), None)
  /\ UnmarshalJSON Binary64.arith 7 (fst (MarshalJSON (-1500))) = (-1500, None).
Proof.
  destruct (Duration_json_round_trip Binary64.arith plain_json
              Binary64_frac_exact plain_json_laws) as [Hboth Hround].
  split.
  - apply Hboth; [reflexivity | reflexivity | reflexivity |].
    unfold in_int64, min_int64, max_int64. lia.
  - apply (Hround 7 (-1500)). unfold in_int64, min_int64, max_int64. lia.
Defined.

(** On binary64 [time.ParseDuration] reads back every duration that
    [Duration.String] writes, and so does exact arithmetic. *)
Lemma ParseDuration_String_binary64 d :
  in_int64 d -> ParseDuration Binary64.arith (String_ d) = inr d.
Proof.
  apply ParseDuration_String, Binary64_frac_exact.
Qed.

Lemma ParseDuration_String_exact d :
  in_int64 d -> ParseDuration Exact.arith (String_ d) = inr d.
Proof.
  apply ParseDuration_String, Exact_frac_exact.
Qed.

(** The examples of the specification on binary64, with the codec of the
    modelled fragment: both forms of thirty seconds and of five minutes,
    and what is written for them. *)
Lemma Duration_json_examples :
  UnmarshalJSON Binary64.arith 7 (quoted "30s") = (30000000000, None)
  /\ UnmarshalJSON Binary64.arith 7 "30000000000" = (30000000000, None)
  /\ UnmarshalJSON Binary64.arith 7 (quoted "5m") = (300000000000, None)
  /\ UnmarshalJSON Binary64.arith 7 "300000000000" = (300000000000, None)
  /\ MarshalJSON 30000000000 = (quoted "30s", None)
  /\ MarshalJSON 300000000000 = (quoted "5m0s", None)
  /\ UnmarshalJSON Binary64.arith 7 (quoted "5m0s") = (300000000000, None)
  /\ UnmarshalJSON Binary64.arith 7 (quoted "1h2m3.5s") = (3723500000000, None)
  /\ UnmarshalJSON Binary64.arith 7 "" = (0, None).
Proof.
  vm_compute. repeat split.
Qed.
End DurationJSONExamples.

(** ** ExponentialBackoff on binary64 *)

Section Binary64Rounding.
Import Binary64.

Lemma Zdigits2_log2 m : 0 < m -> Zdigits2 m = Z.log2 m + 1.
Proof. destruct m as [| p | p]; try lia. intros _. apply digits2_log2. Qed.

Lemma fexp_spec e : fexp prec emax e = Z.max (e - 53) (-1074).
Proof. reflexivity. Qed.

Lemma shr_1_m mrs : 0 <= shr_m mrs -> shr_m (shr_1 mrs) = shr_m mrs / 2.
Proof.
  destruct mrs as [m r s]. cbn [shr_m]. intros Hm.
  destruct m as [| p | p]; try lia; [reflexivity |].
  destruct p as [p | p |]; cbn [shr_1 shr_m].
  - rewrite Pos2Z.inj_xI. apply (Z.div_unique _ _ _ 1); lia.
  - rewrite Pos2Z.inj_xO. apply (Z.div_unique _ _ _ 0); lia.
  - reflexivity.
Qed.

Lemma shr_iter_m p mrs :
  0 <= shr_m mrs ->
  shr_m (SpecFloat.iter_pos shr_1 p mrs) = shr_m mrs / 2 ^ Z.pos p.
Proof.
  rewrite iter_pos_iter. revert mrs.
  induction p as [| p IH] using Pos.peano_ind; intros mrs Hm.
  - cbn [Pos.iter]. rewrite shr_1_m by exact Hm. reflexivity.
  - rewrite Pos.iter_succ, shr_1_m.
    + rewrite IH by exact Hm. rewrite Pos2Z.inj_succ, Z.pow_succ_r by lia.
      rewrite Z.div_div by lia. f_equal. lia.
    + rewrite IH by exact Hm. apply Z.div_pos; lia.
Qed.

Lemma shr_record_of_loc_m m l : shr_m (shr_record_of_loc m l) = m.
Proof. destruct l as [| []]; reflexivity. Qed.

(** [shr_fexp] on a non-negative mantissa whose exponent is not above the
    target: the mantissa loses the low bits, the exponent is the target. *)
Lemma shr_fexp_m m e l :
  0 <= m -> e <= fexp prec emax (Zdigits2 m + e) ->
  shr_m (fst (shr_fexp prec emax m e l)) = m / 2 ^ (fexp prec emax (Zdigits2 m + e) - e)
  /\ snd (shr_fexp prec emax m e l) = fexp prec emax (Zdigits2 m + e).
Proof.
  intros Hm He. unfold shr_fexp.
  destruct (fexp prec emax (Zdigits2 m + e) - e) as [| p | p] eqn:En; try lia.
  - cbn [shr fst snd]. rewrite shr_record_of_loc_m, Z.div_1_r. split; [reflexivity | lia].
  - cbn [shr fst snd]. rewrite shr_iter_m by (rewrite shr_record_of_loc_m; exact Hm).
    rewrite shr_record_of_loc_m. split; [reflexivity | lia].
Qed.

Lemma round_nearest_even_cases m l :
  round_nearest_even m l = m \/ round_nearest_even m l = m + 1.
Proof.
  destruct l as [| []]; cbn [round_nearest_even]; auto.
  destruct (Z.even m); auto.
Qed.

(** The result of rounding a positive mantissa: zero or a finite number in
    canonical form, whose mantissa is the given one cut at the result's
    exponent, or that plus one. *)
Lemma round_aux_spec mz ez lz :
  0 < mz -> ez <= fexp prec emax (Zdigits2 mz + ez) ->
  exists m' e',
    binary_round_aux prec emax false mz ez lz
    = match m' with
      | Z0 => S754_zero false
      | Z.pos p => if e' <=? 971 then S754_finite false p e' else S754_infinity false
      | Z.neg _ => S754_nan
      end
    /\ 0 <= m'
    /\ fexp prec emax (Zdigits2 mz + ez) <= e' <= fexp prec emax (Zdigits2 mz + ez) + 1
    /\ mz / 2 ^ (e' - ez) <= m' <= mz / 2 ^ (e' - ez) + 1
    /\ (0 < m' -> fexp prec emax (Zdigits2 m' + e') = e').
Proof.
  intros Hm He.
  set (e1 := fexp prec emax (Zdigits2 mz + ez)) in *.
  destruct (shr_fexp_m mz ez lz ltac:(lia) He) as [Hs1 Hs2]. fold e1 in Hs1, Hs2.
  unfold binary_round_aux.
  destruct (shr_fexp prec emax mz ez lz) as [mrs1 e1'] eqn:E1.
  cbn [fst snd] in Hs1, Hs2. subst e1'.
  set (ms := mz / 2 ^ (e1 - ez)) in *.
  set (m1 := round_nearest_even (shr_m mrs1) (loc_of_shr_record mrs1)).
  assert (Hms0 : 0 <= ms) by (apply Z.div_pos; [lia | apply Z.pow_pos_nonneg; lia]).
  assert (Hemin : -1074 <= e1) by (unfold e1; rewrite fexp_spec; lia).
  assert (Hlog : Z.log2 mz + 1 + ez - 53 <= e1).
  { unfold e1. rewrite fexp_spec, Zdigits2_log2 by lia. lia. }
  assert (Hms53 : ms < 2 ^ 53).
  { unfold ms. apply Z.div_lt_upper_bound; [apply Z.pow_pos_nonneg; lia |].
    rewrite <- Z.pow_add_r by lia.
    destruct (Z.log2_spec mz Hm) as [_ Hup].
    eapply Z.lt_le_trans; [exact Hup |]. apply Z.pow_le_mono_r; lia. }
  assert (Hm1 : m1 = ms \/ m1 = ms + 1).
  { unfold m1. rewrite Hs1. apply round_nearest_even_cases. }
  assert (Hnorm : -1074 < e1 -> 2 ^ 52 <= ms).
  { intros Hn. assert (Ee : e1 = Z.log2 mz + 1 + ez - 53).
    { unfold e1 in *. rewrite fexp_spec, Zdigits2_log2 in * by lia. lia. }
    unfold ms. apply Z.div_le_lower_bound; [apply Z.pow_pos_nonneg; lia |].
    rewrite <- Z.pow_add_r by lia.
    destruct (Z.log2_spec mz Hm) as [Hlo _].
    eapply Z.le_trans; [| exact Hlo]. apply Z.pow_le_mono_r; lia. }
  destruct (Z.eq_dec m1 0) as [Ez | Hnz].
  { (* the mantissa vanished *)
    exists 0, e1. rewrite Ez.
    assert (E2 : shr_fexp prec emax 0 e1 loc_Exact
                 = ({| shr_m := 0; shr_r := false; shr_s := false |}, e1)).
    { unfold shr_fexp. cbn [Zdigits2 shr_record_of_loc]. rewrite fexp_spec.
      destruct (Z.max (0 + e1 - 53) (-1074) - e1) as [| p | p] eqn:En; try lia;
        reflexivity. }
    rewrite E2. cbn [shr_m]. split; [reflexivity |]. split; [lia |].
    split; [lia |]. split; [lia | lia]. }
  assert (Hm1pos : 0 < m1) by lia.
  destruct (Z.eq_dec m1 (2 ^ 53)) as [Etop | Hlt].
  { (* rounding carried into a 54th bit *)
    exists (2 ^ 52), (e1 + 1). rewrite Etop.
    assert (E2 : shr_fexp prec emax (2 ^ 53) e1 loc_Exact
                 = ({| shr_m := 2 ^ 52; shr_r := false; shr_s := false |}, e1 + 1)).
    { unfold shr_fexp. change (Zdigits2 (2 ^ 53)) with 54. rewrite fexp_spec.
      replace (Z.max (54 + e1 - 53) (-1074) - e1) with 1 by lia. reflexivity. }
    rewrite E2. cbn [shr_m]. change (2 ^ 52) with (Z.pos 4503599627370496) at 1.
    cbv iota. split; [reflexivity |]. split; [lia |]. split; [lia |].
    split.
    - replace (e1 + 1 - ez) with (e1 - ez + 1) by lia.
      rewrite Z.pow_add_r, <- Z.div_div by lia. fold ms.
      replace ms with (2 ^ 53 - 1) by lia. change ((2 ^ 53 - 1) / 2 ^ 1) with (2 ^ 52 - 1). lia.
    - intros _. change (Zdigits2 (2 ^ 52)) with 53. rewrite fexp_spec. lia. }
  (* the mantissa fits *)
  exists m1, e1.
  assert (Hd : Zdigits2 m1 <= 53).
  { rewrite Zdigits2_log2 by lia.
    assert (Z.log2 m1 < 53) by (apply Z.log2_lt_pow2; lia). lia. }
  assert (E2 : shr_fexp prec emax m1 e1 loc_Exact
               = ({| shr_m := m1; shr_r := false; shr_s := false |}, e1)).
  { unfold shr_fexp. rewrite fexp_spec.
    destruct (Z.max (Zdigits2 m1 + e1 - 53) (-1074) - e1) as [| p | p] eqn:En; try lia;
      reflexivity. }
  fold m1. rewrite E2. cbn [shr_m].
  destruct m1 as [| p | p] eqn:Ep; try lia.
  split; [reflexivity |]. split; [lia |]. split; [lia |].
  split; [fold ms; lia |].
  intros _. rewrite fexp_spec.
  destruct (Z.eq_dec e1 (-1074)) as [Ee | Hne]; [lia |].
  assert (H52 : 2 ^ 52 <= ms) by (apply Hnorm; lia).
  assert (Z.log2 (Z.pos p) = 52).
  { apply Z.log2_unique; lia. }
  rewrite Zdigits2_log2 by lia. lia.
Qed.


(** The comparison of two positive finite numbers. *)
Lemma SFltb_pos m1 e1 m2 e2 :
  SFltb (S754_finite false m1 e1) (S754_finite false m2 e2) = true
  <-> e1 < e2 \/ (e1 = e2 /\ Z.pos m1 < Z.pos m2).
Proof.
  unfold SFltb, SFcompare.
  destruct (Z.compare_spec e1 e2) as [E | E | E].
  - rewrite Pos.compare_cont_spec. cbn [Pos.switch_Eq].
    destruct (Pos.compare_spec m1 m2) as [Em | Em | Em]; split; intros H;
      try discriminate; try reflexivity; try lia.
  - split; [lia | reflexivity].
  - split; [discriminate | lia].
Qed.

(** The binary64 of a positive integer below [2^52]: a mantissa of 53 bits. *)
Lemma of_int64_normal z :
  0 < z < 2 ^ 52 ->
  exists a D, 0 < D <= 52 /\ D = 52 - Z.log2 z /\ Z.pos a = z * 2 ^ D
              /\ 2 ^ 52 <= Z.pos a < 2 ^ 53
              /\ of_int64 z = S754_finite false a (- D).
Proof.
  intros Hz. destruct (of_int64_small z Hz) as (a & d & Ed & Ea & E).
  exists a, (Z.pos d).
  assert (Hl : 0 <= Z.log2 z < 52).
  { split; [apply Z.log2_nonneg |]. apply Z.log2_lt_pow2; lia. }
  split; [lia |]. split; [exact Ed |]. split; [exact Ea |].
  split; [| exact E].
  destruct (Z.log2_spec z ltac:(lia)) as [Hlo Hhi].
  rewrite Ea, Ed. split.
  - replace 52 with (Z.log2 z + (52 - Z.log2 z)) at 1 by lia.
    rewrite Z.pow_add_r by lia. apply Z.mul_le_mono_nonneg_r; [| exact Hlo].
    apply Z.pow_nonneg. lia.
  - replace 53 with (Z.succ (Z.log2 z) + (52 - Z.log2 z)) by lia.
    rewrite Z.pow_add_r by lia. apply Z.mul_lt_mono_pos_r; [| exact Hhi].
    apply Z.pow_pos_nonneg; lia.
Qed.

Lemma of_int64_zero : of_int64 0 = S754_zero false.
Proof. reflexivity. Qed.

(** Truncation of a positive finite number with a negative or zero
    exponent and a mantissa of at most 53 bits. *)
Lemma to_int64_shift m g :
  0 <= g -> Z.pos m <= 2 ^ 53 ->
  to_int64 (S754_finite false m (- g)) = Z.pos m / 2 ^ g.
Proof.
  intros Hg Hm. cbn [to_int64].
  assert (Hp : 0 < 2 ^ g) by (apply Z.pow_pos_nonneg; lia).
  assert (Hq : 0 <= Z.pos m / 2 ^ g <= Z.pos m).
  { split; [apply Z.div_pos; lia |]. apply Z.div_le_upper_bound; [lia |]. nia. }
  destruct (Z.leb_spec 0 (- g)) as [H0 | H0].
  - assert (g = 0) by lia. subst g. change (- 0) with 0.
    rewrite Z.pow_0_r, Z.mul_1_r, Z.div_1_r.
    unfold min_int64, max_int64.
    destruct (Z.leb_spec (- 2 ^ 63) (Z.pos m)); [| lia].
    destruct (Z.leb_spec (Z.pos m) (2 ^ 63 - 1)); [reflexivity | lia].
  - rewrite Z.opp_involutive. unfold min_int64, max_int64.
    destruct (Z.leb_spec (- 2 ^ 63) (Z.pos m / 2 ^ g)); [| lia].
    destruct (Z.leb_spec (Z.pos m / 2 ^ g) (2 ^ 63 - 1)); [reflexivity | lia].
Qed.

(** The product of an integer and a positive number [my * 2^(-k)], cut to an
    integer: the result's mantissa and the exponent it is cut at. *)
Lemma SFmul_of_int64_trunc x my k :
  0 < x < 2 ^ 52 -> 0 < k -> x * Z.pos my < 2 ^ (52 + k) ->
  exists m' g D,
    to_int64 (SFmul prec emax (of_int64 x) (S754_finite false my (- k))) = m' / 2 ^ g
    /\ D = 52 - Z.log2 x
    /\ 0 <= m' /\ 0 <= g <= k + D
    /\ (x * Z.pos my * 2 ^ D) / 2 ^ (k + D - g) <= m'
       <= (x * Z.pos my * 2 ^ D) / 2 ^ (k + D - g) + 1
    /\ - g <= Z.max (Z.log2 (x * Z.pos my * 2 ^ D) + 1 - k - D - 53) (-1074) + 1.
Proof.
  intros Hx Hk HP.
  destruct (of_int64_normal x Hx) as (a & D & HD & ED & Ea & Ha & ->).
  cbn [SFmul xorb].
  set (mz := Z.pos (a * my)). set (ez := - D + - k).
  assert (Emz : mz = x * Z.pos my * 2 ^ D) by (unfold mz; rewrite Pos2Z.inj_mul, Ea; ring).
  assert (Hmz : 0 < mz) by (unfold mz; lia).
  assert (Hlogge : 52 <= Z.log2 mz).
  { apply Z.log2_le_pow2; [lia |]. unfold mz. rewrite Pos2Z.inj_mul. nia. }
  assert (Hloglt : Z.log2 mz < 52 + k + D).
  { apply Z.log2_lt_pow2; [lia |]. rewrite Emz.
    replace (52 + k + D) with (52 + k + D) by lia.
    rewrite (Z.pow_add_r 2 (52 + k) D) by lia.
    apply Z.mul_lt_mono_pos_r; [apply Z.pow_pos_nonneg; lia | exact HP]. }
  assert (Hpre : ez <= fexp prec emax (Zdigits2 mz + ez)).
  { rewrite fexp_spec, Zdigits2_log2 by lia. lia. }
  destruct (round_aux_spec mz ez loc_Exact Hmz Hpre) as (m' & e' & Er & Hm0 & He' & Hbr & _).
  rewrite fexp_spec, Zdigits2_log2 in He' by lia.
  assert (He0 : e' <= 0) by lia.
  exists m', (- e'), D.
  assert (Hn : e' - ez = k + D - - e') by (unfold ez; lia).
  rewrite Hn, Emz in Hbr.
  assert (Hm53 : m' <= 2 ^ 53).
  { destruct Hbr as [_ Hup]. eapply Z.le_trans; [exact Hup |].
    assert ((x * Z.pos my * 2 ^ D) / 2 ^ (k + D - - e') < 2 ^ 53); [| lia].
    apply Z.div_lt_upper_bound; [apply Z.pow_pos_nonneg; unfold ez in *; lia |].
    rewrite <- Z.pow_add_r by (unfold ez in *; lia).
    rewrite <- Emz. destruct (Z.log2_spec mz Hmz) as [_ Hup'].
    eapply Z.lt_le_trans; [exact Hup' |]. apply Z.pow_le_mono_r; unfold ez in *; lia. }
  split.
  { rewrite Er. destruct m' as [| p | p]; try lia.
    - cbn [to_int64]. rewrite Z.div_0_l; [reflexivity |].
      apply Z.pow_nonzero; lia.
    - destruct (Z.leb_spec e' 971); [| lia].
      replace e' with (- - e') at 1 by lia. apply to_int64_shift; lia. }
  split; [exact ED |]. split; [exact Hm0 |]. split; [unfold ez in *; lia |].
  split; [exact Hbr |]. rewrite <- Emz. unfold ez in *. lia.
Qed.

(** The integer part of the product, up to one. *)
Lemma SFmul_of_int64_floor x my k :
  0 < x < 2 ^ 52 -> 0 < k -> x * Z.pos my < 2 ^ (52 + k) ->
  (x * Z.pos my) / 2 ^ k
  <= to_int64 (SFmul prec emax (of_int64 x) (S754_finite false my (- k)))
  <= (x * Z.pos my) / 2 ^ k + 1.
Proof.
  intros Hx Hk HP.
  destruct (SFmul_of_int64_trunc x my k Hx Hk HP)
    as (m' & g & D & -> & ED & Hm0 & Hg & Hbr & _).
  assert (HD : 0 < D) by (assert (Z.log2 x < 52) by (apply Z.log2_lt_pow2; lia); lia).
  set (P := x * Z.pos my) in *.
  set (n := k + D - g) in *.
  assert (Hn : 0 <= n) by (unfold n; lia).
  assert (Hpg : 0 < 2 ^ g) by (apply Z.pow_pos_nonneg; lia).
  assert (Hpn : 0 < 2 ^ n) by (apply Z.pow_pos_nonneg; lia).
  assert (Hpk : 0 < 2 ^ k) by (apply Z.pow_pos_nonneg; lia).
  assert (HpD : 0 < 2 ^ D) by (apply Z.pow_pos_nonneg; lia).
  assert (Epow : 2 ^ k * 2 ^ D = 2 ^ g * 2 ^ n).
  { rewrite <- !Z.pow_add_r by lia. f_equal. unfold n. lia. }
  set (lo := P / 2 ^ k).
  assert (Hlo : lo * 2 ^ k <= P) by (unfold lo; rewrite Z.mul_comm; apply Z.mul_div_le; lia).
  assert (Hhi : P < (lo + 1) * 2 ^ k).
  { unfold lo. pose proof (Z.mul_succ_div_gt P (2 ^ k) Hpk). lia. }
  split.
  - apply Z.div_le_lower_bound; [lia |].
    eapply Z.le_trans; [| apply Hbr].
    apply Z.div_le_lower_bound; [lia |].
    transitivity (lo * 2 ^ k * 2 ^ D); [| nia].
    replace (2 ^ n * (2 ^ g * lo)) with (lo * (2 ^ g * 2 ^ n)) by ring.
    rewrite <- Epow. lia.
  - assert (Hdiv : P * 2 ^ D / 2 ^ n < (lo + 1) * 2 ^ g).
    { apply Z.div_lt_upper_bound; [lia |].
      replace (2 ^ n * ((lo + 1) * 2 ^ g)) with ((lo + 1) * (2 ^ g * 2 ^ n)) by ring.
      rewrite <- Epow. nia. }
    assert (m' <= (lo + 1) * 2 ^ g) by lia.
    assert (m' / 2 ^ g <= lo + 1); [| lia].
    apply Z.div_le_upper_bound; [lia |]. lia.
Qed.


Lemma log2_53 m : 2 ^ 52 <= m < 2 ^ 53 -> Z.log2 m = 52.
Proof. intros H. apply Z.log2_unique; lia. Qed.

(** [jitter := time.Duration(float64(delay) * 0.1)] is a tenth of the delay,
    cut to whole nanoseconds, for delays up to [2^50] ns. *)
Lemma jitter_of_binary64 d :
  0 <= d <= 2 ^ 50 -> Backoff.jitter_of arith d = d / 10.
Proof.
  intros Hd. unfold Backoff.jitter_of. cbn [to_int fmul of_int tenth arith].
  destruct (Z.eq_dec d 0) as [-> | Hnz]; [reflexivity |].
  unfold one_tenth.
  assert (Hx : 0 < d < 2 ^ 52) by lia.
  assert (HP : d * Z.pos 7205759403792794 < 2 ^ (52 + 56)) by lia.
  pose proof (SFmul_of_int64_floor d 7205759403792794 56 Hx ltac:(lia) HP) as [Hlo _].
  destruct (SFmul_of_int64_trunc d 7205759403792794 56 Hx ltac:(lia) HP)
    as (m' & g & D & ET & ED & Hm0 & Hg & Hbr & Hexp).
  change (Z.opp 56) with (Z.neg 56) in Hlo, ET.
  remember (to_int64 (SFmul prec emax (of_int64 d)
                        (S754_finite false 7205759403792794 (Z.neg 56)))) as T eqn:ETdef in *.
  clear ETdef.
  assert (Hl : 0 <= Z.log2 d <= 50).
  { split; [apply Z.log2_nonneg |].
    destruct (Z.eq_dec d (2 ^ 50)) as [-> | Hne]; [reflexivity |].
    assert (Z.log2 d < 50) by (apply Z.log2_lt_pow2; lia). lia. }
  assert (HD : 2 <= D <= 52) by lia.
  assert (HpD : 0 < 2 ^ D) by (apply Z.pow_pos_nonneg; lia).
  set (mz := d * Z.pos 7205759403792794 * 2 ^ D) in *.
  assert (Hmz : 0 < mz) by (unfold mz; nia).
  assert (Hmzlt : mz < 2 ^ 106).
  { unfold mz. destruct (Z.log2_spec d ltac:(lia)) as [_ Hup].
    assert (d * 2 ^ D < 2 ^ 53).
    { replace 53 with (Z.succ (Z.log2 d) + D) by lia.
      rewrite Z.pow_add_r by lia. nia. }
    nia. }
  assert (Hlogmz : Z.log2 mz < 106) by (apply Z.log2_lt_pow2; lia).
  assert (Hg2 : D + 2 <= g) by lia.
  set (n := 56 + D - g) in *.
  assert (Hn : 0 <= n <= 54) by (unfold n; lia).
  assert (Hpg : 0 < 2 ^ g) by (apply Z.pow_pos_nonneg; lia).
  assert (Hpn : 0 < 2 ^ n) by (apply Z.pow_pos_nonneg; lia).
  (* the lower side *)
  assert (Hlow : d / 10 <= T).
  { eapply Z.le_trans; [| exact Hlo].
    apply Z.div_le_lower_bound; [lia |].
    pose proof (Z.mul_div_le d 10 ltac:(lia)). change (2 ^ 56) with 72057594037927936. lia. }
  (* the upper side *)
  assert (HT : T * 2 ^ g <= m').
  { rewrite ET. rewrite Z.mul_comm. apply Z.mul_div_le. lia. }
  assert (Hm' : (m' - 1) * 2 ^ n <= mz).
  { destruct Hbr as [_ Hup].
    pose proof (Z.mul_div_le mz (2 ^ n) Hpn). nia. }
  assert (Epow : 2 ^ g * 2 ^ n = 2 ^ 56 * 2 ^ D).
  { rewrite <- !Z.pow_add_r by lia. f_equal. unfold n. lia. }
  assert (Hstep : 2 ^ n <= 4 * d * 2 ^ D).
  { transitivity (2 ^ 54); [apply Z.pow_le_mono_r; lia |].
    destruct (Z.log2_spec d ltac:(lia)) as [Hlo2 _].
    replace 54 with (2 + Z.log2 d + D) by lia.
    rewrite !Z.pow_add_r by lia. change (2 ^ 2) with 4. nia. }
  assert (Hup : T * 2 ^ 56 <= d * 7205759403792798).
  { assert (T * (2 ^ 56 * 2 ^ D) <= mz + 2 ^ n).
    { rewrite <- Epow. nia. }
    unfold mz in *.
    assert (T * 2 ^ 56 * 2 ^ D <= d * 7205759403792798 * 2 ^ D) by lia.
    apply Z.mul_le_mono_pos_r with (p := 2 ^ D); assumption. }
  assert (Hupper : T <= d / 10).
  { pose proof (Z.div_mod d 10 ltac:(lia)) as Edm.
    pose proof (Z.mod_pos_bound d 10 ltac:(lia)) as Hr.
    change (2 ^ 56) with 72057594037927936 in Hup.
    change (2 ^ 50) with 1125899906842624 in Hd. lia. }
  lia.
Qed.

Lemma valid_finite_canonical s m e :
  valid_binary prec emax (S754_finite s m e) = true ->
  fexp prec emax (Zdigits2 (Z.pos m) + e) = e /\ e <= 971.
Proof.
  cbn [valid_binary]. unfold bounded, canonical_mantissa.
  intros H. apply andb_true_iff in H as [H1 H2].
  apply Z.eqb_eq in H1. apply Z.leb_le in H2. cbn [Zdigits2].
  split; [exact H1 | exact H2].
Qed.

(** A valid finite number above one has a mantissa of 53 bits and an
    exponent of at least -52. *)
Lemma above_one_normal m e :
  valid_binary prec emax (S754_finite false m e) = true ->
  SFltb (of_int64 1) (S754_finite false m e) = true ->
  2 ^ 52 <= Z.pos m < 2 ^ 53 /\ -52 <= e <= 971.
Proof.
  intros Hv Hlt. apply valid_finite_canonical in Hv as [Hc He].
  change (of_int64 1) with (S754_finite false 4503599627370496 (-52)) in Hlt.
  apply SFltb_pos in Hlt.
  rewrite fexp_spec, Zdigits2_log2 in Hc by lia.
  assert (Z.log2 (Z.pos m) = 52) by lia.
  destruct (Z.log2_spec (Z.pos m) ltac:(lia)) as [Hlo Hhi].
  rewrite H in Hlo, Hhi. change (Z.succ 52) with 53 in Hhi. lia.
Qed.

(** A valid number in [0, 1): zero, or a finite positive number whose
    mantissa is below [2^k] at exponent [-k]. *)
Lemma unit_draw_cases r :
  valid_binary prec emax r = true ->
  SFltb r (of_int64 1) = true -> SFltb r (S754_zero false) = false ->
  (exists s, r = S754_zero s)
  \/ (exists m k, r = S754_finite false m (- k) /\ 53 <= k /\ Z.pos m < 2 ^ 53).
Proof.
  intros Hv H1 H0. destruct r as [s | s | | s m e].
  - left. exists s. reflexivity.
  - destruct s; discriminate.
  - discriminate.
  - destruct s; [discriminate |]. right.
    apply valid_finite_canonical in Hv as [Hc He].
    change (of_int64 1) with (S754_finite false 4503599627370496 (-52)) in H1.
    apply SFltb_pos in H1.
    rewrite fexp_spec, Zdigits2_log2 in Hc by lia.
    pose proof (Z.log2_nonneg (Z.pos m)) as Hl0.
    destruct (Z.log2_spec (Z.pos m) ltac:(lia)) as [Hlo Hhi].
    assert (Hl : Z.log2 (Z.pos m) <= 52) by lia.
    assert (Hm53 : Z.pos m < 2 ^ 53).
    { eapply Z.lt_le_trans; [exact Hhi |]. apply Z.pow_le_mono_r; lia. }
    assert (He52 : e < -52).
    { destruct H1 as [H1 | [H1 H2]]; [exact H1 |].
      assert (Z.log2 (Z.pos m) = 52) by lia.
      rewrite H in Hlo. change (2 ^ 52) with 4503599627370496 in Hlo. lia. }
    exists m, (- e). rewrite Z.opp_involutive.
    split; [reflexivity |]. split; [lia | exact Hm53].
Qed.

(** [time.Duration(float64(jitter*2) * rand.Float64())] lies between zero
    and twice the jitter. *)
Lemma draw_term_binary64 J r :
  0 <= J < 2 ^ 52 ->
  valid_binary prec emax r = true ->
  SFltb r (of_int64 1) = true -> SFltb r (S754_zero false) = false ->
  0 <= to_int64 (SFmul prec emax (of_int64 J) r) <= J.
Proof.
  intros HJ Hv H1 H0.
  destruct (unit_draw_cases r Hv H1 H0) as [[s ->] | (m & k & -> & Hk & Hm)].
  - destruct (Z.eq_dec J 0) as [-> | Hnz]; [cbn; lia |].
    destruct (of_int64_normal J ltac:(lia)) as (a & D & _ & _ & _ & _ & ->).
    cbn. lia.
  - destruct (Z.eq_dec J 0) as [-> | Hnz]; [cbn; lia |].
    assert (Hpk : 2 ^ 53 <= 2 ^ k) by (apply Z.pow_le_mono_r; lia).
    assert (HP : J * Z.pos m < 2 ^ (52 + k)).
    { rewrite Z.pow_add_r by lia. nia. }
    pose proof (SFmul_of_int64_floor J m k ltac:(lia) ltac:(lia) HP) as [Hlo Hhi].
    assert (Hq : 0 <= J * Z.pos m / 2 ^ k < J).
    { split; [apply Z.div_pos; lia |].
      apply Z.div_lt_upper_bound; [lia |]. nia. }
    lia.
Qed.


(** When the loop guard [float64(delay) < float64(MaxDelay) / Factor] holds,
    the factor's exponent is negative and the exact product of the delay
    and the factor is at most [MaxDelay]. *)
Lemma guard_product M mf ef x :
  0 < M <= 2 ^ 50 -> 0 < x < 2 ^ 52 ->
  2 ^ 52 <= Z.pos mf < 2 ^ 53 -> -52 <= ef <= 971 ->
  SFltb (of_int64 x) (SFdiv prec emax (of_int64 M) (S754_finite false mf ef)) = true ->
  ef < 0 /\ x * Z.pos mf <= M * 2 ^ (- ef).
Proof.
  intros HM Hx Hmf Hef Hg.
  destruct (of_int64_normal M ltac:(lia)) as (aM & DM & HDM & EDM & EaM & HaM & EM).
  destruct (of_int64_normal x Hx) as (ax & Dx & HDx & EDx & Eax & Hax & Ex).
  rewrite EM, Ex in Hg. cbn [SFdiv xorb] in Hg.
  unfold SFdiv_core_binary in Hg.
  rewrite !Zdigits2_log2 in Hg by lia.
  rewrite (log2_53 _ HaM), (log2_53 _ Hmf), fexp_spec in Hg.
  assert (HlM : Z.log2 M <= 50).
  { destruct (Z.eq_dec M (2 ^ 50)) as [-> | Hne]; [reflexivity |].
    assert (Z.log2 M < 50) by (apply Z.log2_lt_pow2; lia). lia. }
  assert (HDM2 : 2 <= DM) by lia.
  set (t := - DM - ef) in *.
  replace (52 + 1 + - DM - (52 + 1 + ef) - 53) with (t - 53) in Hg by (unfold t; lia).
  assert (Ee' : Z.min (Z.max (t - 53) (-1074)) t = Z.max (t - 53) (-1074))
    by (unfold t; lia).
  rewrite Ee' in Hg.
  set (e' := Z.max (t - 53) (-1074)) in *.
  assert (Hs : 0 < t - e' <= 53) by (unfold e', t; lia).
  destruct (t - e') as [| sp | sp] eqn:Es; try lia.
  rewrite Z.shiftl_mul_pow2 in Hg by lia.
  set (s := Z.pos sp) in *.
  assert (Hps : 0 < 2 ^ s) by (apply Z.pow_pos_nonneg; lia).
  assert (Hps2 : 2 <= 2 ^ s).
  { change 2 with (2 ^ 1) at 1. apply Z.pow_le_mono_r; lia. }
  pose proof (Z_div_mod_eq_full (Z.pos aM * 2 ^ s) (Z.pos mf)) as Ediv.
  pose proof (Z.mod_pos_bound (Z.pos aM * 2 ^ s) (Z.pos mf) ltac:(lia)) as Hmod.
  unfold Z.div, Z.modulo in Ediv, Hmod.
  destruct (Z.div_eucl (Z.pos aM * 2 ^ s) (Z.pos mf)) as [q r].
  assert (Hq1 : 1 <= q) by nia.
  assert (Hqmf : q * Z.pos mf <= Z.pos aM * 2 ^ s) by lia.
  assert (Hqlt : q < 2 ^ (s + 1)).
  { rewrite Z.pow_add_r by lia. change (2 ^ 1) with 2. nia. }
  assert (Hlogq : Z.log2 q < s + 1) by (apply Z.log2_lt_pow2; lia).
  assert (Hpre : e' <= fexp prec emax (Zdigits2 q + e')).
  { rewrite fexp_spec, Zdigits2_log2 by lia.
    destruct (Z.eq_dec e' (-1074)) as [E | E]; [lia |].
    assert (s = 53) by (unfold e', t in *; lia).
    assert (2 ^ 52 <= q).
    { assert (2 ^ 52 * Z.pos mf <= Z.pos aM * 2 ^ s).
      { rewrite H. nia. }
      nia. }
    assert (52 <= Z.log2 q) by (apply Z.log2_le_pow2; lia). lia. }
  destruct (round_aux_spec q e' (new_location (Z.pos mf) r) ltac:(lia) Hpre)
    as (mq & eq & Er & Hmq0 & Heq & Hbr & Hcan).
  rewrite Er in Hg. rewrite fexp_spec, Zdigits2_log2 in Heq by lia.
  rewrite fexp_spec, Zdigits2_log2 in Hpre by lia.
  destruct mq as [| mq | mq]; [discriminate | | lia].
  assert (Heq971 : eq <= 971) by (unfold e', t in *; lia).
  destruct (Z.leb_spec eq 971); [| lia].
  apply SFltb_pos in Hg.
  assert (Hge : - Dx <= eq) by lia.
  specialize (Hcan ltac:(lia)). rewrite fexp_spec, Zdigits2_log2 in Hcan by lia.
  assert (Hnormal : -1074 < eq) by lia.
  assert (Hlq : Z.log2 (Z.pos mq) = 52) by lia.
  destruct (Z.log2_spec (Z.pos mq) ltac:(lia)) as [Hmqlo Hmqhi].
  rewrite Hlq in Hmqlo, Hmqhi. change (Z.succ 52) with 53 in Hmqhi.
  assert (He'n : e' = t - 53) by (unfold e' in *; lia).
  assert (Hs53 : s = 53) by lia.
  assert (Hef0 : ef < 0) by (unfold t in *; lia).
  split; [exact Hef0 |].
  assert (Heq0 : eq < 0) by (unfold t in *; lia).
  (* the delay is on the grid of the rounded quotient, strictly below it *)
  assert (Hval : x * 2 ^ (- eq) < Z.pos mq).
  { assert (Hax' : Z.pos ax < Z.pos mq * 2 ^ (eq + Dx)).
    { destruct Hg as [Hlt | [Ee Hlt]].
      - assert (2 <= 2 ^ (eq + Dx)).
        { change 2 with (2 ^ 1) at 1. apply Z.pow_le_mono_r; lia. }
        nia.
      - replace (eq + Dx) with 0 by lia. lia. }
    assert (Ep : 2 ^ Dx = 2 ^ (- eq) * 2 ^ (eq + Dx)).
    { rewrite <- Z.pow_add_r by lia. f_equal. lia. }
    rewrite Eax, Ep in Hax'.
    assert (0 < 2 ^ (eq + Dx)) by (apply Z.pow_pos_nonneg; lia).
    nia. }
  set (n := eq - e') in *.
  assert (Hn : 0 <= n) by (unfold n; lia).
  assert (Hpn : 0 < 2 ^ n) by (apply Z.pow_pos_nonneg; lia).
  assert (Hq' : x * 2 ^ (- eq) * 2 ^ n <= q).
  { destruct Hbr as [_ Hup].
    pose proof (Z.mul_div_le q (2 ^ n) Hpn). nia. }
  assert (Epow : 2 ^ (- eq) * 2 ^ n = 2 ^ (DM + ef + 53)).
  { rewrite <- Z.pow_add_r by lia. f_equal. unfold n, t in *. lia. }
  assert (Epow2 : 2 ^ DM * 2 ^ s = 2 ^ (DM + ef + 53) * 2 ^ (- ef)).
  { rewrite <- !Z.pow_add_r by (unfold t in *; lia). f_equal. lia. }
  assert (Hp3 : 0 < 2 ^ (DM + ef + 53)) by (apply Z.pow_pos_nonneg; unfold t in *; lia).
  assert (Hfinal : x * Z.pos mf * 2 ^ (DM + ef + 53) <= M * 2 ^ (- ef) * 2 ^ (DM + ef + 53)).
  { transitivity (q * Z.pos mf); [rewrite <- Epow; nia |].
    eapply Z.le_trans; [exact Hqmf |]. rewrite EaM.
    replace (M * 2 ^ DM * 2 ^ s) with (M * (2 ^ DM * 2 ^ s)) by ring.
    rewrite Epow2. lia. }
  apply Z.mul_le_mono_pos_r with (p := 2 ^ (DM + ef + 53)); assumption.
Qed.

(** One multiplication of the loop when the guard lets it happen: the new
    delay is the exact product cut to whole nanoseconds, or one more; it is
    not below the old delay and not above [MaxDelay + 1]. *)
Lemma grow_step_binary64 M f x :
  0 <= M <= 2 ^ 50 -> 0 < x < 2 ^ 52 ->
  valid_binary prec emax f = true -> SFltb (of_int64 1) f = true ->
  SFltb (of_int64 x) (SFdiv prec emax (of_int64 M) f) = true ->
  x <= to_int64 (SFmul prec emax (of_int64 x) f) <= M + 1.
Proof.
  intros HM Hx Hv H1 Hg.
  destruct (of_int64_normal x Hx) as (ax & Dx & HDx & EDx & Eax & Hax & Ex).
  destruct (Z.eq_dec M 0) as [-> | HM0].
  { rewrite of_int64_zero, Ex in Hg.
    destruct f as [s | s | | s m e]; try discriminate;
      destruct s; discriminate. }
  destruct f as [s | s | | s m e]; try discriminate.
  { (* the factor is infinite: the quotient is zero *)
    destruct (of_int64_normal M ltac:(lia)) as (aM & DM & _ & _ & _ & _ & EM).
    rewrite EM, Ex in Hg. destruct s; discriminate. }
  destruct s; [discriminate |].
  destruct (above_one_normal m e Hv H1) as [Hm He].
  destruct (guard_product M m e x ltac:(lia) Hx Hm He Hg) as [He0 HP].
  set (k := - e) in *.
  assert (Hk : 0 < k <= 52) by (unfold k; lia).
  assert (Hpk : 0 < 2 ^ k) by (apply Z.pow_pos_nonneg; lia).
  assert (HP52 : x * Z.pos m < 2 ^ (52 + k)).
  { rewrite Z.pow_add_r by lia. nia. }
  replace e with (- k) by (unfold k; lia).
  pose proof (SFmul_of_int64_floor x m k Hx ltac:(lia) HP52) as [Hlo Hhi].
  assert (Hfl : x <= x * Z.pos m / 2 ^ k <= M).
  { split.
    - apply Z.div_le_lower_bound; [lia |].
      assert (2 ^ k <= 2 ^ 52) by (apply Z.pow_le_mono_r; lia). nia.
    - apply Z.div_le_upper_bound; [lia |]. lia. }
  lia.
Qed.


End Binary64Rounding.

Section BackoffLoop.
Import Backoff BackoffSteps.
Context (A : FloatArith).

Lemma multiplied_succ_r (f : F A) j d :
  multiplied A f (S j) d = multiplied A f j (to_int A (fmul A (of_int A d) f)).
Proof. unfold multiplied. rewrite Nat.iter_succ_r. reflexivity. Qed.

(** The loop multiplies until the guard fails or the attempts are used
    up. *)
Lemma grow_multiplied (f m : F A) n d :
  exists j, (j <= n)%nat
    /\ grow A f m n d = multiplied A f j d
    /\ (forall i, (i < j)%nat -> flt A (of_int A (multiplied A f i d)) m = true)
    /\ ((j < n)%nat -> flt A (of_int A (multiplied A f j d)) m = false).
Proof.
  revert d. induction n as [| n IH]; intros d.
  - exists O. split; [lia |]. split; [reflexivity |]. split; intros; lia.
  - cbn [grow]. destruct (flt A (of_int A d) m) eqn:Eg.
    + destruct (IH (to_int A (fmul A (of_int A d) f))) as (j & Hj & Eq & Hlt & Hstop).
      exists (S j). split; [lia |]. split; [rewrite multiplied_succ_r; exact Eq |].
      split.
      * intros i Hi. destruct i as [| i]; [exact Eg |].
        rewrite multiplied_succ_r. apply Hlt. lia.
      * intros Hn. rewrite multiplied_succ_r. apply Hstop. lia.
    + exists O. split; [lia |]. split; [reflexivity |].
      split; [intros; lia | intros _; exact Eg].
Qed.
End BackoffLoop.

Section BackoffBinary64.
Import Backoff BackoffSteps Binary64 Binary64Value.

Lemma to_Q_product x m k :
  0 < k ->
  (inject_Z x * to_Q (S754_finite false m (- k))
   == inject_Z (x * Z.pos m) / inject_Z (2 ^ k))%Q.
Proof.
  intros Hk. cbn [to_Q]. rewrite Qpower_opp, inject_Z_mult.
  rewrite (Zpower_Qpower 2 k) by lia. change (inject_Z 2) with 2%Q.
  unfold Qdiv. ring.
Qed.

(** The exact product, as a rational, against its integer part. *)
Lemma product_floor x m k :
  0 < k ->
  let P := (inject_Z x * to_Q (S754_finite false m (- k)))%Q in
  (inject_Z (x * Z.pos m / 2 ^ k) <= P)%Q
  /\ (P < inject_Z (x * Z.pos m / 2 ^ k + 1))%Q.
Proof.
  intros Hk P. unfold P.
  assert (Hp : 0 < 2 ^ k) by (apply Z.pow_pos_nonneg; lia).
  assert (HpQ : (0 < inject_Z (2 ^ k))%Q).
  { change 0%Q with (inject_Z 0). rewrite <- Zlt_Qlt. exact Hp. }
  rewrite to_Q_product by exact Hk.
  pose proof (Z.mul_div_le (x * Z.pos m) (2 ^ k) Hp) as Hlo.
  pose proof (Z.mul_succ_div_gt (x * Z.pos m) (2 ^ k) Hp) as Hhi.
  split.
  - apply Qle_shift_div_l; [exact HpQ |].
    rewrite <- inject_Z_mult, <- Zle_Qle. lia.
  - apply Qlt_shift_div_r; [exact HpQ |].
    rewrite <- inject_Z_mult, <- Zlt_Qlt. lia.
Qed.

(** One multiplication of the loop, against the exact product. *)
Lemma grow_step_value M f x :
  0 <= M <= 2 ^ 50 -> 0 < x < 2 ^ 52 -> above_one f ->
  below_limit arith M f x = true ->
  let x' := multiplied arith f 1 x in
  x <= x' <= M + 1
  /\ (inject_Z x * to_Q f <= inject_Z M)%Q
  /\ (inject_Z x * to_Q f - 1 < inject_Z x')%Q
  /\ (inject_Z x' <= inject_Z x * to_Q f + 1)%Q.
Proof.
  intros HM Hx [Hv H1] Hg x'.
  unfold below_limit in Hg. cbn [flt of_int fdiv arith] in Hg.
  pose proof (grow_step_binary64 M f x HM Hx Hv H1 Hg) as Hstep.
  unfold x'.
  change (multiplied arith f 1 x) with (to_int64 (SFmul prec emax (of_int64 x) f)).
  split; [exact Hstep |].
  destruct (of_int64_normal x Hx) as (ax & Dx & HDx & EDx & Eax & Hax & Ex).
  destruct (Z.eq_dec M 0) as [-> | HM0].
  { rewrite of_int64_zero, Ex in Hg.
    destruct f as [s | s | | s m e]; try discriminate; destruct s; discriminate. }
  destruct f as [s | s | | s m e]; try discriminate.
  { destruct (of_int64_normal M ltac:(lia)) as (aM & DM & _ & _ & _ & _ & EM).
    rewrite EM, Ex in Hg. destruct s; discriminate. }
  destruct s; [discriminate |].
  destruct (above_one_normal m e Hv H1) as [Hm He].
  destruct (guard_product M m e x ltac:(lia) Hx Hm He Hg) as [He0 HP].
  set (k := - e) in *.
  assert (Hk : 0 < k <= 52) by (unfold k; lia).
  assert (Hpk : 0 < 2 ^ k) by (apply Z.pow_pos_nonneg; lia).
  assert (HP52 : x * Z.pos m < 2 ^ (52 + k)).
  { rewrite Z.pow_add_r by lia. nia. }
  replace e with (- k) in * by (unfold k; lia).
  pose proof (SFmul_of_int64_floor x m k Hx ltac:(lia) HP52) as [Hlo Hhi].
  destruct (product_floor x m k ltac:(lia)) as [Qlo Qhi].
  set (P := (inject_Z x * to_Q (S754_finite false m (- k)))%Q) in *.
  set (T := to_int64 (SFmul prec emax (of_int64 x) (S754_finite false m (- k)))) in *.
  set (fl := x * Z.pos m / 2 ^ k) in *.
  assert (HflM : fl <= M).
  { unfold fl. apply Z.div_le_upper_bound; lia. }
  split; [| split].
  - (* the exact product is at most the maximum *)
    unfold P. rewrite to_Q_product by lia.
    apply Qle_shift_div_r.
    + change 0%Q with (inject_Z 0). rewrite <- Zlt_Qlt. exact Hpk.
    + rewrite <- inject_Z_mult, <- Zle_Qle. exact HP.
  - assert (HT : (inject_Z (fl + 1) <= inject_Z T + 1)%Q).
    { change 1%Q with (inject_Z 1). rewrite <- inject_Z_plus, <- Zle_Qle. lia. }
    lra.
  - assert (HT : (inject_Z T <= inject_Z fl + 1)%Q).
    { change 1%Q with (inject_Z 1). rewrite <- inject_Z_plus, <- Zle_Qle. lia. }
    lra.
Qed.

Lemma multiplied_S f i d0 :
  multiplied arith f (S i) d0 = multiplied arith f 1 (multiplied arith f i d0).
Proof. reflexivity. Qed.

(** While the guard holds, the delays stay within the range in which the
    conversions are exact. *)
Lemma multiplied_range M f d0 j :
  0 <= M <= 2 ^ 50 -> 0 < d0 <= 2 ^ 50 -> above_one f ->
  (forall i, (i < j)%nat -> below_limit arith M f (multiplied arith f i d0) = true) ->
  forall i, (i <= j)%nat ->
    d0 <= multiplied arith f i d0 <= Z.max d0 (M + 1).
Proof.
  intros HM Hd0 Hf Hg. induction i as [| i IH]; intros Hi.
  - cbn. lia.
  - specialize (IH ltac:(lia)).
    rewrite multiplied_S.
    destruct (grow_step_value M f (multiplied arith f i d0) HM ltac:(lia) Hf
                (Hg i ltac:(lia))) as (Hs & _).
    lia.
Qed.

(** The delay before jitter on binary64: the loop's result, clamped. *)
Lemma base_delay_binary64 (b : ExponentialBackoff arith) k :
  0 < InitialDelay _ b <= 2 ^ 50 -> 0 <= MaxDelay _ b <= 2 ^ 50 ->
  above_one (Factor _ b) -> 0 <= k ->
  let d0 := InitialDelay _ b in
  let M := MaxDelay _ b in
  let f := Factor _ b in
  exists j : nat,
    Z.of_nat j <= k
    /\ base_delay arith b k = Z.min (multiplied arith f j d0) M
    /\ (forall i, (i < j)%nat ->
          let x := multiplied arith f i d0 in
          let x' := multiplied arith f (S i) d0 in
          below_limit arith M f x = true
          /\ x <= x'
          /\ (inject_Z x * to_Q f <= inject_Z M)%Q
          /\ (inject_Z x * to_Q f - 1 < inject_Z x')%Q
          /\ (inject_Z x' <= inject_Z x * to_Q f + 1)%Q)
    /\ (Z.of_nat j < k -> below_limit arith M f (multiplied arith f j d0) = false)
    /\ d0 <= multiplied arith f j d0.
Proof.
  intros Hd0 HM Hf Hk d0 M f.
  destruct (grow_multiplied arith f (fdiv arith (of_int arith M) f) (Z.to_nat k) d0)
    as (j & Hj & Eg & Hlt & Hstop).
  exists j. split; [lia |].
  pose proof (multiplied_range M f d0 j HM Hd0 Hf Hlt) as Hr.
  split.
  { unfold base_delay. fold d0 M f. rewrite Eg.
    destruct (Z.gtb_spec (multiplied arith f j d0) M); lia. }
  split.
  { intros i Hi x x'. split; [apply Hlt; exact Hi |].
    pose proof (Hr i ltac:(lia)) as Hx.
    destruct (grow_step_value M f x HM ltac:(unfold x; lia) Hf (Hlt i Hi))
      as (Hs & Q1 & Q2 & Q3).
    unfold x'. rewrite multiplied_S. fold x. repeat split; try assumption; lia. }
  split; [intros Hjk; apply Hstop; lia |].
  apply (Hr j). lia.
Qed.

(** The jittered delay on binary64 stays within a tenth of the delay. *)
Lemma add_jitter_binary64 d r :
  0 <= d <= 2 ^ 50 -> unit_draw r ->
  d - d / 10 <= add_jitter arith d r <= d + d / 10.
Proof.
  intros Hd (Hv & H1 & H0). unfold add_jitter.
  rewrite jitter_of_binary64 by exact Hd.
  assert (Hj : 0 <= d / 10 <= d).
  { split; [apply Z.div_pos; lia | apply Z.div_le_upper_bound; lia]. }
  set (j := d / 10) in *.
  rewrite (wrap64_id (d - j)) by (unfold in_int64, min_int64, max_int64; lia).
  rewrite (wrap64_id (j * 2)) by (unfold in_int64, min_int64, max_int64; lia).
  cbn [to_int fmul of_int arith].
  pose proof (draw_term_binary64 (j * 2) r ltac:(lia) Hv H1 H0) as Ht.
  rewrite wrap64_id by (unfold in_int64, min_int64, max_int64; lia).
  lia.
Qed.

End BackoffBinary64.

Section BackoffWindowBinary64.
Import Backoff BackoffSteps Binary64 Binary64Value BackoffClaim.

(** C2, as the code has it, on binary64.  For an attempt [k >= 1] (an
    attempt [k <= 0] is answered as the internal attempt plus one), with
    [0 < InitialDelay] and [0 <= MaxDelay], both at most [2^50] ns (about 13
    days), a [Factor] above one and a draw in [0, 1):

    - the delay before jitter [d] is [InitialDelay] multiplied by [Factor]
      [j] times and then clamped to [MaxDelay], where [j <= k] is the first
      index at which the guard [float64(delay) < float64(MaxDelay)/Factor]
      fails, or [k]; each multiplication gives the exact product cut to
      whole nanoseconds or one nanosecond more, never less than the delay it
      started from, and that exact product is at most [MaxDelay];
    - [min(InitialDelay, MaxDelay) <= d <= MaxDelay];
    - [NextDelay k] returns a delay within [d - d/10, d + d/10], hence
      within [0.9 d, 1.1 d], and at most [MaxDelay + MaxDelay/10], which can
      exceed [MaxDelay];
    - it records [k] as the internal attempt. *)
Theorem NextDelay_window_binary64 (b : ExponentialBackoff arith) (k : Z)
    (r : spec_float) :
  0 < InitialDelay _ b <= 2 ^ 50 -> 0 <= MaxDelay _ b <= 2 ^ 50 ->
  above_one (Factor _ b) -> 1 <= k -> unit_draw r ->
  let d0 := InitialDelay _ b in
  let M := MaxDelay _ b in
  let f := Factor _ b in
  let d := base_delay arith b k in
  let delay := fst (NextDelay arith b k r) in
  (exists j : nat,
      Z.of_nat j <= k
      /\ d = Z.min (multiplied arith f j d0) M
      /\ (forall i, (i < j)%nat ->
            let x := multiplied arith f i d0 in
            let x' := multiplied arith f (S i) d0 in
            below_limit arith M f x = true
            /\ x <= x'
            /\ (inject_Z x * to_Q f <= inject_Z M)%Q
            /\ (inject_Z x * to_Q f - 1 < inject_Z x')%Q
            /\ (inject_Z x' <= inject_Z x * to_Q f + 1)%Q)
      /\ (Z.of_nat j < k ->
          below_limit arith M f (multiplied arith f j d0) = false))
  /\ Z.min d0 M <= d <= M
  /\ d - d / 10 <= delay <= d + d / 10
  /\ 9 * d <= 10 * delay <= 11 * d
  /\ delay <= M + M / 10
  /\ attempt _ (snd (NextDelay arith b k r)) = k
  /\ forall k', k' <= 0 ->
       NextDelay arith b k' r = NextDelay arith b (wrap64 (attempt _ b + 1)) r.
Proof.
  intros Hd0 HM Hf Hk Hr d0 M f d delay.
  destruct (base_delay_binary64 b k Hd0 HM Hf ltac:(lia))
    as (j & Hj & Ed & Hsteps & Hstop & Hge).
  fold d0 M f d in Hj, Ed, Hsteps, Hstop, Hge.
  assert (Hdb : Z.min d0 M <= d <= M) by lia.
  assert (Hd : 0 <= d <= 2 ^ 50) by (unfold d0, M in *; lia).
  assert (Heff : effective_attempt arith b k = k).
  { unfold effective_attempt. destruct (Z.leb_spec k 0); [lia | reflexivity]. }
  assert (Hdelay : delay = add_jitter arith d r).
  { unfold delay, NextDelay, d. rewrite Heff. reflexivity. }
  pose proof (add_jitter_binary64 d r Hd Hr) as Hjit. rewrite <- Hdelay in Hjit.
  pose proof (Z.mul_div_le d 10 ltac:(lia)) as Hfl.
  assert (Hdd : d / 10 <= M / 10) by (apply Z.div_le_mono; lia).
  split.
  { exists j. split; [exact Hj |]. split; [exact Ed |].
    split; [exact Hsteps | exact Hstop]. }
  split; [exact Hdb |]. split; [exact Hjit |]. split; [lia |]. split; [lia |].
  split; [rewrite NextDelay_attempt; exact Heff |].
  intros k' Hk'. apply NextDelay_nonpositive. exact Hk'.
Qed.

Lemma NextDelay_window_binary64_witness :
  let b := ScenarioBackoff.start_strategy 1000000000 in
  base_delay arith b 9 = 256000000000
  /\ 9 * 256000000000
     <= 10 * fst (NextDelay arith b 9 ScenarioBackoff.three_quarters)
     <= 11 * 256000000000
  /\ attempt _ (snd (NextDelay arith b 9 ScenarioBackoff.three_quarters)) = 9.
Proof.
  intros b.
  assert (H1 : 0 < InitialDelay _ b <= 2 ^ 50) by (split; [reflexivity | discriminate]).
  assert (H2 : 0 <= MaxDelay _ b <= 2 ^ 50) by (split; discriminate).
  assert (H3 : above_one (Factor _ b)) by (split; reflexivity).
  assert (H4 : 1 <= 9) by discriminate.
  assert (H5 : unit_draw ScenarioBackoff.three_quarters) by (repeat split; reflexivity).
  destruct (NextDelay_window_binary64 b 9 ScenarioBackoff.three_quarters H1 H2 H3 H4 H5)
    as (_ & _ & _ & Hw & _ & Ha & _).
  assert (E : base_delay arith b 9 = 256000000000) by (vm_compute; reflexivity).
  rewrite E in Hw. split; [exact E |]. split; [exact Hw | exact Ha].
Defined.
End BackoffWindowBinary64.

(** * Further properties of the code *)

(** ** CachingDNSResolver: misses, failures and the rest of the cache *)

Section ResolverCache.
Import Resolver ResolverFacts.

Lemma Resolve_when_live (r : CachingDNSResolver) (name : string) (e : resolve_env) :
  live r name (now e) = true ->
  Resolve r name e = ((entry_IP (fst (cache_lookup r name)), None), r, []).
Proof.
  unfold live, Resolve. destruct (cache_lookup r name) as [entry ex].
  cbn [fst snd]. intros ->. reflexivity.
Qed.

Lemma Resolve_lookup_iff_not_live_aux (r : CachingDNSResolver) (name : string)
    (e : resolve_env) :
  live r name (now e) = false ->
  snd (Resolve r name e) = [LookupIP (DNSServer r) name].
Proof.
  unfold live, Resolve. destruct (cache_lookup r name) as [entry ex].
  cbn [fst snd]. intros ->.
  destruct (ctx_done_first e); [reflexivity |].
  destruct (dnsLookupResult e) as [ip [err |]]; reflexivity.
Qed.

(** X1: A successful lookup is remembered: when no live entry exists, the
    context stays live and the lookup answers at least one address,
    [Resolve] returns the first address, and every later [Resolve] of the
    same name strictly before [now + CacheTTL] seconds returns that address
    without a lookup and without changing the resolver. *)
Theorem Resolve_then_cached (r : CachingDNSResolver) (name : string)
    (e e' : resolve_env) (ip : IP) (ips : list IP) :
  live r name (now e) = false ->
  ctx_done_first e = false ->
  lookup e = (ip :: ips, None) ->
  now e' < now e + wrap64 (CacheTTL r * 1000000000) ->
  let r' := snd (fst (Resolve r name e)) in
  fst (fst (Resolve r name e)) = (ip, None)
  /\ Resolve r' name e' = ((ip, None), r', []).
Proof.
  intros Hl Hc Hk Ht. unfold live in Hl.
  assert (E : Resolve r name e
              = ((ip, None),
                 {| DNSServer := DNSServer r; CacheTTL := CacheTTL r;
                    cache := <[name := {| entry_IP := ip;
                                          ExpiresAt := now e
                                            + wrap64 (CacheTTL r * 1000000000) |}]>
                               (cache r) |},
                 [LookupIP (DNSServer r) name])).
  { unfold Resolve. destruct (cache_lookup r name) as [entry ex].
    cbn [fst snd] in Hl. rewrite Hl, Hc. unfold dnsLookupResult. rewrite Hk.
    reflexivity. }
  rewrite E. cbn [fst snd]. split; [reflexivity |].
  rewrite Resolve_when_live.
  - unfold cache_lookup. cbn [cache]. rewrite lookup_insert_eq. reflexivity.
  - unfold live, cache_lookup. cbn [cache]. rewrite lookup_insert_eq.
    cbn [fst snd ExpiresAt andb]. apply Z.ltb_lt. exact Ht.
Qed.

Lemma Resolve_then_cached_witness :
  let r := NewCachingDNSResolver "" 0 in
  let ip := ScenarioResolver.example_ip in
  let r' := snd (fst (Resolve r "example.com" (answered 1000 [ip]))) in
  fst (fst (Resolve r "example.com" (answered 1000 [ip]))) = (ip, None)
  /\ Resolve r' "example.com" (ScenarioResolver.at_time 600000000999)
     = ((ip, None), r', []).
Proof.
  intros r ip.
  apply (Resolve_then_cached r "example.com" (answered 1000 [ip])
           (ScenarioResolver.at_time 600000000999) ip []);
    reflexivity.
Defined.

(** X2: Failures are not cached: whenever [Resolve] returns an error, the
    address is nil, the resolver is unchanged and one lookup was started;
    the error is the context's, the lookup's, or [net.ErrClosed] for an
    empty answer. *)
Theorem Resolve_error_not_cached (r : CachingDNSResolver) (name : string)
    (e : resolve_env) (err : error) :
  snd (fst (fst (Resolve r name e))) = Some err ->
  Resolve r name e = ((nil_IP, Some err), r, [LookupIP (DNSServer r) name])
  /\ ((ctx_done_first e = true /\ err = ctx_error e)
      \/ (ctx_done_first e = false /\ snd (lookup e) = Some err)
      \/ (ctx_done_first e = false /\ lookup e = ([], None) /\ err = ErrClosed)).
Proof.
  unfold Resolve. destruct (cache_lookup r name) as [entry ex].
  destruct (ex && (now e <? ExpiresAt entry)); [discriminate |].
  destruct (ctx_done_first e).
  { cbn [fst snd]. intros [= <-]. split; [reflexivity | left; auto]. }
  unfold dnsLookupResult.
  destruct (lookup e) as [[| ip ips] [lerr |]]; cbn [fst snd].
  - intros [= <-]. split; [reflexivity | right; left; auto].
  - intros [= <-]. split; [reflexivity | right; right; auto].
  - intros [= <-]. split; [reflexivity | right; left; auto].
  - discriminate.
Qed.

Lemma Resolve_error_not_cached_witness :
  Resolve ScenarioResolver.warm "example.org" (answered 5 [])
  = ((nil_IP, Some ErrClosed), ScenarioResolver.warm,
     [LookupIP "8.8.8.8:53" "example.org"]).
Proof.
  apply (Resolve_error_not_cached ScenarioResolver.warm "example.org"
           (answered 5 []) ErrClosed).
  reflexivity.
Defined.

(** [Resolve] starts a lookup exactly when the cache holds no live entry for
    the name, and then exactly one, at the configured server. *)
Theorem Resolve_lookup_iff_not_live (r : CachingDNSResolver) (name : string)
    (e : resolve_env) :
  snd (Resolve r name e)
  = if live r name (now e) then [] else [LookupIP (DNSServer r) name].
Proof.
  unfold live, Resolve. destruct (cache_lookup r name) as [entry ex].
  cbn [fst snd].
  destruct (ex && (now e <? ExpiresAt entry)); [reflexivity |].
  destruct (ctx_done_first e); [reflexivity |].
  destruct (dnsLookupResult e) as [ip [err |]]; reflexivity.
Qed.

(** X3: [Resolve] touches the entry of the name it is asked for and nothing
    else: the entries of all other names, the server and the TTL stay as
    they were, whatever happens. *)
Theorem Resolve_other_names_untouched (r : CachingDNSResolver)
    (name other : string) (e : resolve_env) :
  other <> name ->
  let r' := snd (fst (Resolve r name e)) in
  cache r' !! other = cache r !! other
  /\ DNSServer r' = DNSServer r
  /\ CacheTTL r' = CacheTTL r.
Proof.
  intros Hne. unfold Resolve. destruct (cache_lookup r name) as [entry ex].
  destruct (ex && (now e <? ExpiresAt entry)); [auto |].
  destruct (ctx_done_first e); [auto |].
  destruct (dnsLookupResult e) as [ip [err |]]; [auto |].
  cbn [fst snd cache DNSServer CacheTTL].
  rewrite lookup_insert_ne by congruence. auto.
Qed.

Lemma Resolve_other_names_untouched_witness :
  cache (snd (fst (Resolve ScenarioResolver.warm "example.org"
                     (answered 5 [ScenarioResolver.example_ip]))))
    !! "example.com"%string
  = cache ScenarioResolver.warm !! "example.com"%string.
Proof.
  apply (Resolve_other_names_untouched ScenarioResolver.warm "example.org"
           "example.com" (answered 5 [ScenarioResolver.example_ip])).
  discriminate.
Defined.

(** X4: A resolver that was just created, or whose cache was just cleared,
    answers nothing from the cache: the next [Resolve] of any name starts a
    lookup.  A new resolver always has a positive TTL and a server, the
    defaults being 600 seconds and 8.8.8.8:53. *)
Theorem Resolve_after_new_or_clear (dnsServer : string) (ttl : Z)
    (r : CachingDNSResolver) (name : string) (e : resolve_env) :
  let r0 := NewCachingDNSResolver dnsServer ttl in
  0 < CacheTTL r0
  /\ CacheTTL r0 = (if ttl <=? 0 then 600 else ttl)
  /\ DNSServer r0 <> ""%string
  /\ snd (Resolve r0 name e) = [LookupIP (DNSServer r0) name]
  /\ snd (Resolve (ClearCache r) name e) = [LookupIP (DNSServer r) name].
Proof.
  intros r0. split; [| split; [| split; [| split]]].
  - unfold r0, NewCachingDNSResolver. cbn [CacheTTL].
    destruct (Z.leb_spec ttl 0); lia.
  - reflexivity.
  - unfold r0, NewCachingDNSResolver. cbn [DNSServer].
    destruct (String.eqb_spec dnsServer ""); [discriminate | assumption].
  - rewrite Resolve_lookup_iff_not_live_aux; [reflexivity |].
    unfold live, cache_lookup, r0, NewCachingDNSResolver. cbn [cache].
    rewrite lookup_empty. reflexivity.
  - rewrite Resolve_lookup_iff_not_live_aux; [reflexivity |].
    unfold live, cache_lookup, ClearCache. cbn [cache].
    rewrite lookup_empty. reflexivity.
Qed.
End ResolverCache.

(** ** TimeoutConn without an idle timeout *)

Section TimeoutConnDisabled.
Import TimeoutConn.
Context {C : Type} `{NetConn C}.

(** X6: With an idle timeout of zero or less, [Read] and [Write] set no deadline
    at all: the embedded call is the only call made on the connection and
    its result is returned as it is. *)
Theorem TimeoutConn_no_deadline (c : TimeoutConn C) (now : Z)
    (b : list Byte.byte) :
  IdleTimeout c <= 0 ->
  Read c now b = (with_conn c (fst (conn_Read (Conn c) b)),
                  snd (conn_Read (Conn c) b), [ConnRead b])
  /\ Write c now b = (with_conn c (fst (conn_Write (Conn c) b)),
                      snd (conn_Write (Conn c) b), [ConnWrite b]).
Proof.
  intros HT. unfold Read, Write.
  destruct (Z.gtb_spec (IdleTimeout c) 0) as [Hgt | _]; [lia |].
  split.
  - destruct (conn_Read (Conn c) b) as [conn res]. reflexivity.
  - destruct (conn_Write (Conn c) b) as [conn res]. reflexivity.
Qed.
End TimeoutConnDisabled.

Lemma TimeoutConn_no_deadline_witness :
  let c := {| TimeoutConn.Conn := ScenarioConn.closed;
              TimeoutConn.IdleTimeout := -1 |} in
  TimeoutConn.Read c 1000 ScenarioConn.payload
  = (c, (4, None), [TimeoutConn.ConnRead ScenarioConn.payload]).
Proof.
  intros c.
  destruct (TimeoutConn_no_deadline c 1000 ScenarioConn.payload) as [Hr _].
  - simpl. lia.
  - rewrite Hr. reflexivity.
Defined.

(** ** TunnelStats: the counters *)

Section StatsCounters.
Import Stats.

Lemma wrapU64_add_l a b : wrapU64 (wrapU64 a + b) = wrapU64 (a + b).
Proof. unfold wrapU64. apply Zplus_mod_idemp_l. Qed.

Lemma wrapU64_add_r a b : wrapU64 (a + wrapU64 b) = wrapU64 (a + b).
Proof. unfold wrapU64. apply Zplus_mod_idemp_r. Qed.

Lemma wrapU64_swap x a b :
  wrapU64 (wrapU64 (x + a) + b) = wrapU64 (wrapU64 (x + b) + a).
Proof. rewrite !wrapU64_add_l. f_equal. lia. Qed.

(** X8: The counters do not depend on the order in which the two copy loops and
    the connection code record their events: any two of the recording
    operations commute (a handshake with the packet and error counters, the
    packet and error counters among themselves). *)
Theorem Record_commute (s : TunnelStats) (a b now : Z) :
  RecordPacketIn a (RecordPacketIn b s) = RecordPacketIn b (RecordPacketIn a s)
  /\ RecordPacketOut a (RecordPacketOut b s) = RecordPacketOut b (RecordPacketOut a s)
  /\ RecordPacketIn a (RecordPacketOut b s) = RecordPacketOut b (RecordPacketIn a s)
  /\ RecordError (RecordPacketIn a s) = RecordPacketIn a (RecordError s)
  /\ RecordError (RecordPacketOut a s) = RecordPacketOut a (RecordError s)
  /\ RecordHandShake now (RecordPacketIn a s) = RecordPacketIn a (RecordHandShake now s)
  /\ RecordHandShake now (RecordPacketOut a s) = RecordPacketOut a (RecordHandShake now s)
  /\ RecordHandShake now (RecordError s) = RecordError (RecordHandShake now s).
Proof.
  unfold RecordPacketIn, RecordPacketOut, RecordError, RecordHandShake.
  cbn [PacketsIn PacketsOut BytesIn BytesOut Errors HandShake LastReconnect].
  repeat split; f_equal; apply wrapU64_swap.
Qed.
End StatsCounters.

(** ** The buffer pool over a history of calls *)

Section PoolOverTime.
Import Pool PoolHistory.

Lemma apply_ops_invariant (ops : list op) (n : NetBuffer) :
  wf n ->
  Forall (fun b => buf_cap b = capacity n) (fst (apply_ops ops n))
  /\ wf (snd (apply_ops ops n))
  /\ capacity (snd (apply_ops ops n)) = capacity n.
Proof.
  revert n. induction ops as [| o ops IH]; intros n Hwf.
  - cbn [apply_ops fst snd]. auto.
  - destruct o as [pick | b]; cbn [apply_ops].
    + pose proof (GetBuf_cap pick n Hwf) as Hc.
      pose proof (GetBuf_wf pick n Hwf) as Hw.
      pose proof (GetBuf_capacity pick n) as Hk.
      destruct (GetBuf pick n) as [b n']. cbn [fst snd] in *.
      destruct (IH n' Hw) as (I1 & I2 & I3).
      destruct (apply_ops ops n') as [bs n'']. cbn [fst snd] in *.
      split; [| split; [exact I2 | congruence]].
      constructor; [exact Hc |].
      rewrite Hk in I1. exact I1.
    + pose proof (PutBuf_wf b n Hwf) as Hw.
      pose proof (PutBuf_capacity b n) as Hk.
      destruct (IH (PutBuf b n) Hw) as (I1 & I2 & I3).
      split; [| split; [exact I2 | congruence]].
      rewrite Hk in I1. exact I1.
Qed.

(** X9: Whatever is handed to [PutBuf], in whatever order, and whatever
    [sync.Pool] chooses to hand out: every buffer that [GetBuf] returns from
    a pool made by [NewNetBuffer(c)] has capacity exactly [c]. *)
Theorem GetBuf_always_configured_capacity (c : Z) (n : NetBuffer)
    (ops : list op) :
  NewNetBuffer c = Done n ->
  0 < c
  /\ Forall (fun b => buf_cap b = c) (fst (apply_ops ops n))
  /\ capacity (snd (apply_ops ops n)) = c.
Proof.
  unfold NewNetBuffer. destruct (Z.leb_spec c 0) as [Hle | Hgt]; [discriminate |].
  intros [= <-]. split; [exact Hgt |].
  destruct (apply_ops_invariant ops
              {| capacity := c; pooled := []; next_id := 0 |}) as (I1 & _ & I3).
  { constructor. }
  auto.
Qed.

Lemma GetBuf_always_configured_capacity_witness :
  let n := {| capacity := 1280; pooled := []; next_id := 0 |} in
  let foreign := {| buf_id := 7; buf_cap := 9000 |} in
  Forall (fun b => buf_cap b = 1280)
    (fst (apply_ops [OpPut foreign; OpGet (Some O); OpGet None] n)).
Proof.
  intros n foreign.
  apply (GetBuf_always_configured_capacity 1280 n
           [OpPut foreign; OpGet (Some O); OpGet None]).
  reflexivity.
Defined.

(** A buffer of the pool's capacity that is put back is the one handed out
    when [sync.Pool] picks the most recent item, and the pool is then as it
    was before the two calls. *)
Theorem PutBuf_then_GetBuf (b : buffer) (n : NetBuffer) :
  buf_cap b = capacity n ->
  GetBuf (Some O) (PutBuf b n) = (b, n).
Proof.
  intros Hc. unfold PutBuf, GetBuf. rewrite Hc, Z.eqb_refl. cbn [negb].
  cbn [pooled capacity next_id lookup]. destruct n as [cn pn idn].
  reflexivity.
Qed.

Lemma PutBuf_then_GetBuf_witness :
  let n := {| capacity := 1280; pooled := []; next_id := 1 |} in
  let b := {| buf_id := 0; buf_cap := 1280 |} in
  GetBuf (Some O) (PutBuf b n) = (b, n).
Proof.
  intros n b. apply (PutBuf_then_GetBuf b n). reflexivity.
Defined.
End PoolOverTime.

(** ** The copy loops: counters and the error channel *)

Section ForwardingCounters.
Import Stats Pool Forwarding ScenarioForwarding ForwardingFacts.

Lemma ingress_step_delivered (e : ingress_env) (w : world) :
  wf (pool w) -> delivered e -> ingress_fits (capacity (pool w)) e ->
  exists w',
    ingress_step e w = (Continue, w')
    /\ stats w' = RecordPacketIn (fst (in_read e)) (stats w)
    /\ wf (pool w')
    /\ capacity (pool w') = capacity (pool w).
Proof.
  intros Hwf (Hdone & Hread & Hwrite) Hfit. unfold ingress_step.
  rewrite Hdone.
  pose proof (get_buf_spec (in_pick e) w) as Hg.
  destruct (get_buf (in_pick e) w) as [buf w1].
  destruct Hg as (Hb & Hp & Hs & Ht).
  assert (Hbc : buf_cap buf = capacity (pool w)).
  { rewrite Hb. apply GetBuf_cap. exact Hwf. }
  assert (Hwf1 : wf (pool w1)) by (rewrite Hp; apply GetBuf_wf; exact Hwf).
  assert (Hc1 : capacity (pool w1) = capacity (pool w))
    by (rewrite Hp; apply GetBuf_capacity).
  unfold ingress_fits in Hfit. specialize (Hfit Hread).
  destruct (in_read e) as [n oerr]. cbn [fst snd] in *. subst oerr.
  unfold slice_ok. rewrite Hbc.
  destruct (Z.leb_spec 0 n); [| lia].
  destruct (Z.leb_spec n (capacity (pool w))); [| lia].
  cbn [andb negb]. cbv iota. rewrite Hwrite.
  destruct (capacity (pool w) <? 2 * packetBuffCap).
  - eexists. split; [reflexivity |]. cbn. rewrite Hs.
    split; [reflexivity |]. split; [apply PutBuf_wf; exact Hwf1 |].
    rewrite PutBuf_capacity. exact Hc1.
  - eexists. split; [reflexivity |]. cbn. rewrite Hs. auto.
Qed.

(** X11: While the MASQUE-to-device loop delivers packets, the inbound counters
    count them exactly (modulo [2^64]): one packet per iteration and the
    bytes that the reads report; the outbound, error and handshake counters
    do not move.  This holds for every MTU. *)
Theorem ingress_loop_counts (script : list ingress_env) (w : world) :
  wf (pool w) ->
  is_uint64 (PacketsIn (stats w)) -> is_uint64 (BytesIn (stats w)) ->
  Forall delivered script ->
  Forall (ingress_fits (capacity (pool w))) script ->
  let r := ingress_loop script w in
  fst r = Running
  /\ PacketsIn (stats (snd r))
     = wrapU64 (PacketsIn (stats w) + Z.of_nat (length script))
  /\ BytesIn (stats (snd r)) = wrapU64 (BytesIn (stats w) + total_read script)
  /\ PacketsOut (stats (snd r)) = PacketsOut (stats w)
  /\ BytesOut (stats (snd r)) = BytesOut (stats w)
  /\ Errors (stats (snd r)) = Errors (stats w)
  /\ HandShake (stats (snd r)) = HandShake (stats w).
Proof.
  assert (Hin : forall x, is_uint64 x -> wrapU64 x = x)
    by (intros x Hx; unfold wrapU64; apply Z.mod_small; exact Hx).
  assert (Hrange : forall x, is_uint64 (wrapU64 x)).
  { intros x. unfold is_uint64, wrapU64. apply Z.mod_pos_bound. reflexivity. }
  revert w. induction script as [| e rest IH]; intros w Hwf Hp Hb Hdel Hfits r.
  - unfold r, total_read. cbn. rewrite !Z.add_0_r, !Hin by assumption.
    repeat split.
  - inversion Hdel as [| ? ? He Hrest]; subst.
    inversion Hfits as [| ? ? Hfe Hfrest]; subst.
    destruct (ingress_step_delivered e w Hwf He Hfe) as (w' & Es & Hst & Hwf' & Hc').
    unfold r, ingress_loop. cbn [run]. rewrite Es.
    fold (ingress_loop rest w').
    assert (Hp' : is_uint64 (PacketsIn (stats w')))
      by (rewrite Hst; apply Hrange).
    assert (Hb' : is_uint64 (BytesIn (stats w')))
      by (rewrite Hst; apply Hrange).
    rewrite <- Hc' in Hfrest.
    destruct (IH w' Hwf' Hp' Hb' Hrest Hfrest) as (I1 & I2 & I3 & I4 & I5 & I6 & I7).
    rewrite I1, I2, I3, I4, I5, I6, I7, Hst.
    cbn [PacketsIn BytesIn PacketsOut BytesOut Errors HandShake RecordPacketIn].
    unfold total_read. cbn [List.map fold_right length].
    fold (total_read rest).
    rewrite wrapU64_add_r, !wrapU64_add_l.
    repeat split; f_equal; lia.
Qed.

Lemma ingress_loop_counts_witness :
  let r := ingress_loop [ingress_ok; ingress_ok; ingress_ok] (start 9000) in
  fst r = Running
  /\ PacketsIn (stats (snd r)) = 3
  /\ BytesIn (stats (snd r)) = 180.
Proof.
  intros r.
  destruct (ingress_loop_counts [ingress_ok; ingress_ok; ingress_ok] (start 9000))
    as (H1 & H2 & H3 & _).
  - constructor.
  - cbn. unfold is_uint64. lia.
  - cbn. unfold is_uint64. lia.
  - repeat constructor.
  - repeat constructor; cbn; lia.
  - unfold r. rewrite H1, H2, H3. repeat split.
Defined.

(** X12: The outbound counters count what was read from the device, not what
    was delivered: once [ReadPacket] has returned [n] bytes, the packet and
    its bytes are counted, also when [ipConn.WritePacket] then fails.  The
    inbound packet counter moves in this loop only for an ICMP reply that
    was written back to the device. *)
Theorem egress_counts_before_write (e : egress_env) (w : world) (n : Z) :
  wf (pool w) ->
  eg_done e = false ->
  eg_read e = (n, None) ->
  0 <= n <= capacity (pool w) ->
  let s' := stats (snd (egress_step e w)) in
  PacketsOut s' = wrapU64 (PacketsOut (stats w) + 1)
  /\ BytesOut s' = wrapU64 (BytesOut (stats w) + wrapU64 n)
  /\ Errors s' = Errors (stats w)
  /\ PacketsIn s'
     = (if match eg_write e, eg_icmp e with
           | (icmp, None), None => 0 <? Z.of_nat (length icmp)
           | _, _ => false
           end
        then wrapU64 (PacketsIn (stats w) + 1) else PacketsIn (stats w)).
Proof.
  intros Hwf Hdone Hread Hn. unfold egress_step. rewrite Hdone.
  pose proof (get_buf_spec (eg_pick e) w) as Hg.
  destruct (get_buf (eg_pick e) w) as [buf w1].
  destruct Hg as (Hb & Hp & Hs & Ht).
  assert (Hbc : buf_cap buf = capacity (pool w)).
  { rewrite Hb. apply GetBuf_cap. exact Hwf. }
  rewrite Hread. unfold slice_ok. rewrite Hbc.
  destruct (Z.leb_spec 0 n); [| lia].
  destruct (Z.leb_spec n (capacity (pool w))); [| lia].
  cbn [andb negb]. cbv iota.
  destruct (eg_write e) as [icmp [err |]].
  { cbn. rewrite Hs. destruct (eg_icmp e); repeat split. }
  destruct (capacity (pool w) <? 2 * packetBuffCap);
    destruct (0 <? Z.of_nat (length icmp));
    destruct (eg_icmp e) as [err |]; cbn; rewrite Hs; repeat split.
Qed.

Lemma egress_counts_before_write_witness :
  let e := {| eg_done := false; eg_pick := None; eg_read := (60, None);
              eg_write := ([], Some "timeout"%string); eg_icmp := None |} in
  PacketsOut (stats (snd (egress_step e (start 1280)))) = 1
  /\ BytesOut (stats (snd (egress_step e (start 1280)))) = 60.
Proof.
  intros e.
  destruct (egress_counts_before_write e (start 1280) 60) as (H1 & H2 & _).
  - constructor.
  - reflexivity.
  - reflexivity.
  - cbn. lia.
  - rewrite H1, H2. split; reflexivity.
Defined.

Lemma errors_sent_app t1 t2 :
  errors_sent (t1 ++ t2) = (errors_sent t1 + errors_sent t2)%nat.
Proof.
  induction t1 as [| ev t1 IH]; [reflexivity |].
  destruct ev; cbn [errors_sent List.app]; rewrite ?IH; reflexivity.
Qed.

Ltac sent_path Ht :=
  eexists; split;
  [ cbn; rewrite ?Ht; rewrite <- ?List.app_assoc; cbn [List.app]; reflexivity
  | cbn [fst sends_at_most_once];
    first [ reflexivity
          | right;
            match goal with
            | |- exists pre err, ?l = _ /\ _ => exists (removelast l)
            end;
            eexists; split; cbn; reflexivity ] ].

Lemma egress_step_sends (e : egress_env) (w : world) :
  exists evs,
    trace (snd (egress_step e w)) = trace w ++ evs
    /\ sends_at_most_once (fst (egress_step e w)) evs.
Proof.
  unfold egress_step. destruct (eg_done e).
  { exists []. cbn. rewrite List.app_nil_r. split; [reflexivity | left; reflexivity]. }
  pose proof (get_buf_spec (eg_pick e) w) as Hg.
  destruct (get_buf (eg_pick e) w) as [buf w1].
  destruct Hg as (_ & _ & _ & Ht).
  destruct (eg_read e) as [n [err |]]; [sent_path Ht |].
  destruct (negb (slice_ok buf n)); [sent_path Ht |].
  destruct (eg_write e) as [icmp [err |]]; [sent_path Ht |].
  destruct (buf_cap buf <? 2 * packetBuffCap);
    destruct (0 <? Z.of_nat (length icmp));
    try destruct (eg_icmp e) as [err |]; sent_path Ht.
Qed.

Lemma ingress_step_sends (e : ingress_env) (w : world) :
  exists evs,
    trace (snd (ingress_step e w)) = trace w ++ evs
    /\ sends_at_most_once (fst (ingress_step e w)) evs.
Proof.
  unfold ingress_step. destruct (in_done e).
  { exists []. cbn. rewrite List.app_nil_r. split; [reflexivity | left; reflexivity]. }
  pose proof (get_buf_spec (in_pick e) w) as Hg.
  destruct (get_buf (in_pick e) w) as [buf w1].
  destruct Hg as (_ & _ & _ & Ht).
  destruct (in_read e) as [n [err |]]; [sent_path Ht |].
  destruct (negb (slice_ok buf n)); [sent_path Ht |].
  destruct (in_write e) as [err |]; [sent_path Ht |].
  destruct (buf_cap buf <? 2 * packetBuffCap); sent_path Ht.
Qed.

Lemma run_sends {E : Type} (step : E -> world -> step_result * world) :
  (forall e w, exists evs,
      trace (snd (step e w)) = trace w ++ evs
      /\ sends_at_most_once (fst (step e w)) evs) ->
  forall script w,
    errors_sent (trace w) = O ->
    let r := run step script w in
    (errors_sent (trace (snd r)) <= 1)%nat
    /\ (errors_sent (trace (snd r)) = 1%nat ->
        fst r = Returned /\ ends_with_error (trace (snd r)))
    /\ (fst r = Running -> errors_sent (trace (snd r)) = O).
Proof.
  intros Hstep script. induction script as [| e rest IH]; intros w Hw r.
  - unfold r. cbn. rewrite Hw. repeat split; try lia; try discriminate.
  - unfold r. cbn [run].
    destruct (Hstep e w) as (evs & Ht & Hs).
    destruct (step e w) as [[| | msg] w'] eqn:Es; cbn [fst snd] in *.
    + apply IH. rewrite Ht, errors_sent_app, Hw, Hs. reflexivity.
    + rewrite Ht, errors_sent_app, Hw.
      destruct Hs as [-> | (pre & err & -> & Hpre)].
      * cbn. repeat split; try lia; try discriminate.
      * rewrite errors_sent_app, Hpre. cbn.
        split; [lia |]. split; [| intros; try lia; try discriminate].
        intros _. split; [reflexivity |].
        exists (trace w ++ pre), err. rewrite List.app_assoc. reflexivity.
    + rewrite Ht, errors_sent_app, Hw, Hs. cbn.
      repeat split; try lia; try discriminate.
Qed.

(** X13: Each copy loop sends at most one error on [errChan], as the last thing
    it does before it returns; a loop that is still running, or that was
    stopped by the context or a panic, has sent none.  With two loops, the
    two slots of the channel are never exceeded. *)
Theorem copy_loops_send_at_most_one_error
    (out : list egress_env) (inc : list ingress_env) (w : world) :
  errors_sent (trace w) = O ->
  let ro := egress_loop out w in
  let ri := ingress_loop inc w in
  ((errors_sent (trace (snd ro)) <= 1)%nat
   /\ (errors_sent (trace (snd ro)) = 1%nat ->
       fst ro = Returned /\ ends_with_error (trace (snd ro)))
   /\ (fst ro = Running -> errors_sent (trace (snd ro)) = O))
  /\ ((errors_sent (trace (snd ri)) <= 1)%nat
      /\ (errors_sent (trace (snd ri)) = 1%nat ->
          fst ri = Returned /\ ends_with_error (trace (snd ri)))
      /\ (fst ri = Running -> errors_sent (trace (snd ri)) = O)).
Proof.
  intros Hw. split.
  - apply (run_sends egress_step egress_step_sends out w Hw).
  - apply (run_sends ingress_step ingress_step_sends inc w Hw).
Qed.

Lemma copy_loops_send_at_most_one_error_witness :
  (errors_sent (trace (snd (egress_loop [egress_ok; egress_read_fails; egress_ok]
                              (start 1280)))) <= 1)%nat
  /\ (errors_sent (trace (snd (ingress_loop [ingress_ok] (start 1280)))) <= 1)%nat.
Proof.
  destruct (copy_loops_send_at_most_one_error
              [egress_ok; egress_read_fails; egress_ok] [ingress_ok] (start 1280))
    as [(Ho & _) (Hi & _)].
  - reflexivity.
  - split; assumption.
Defined.

Lemma forwarding_releases_exactly_once_witness :
  exactly_once None
    (trace (snd (egress_loop [egress_ok; egress_read_fails] (start 1280)))) = true
  /\ exactly_once None
       (trace (snd (ingress_loop [ingress_ok; ingress_ok] (start 1280)))) = true.
Proof.
  destruct (forwarding_releases_exactly_once 1280) as [He Hi].
  - unfold packetBuffCap. lia.
  - split.
    + apply He. repeat constructor; cbn; intros; try lia; try discriminate.
    + apply Hi. repeat constructor; cbn; intros; lia.
Defined.

End ForwardingCounters.

(** ** ExponentialBackoff: saturation, a zero delay, and the attempt used *)

Section BackoffSaturation.
Import Backoff.
Context (A : FloatArith).

Lemma grow_stopped (f maxf : F A) (n m : nat) (d : Z) :
  flt A (of_int A (grow A f maxf n d)) maxf = false ->
  grow A f maxf (n + m) d = grow A f maxf n d.
Proof.
  revert d. induction n as [| n IH]; intros d Hstop.
  - cbn [grow Nat.add] in *. destruct m as [| m]; [reflexivity |].
    cbn [grow]. rewrite Hstop. reflexivity.
  - cbn [grow Nat.add] in *.
    destruct (flt A (of_int A d) maxf) eqn:E; [| reflexivity].
    apply IH. exact Hstop.
Qed.

(** X14: Saturation is final, on every arithmetic: once the loop of [NextDelay]
    has stopped at attempt [k] because the delay is no longer below
    [MaxDelay / Factor], every later attempt starts from the same delay
    before jitter. *)
Theorem base_delay_saturates (b : ExponentialBackoff A) (k k' : Z) :
  0 <= k <= k' ->
  flt A (of_int A (grow A (Factor A b)
                     (fdiv A (of_int A (MaxDelay A b)) (Factor A b))
                     (Z.to_nat k) (InitialDelay A b)))
    (fdiv A (of_int A (MaxDelay A b)) (Factor A b)) = false ->
  base_delay A b k' = base_delay A b k.
Proof.
  intros Hk Hstop. unfold base_delay.
  replace (Z.to_nat k') with (Z.to_nat k + Z.to_nat (k' - k))%nat by lia.
  rewrite (grow_stopped _ _ _ _ _ Hstop). reflexivity.
Qed.
End BackoffSaturation.

Lemma base_delay_saturates_witness :
  Backoff.base_delay Binary64.arith (ScenarioBackoff.start_strategy 1000000000) 50
  = Backoff.base_delay Binary64.arith (ScenarioBackoff.start_strategy 1000000000) 8
  /\ Backoff.base_delay Binary64.arith (ScenarioBackoff.start_strategy 1000000000) 8
     = 256000000000.
Proof.
  split; [| vm_compute; reflexivity].
  apply (base_delay_saturates Binary64.arith
           (ScenarioBackoff.start_strategy 1000000000) 8 50).
  - lia.
  - vm_compute. reflexivity.
Defined.

Section BackoffZeroDelay.
Import Backoff Binary64 Binary64Facts.

Lemma SFmul_zero_l (s : bool) (y : spec_float) :
  finite y = true -> to_int64 (SFmul prec emax (S754_zero s) y) = 0.
Proof.
  destruct y; cbn; try discriminate; reflexivity.
Qed.

Lemma grow_zero (f maxf : spec_float) (n : nat) :
  finite f = true -> grow arith f maxf n 0 = 0.
Proof.
  intros Hf. induction n as [| n IH]; [reflexivity |].
  cbn [grow]. destruct (flt arith (of_int arith 0) maxf); [| reflexivity].
  change (to_int arith (fmul arith (of_int arith 0) f))
    with (to_int64 (SFmul prec emax (S754_zero false) f)).
  rewrite SFmul_zero_l by exact Hf. exact IH.
Qed.

(** X15: A reconnect delay of zero stays zero on binary64: with
    [InitialDelay = 0], a [MaxDelay] that is not negative and a factor that
    is a number, [NextDelay] returns 0 for every attempt and every random
    draw that is a number, so the maintenance loop retries without a
    pause. *)
Theorem NextDelay_zero_initial_delay (b : ExponentialBackoff arith)
    (k : Z) (r : spec_float) :
  InitialDelay arith b = 0 ->
  0 <= MaxDelay arith b ->
  finite (Factor arith b) = true ->
  finite r = true ->
  fst (NextDelay arith b k r) = 0.
Proof.
  intros Hd HM Hf Hr. unfold NextDelay. cbn [fst].
  assert (Hb : base_delay arith b (effective_attempt arith b k) = 0).
  { unfold base_delay. rewrite Hd, grow_zero by exact Hf.
    destruct (Z.gtb_spec 0 (MaxDelay arith b)); [lia | reflexivity]. }
  rewrite Hb. unfold add_jitter, jitter_of.
  change (to_int arith (fmul arith (of_int arith 0) (tenth arith))) with 0.
  change (wrap64 (0 * 2)) with 0. change (wrap64 (0 - 0)) with 0.
  change (to_int arith (fmul arith (of_int arith 0) r))
    with (to_int64 (SFmul prec emax (S754_zero false) r)).
  rewrite SFmul_zero_l by exact Hr. reflexivity.
Qed.

Lemma NextDelay_zero_initial_delay_witness :
  fst (NextDelay arith (ScenarioBackoff.start_strategy 0) 7
         ScenarioBackoff.three_quarters) = 0.
Proof.
  apply (NextDelay_zero_initial_delay (ScenarioBackoff.start_strategy 0) 7
           ScenarioBackoff.three_quarters).
  - reflexivity.
  - cbn. lia.
  - reflexivity.
  - reflexivity.
Defined.
End BackoffZeroDelay.

Section BackoffAttemptSource.
Import Backoff.
Context (A : FloatArith).

(** Which attempt [NextDelay] computes from: a positive argument is used as
    it is and the stored attempt plays no part; an argument of zero or less
    continues from the stored attempt, so the first such call after [Reset]
    is answered as attempt 1.  In both cases the attempt used is stored. *)
Theorem NextDelay_attempt_source (b : ExponentialBackoff A) (k : Z) (r : F A) :
  (0 < k ->
   forall stored : Z,
     NextDelay A {| InitialDelay := InitialDelay A b; MaxDelay := MaxDelay A b;
                    Factor := Factor A b; attempt := stored |} k r
     = (add_jitter A (base_delay A b k) r,
        {| InitialDelay := InitialDelay A b; MaxDelay := MaxDelay A b;
           Factor := Factor A b; attempt := k |}))
  /\ (k <= 0 ->
      NextDelay A (Reset A b) k r
      = (add_jitter A (base_delay A b 1) r,
         {| InitialDelay := InitialDelay A b; MaxDelay := MaxDelay A b;
            Factor := Factor A b; attempt := 1 |})).
Proof.
  split.
  - intros Hk stored. unfold NextDelay, effective_attempt.
    destruct (Z.leb_spec k 0); [lia |]. reflexivity.
  - intros Hk. unfold NextDelay, effective_attempt, Reset.
    cbn [attempt InitialDelay MaxDelay Factor].
    destruct (Z.leb_spec k 0); [| lia]. reflexivity.
Qed.
End BackoffAttemptSource.

Lemma NextDelay_attempt_source_witness :
  snd (Backoff.NextDelay Binary64.arith
         (Backoff.Reset Binary64.arith
            (snd (Backoff.NextDelay Binary64.arith
                    (ScenarioBackoff.start_strategy 1000000000) 5
                    ScenarioBackoff.half)))
         0 ScenarioBackoff.half)
  = Backoff.Build_ExponentialBackoff Binary64.arith
      1000000000 300000000000 ScenarioBackoff.two 1.
Proof.
  destruct (NextDelay_attempt_source Binary64.arith
              (snd (Backoff.NextDelay Binary64.arith
                      (ScenarioBackoff.start_strategy 1000000000) 5
                      ScenarioBackoff.half))
              0 ScenarioBackoff.half) as [_ H].
  rewrite H by lia. reflexivity.
Defined.

(** ** handleConnection: what is counted and what is closed *)

Section ConnectionAccounting.
Import Stats Lifecycle LifecycleFacts.

(** X16: A dial that fails is silent: [handleConnection] returns the dial's
    error with [attempt + 1], leaves the statistics as they were (the error
    counter included) and closes nothing, not even resources that the dial
    handed back together with its error. *)
Theorem handleConnection_dial_error_is_silent (e : attempt_env)
    (stats : TunnelStats) (a : Z) (err : error) :
  dial_err (dial e) = Some err ->
  let '(res, stats', t) := handleConnection e stats a in
  res = (wrap64 (a + 1), Some err)
  /\ stats' = stats
  /\ closes t = []
  /\ recorded_errors t = O
  /\ recorded_handshakes t = O.
Proof.
  intros Hd. unfold handleConnection. rewrite Hd. repeat split.
Qed.

Lemma handleConnection_dial_error_is_silent_witness :
  let e := {| dial := {| udpConn := Some 1%nat; tr := Some 2%nat; ipConn := None;
                         rsp := {| StatusCode := 0; Status := "" |};
                         dial_err := Some "handshake timeout"%string |};
              now := 0; fwd_stats := fun s => s; fwd_err := None |} in
  let '(res, stats', t) := handleConnection e Stats.zero 0 in
  res = (1, Some "handshake timeout"%string)
  /\ stats' = Stats.zero
  /\ closes t = []
  /\ recorded_errors t = O
  /\ recorded_handshakes t = O.
Proof.
  intros e.
  apply (handleConnection_dial_error_is_silent e Stats.zero 0 "handshake timeout").
  reflexivity.
Defined.


End ConnectionAccounting.

(** ** MaintainTunnel: what each attempt is told, and cancellation *)

Section MaintainArguments.
Import Stats Pool Lifecycle LifecycleTrace.
Context {B R : Type} `{BackoffStrategy B R}.

Lemma handleConnection_returns (e : attempt_env) (stats : TunnelStats) (a : Z) :
  fst (fst (fst (handleConnection e stats a))) = 0
  \/ fst (fst (fst (handleConnection e stats a))) = wrap64 (a + 1).
Proof.
  unfold handleConnection. destruct (dial_err (dial e)); [right; reflexivity |].
  destruct (negb (StatusCode (rsp (dial e)) =? 200)); [right; reflexivity |].
  left. destruct (fwd_err e); reflexivity.
Qed.

Lemma loop_next_delay_arguments (script : list (iter_env R)) (a : Z) (w : world B) :
  Forall (fun c => fst c = 0 \/ fst c = wrap64 (a + 1))
    (next_delay_calls (trace w)) ->
  Forall (fun c => fst c = 0 \/ fst c = wrap64 (a + 1))
    (next_delay_calls (trace (snd (loop script a w)))).
Proof.
  revert w. induction script as [| it script IH]; intros w Hw; [exact Hw |].
  cbn [loop]. destruct (ctx_done it); [exact Hw |].
  pose proof (handleConnection_quiet (conn it) (stats w) a) as (Hq & _ & _).
  pose proof (handleConnection_returns (conn it) (stats w) a) as Hret.
  destruct (handleConnection (conn it) (stats w) a) as [[[a' err] s] t].
  cbn [fst snd] in Hq, Hret.
  destruct (ctx_err it).
  { cbn [snd trace]. rewrite !next_delay_calls_app, Hq. cbn.
    rewrite List.app_nil_r. exact Hw. }
  destruct err as [er |].
  - cbn [strategy stats trace].
    destruct (NextDelay (strategy w) a' (rand it)) as [delay b].
    assert (Hw' : Forall (fun c => fst c = 0 \/ fst c = wrap64 (a + 1))
                    (next_delay_calls
                       ((trace w ++ [CallHandleConnection a] ++ t)
                        ++ [CallNextDelay a' delay; TimeAfter delay]))).
    { rewrite !next_delay_calls_app, Hq. cbn. rewrite List.app_nil_r.
      apply Forall_app. split; [exact Hw |]. constructor; [exact Hret | constructor]. }
    destruct (timer_first it); [apply IH; exact Hw' | exact Hw'].
  - apply IH. cbn [trace]. rewrite !next_delay_calls_app, Hq. cbn.
    rewrite !List.app_nil_r. exact Hw.
Qed.

(** X18: What the maintenance loop tells its collaborators about the attempt
    number.  The variable declared before the loop is never assigned (the
    body declares its own), so every call of [handleConnection] receives 0,
    and every call of [NextDelay] receives 0 (after a forwarding session) or
    1 (after a dial or a status that failed), however many attempts have
    failed in a row.  The only other outcome is the panic for an MTU that is
    not positive. *)
Theorem MaintainTunnel_attempt_arguments (config : ConnectionConfig B)
    (script : list (iter_env R)) :
  match MaintainTunnel config script with
  | Done (_, w) =>
      0 < MTU config
      /\ Forall (fun a => a = 0) (handle_connection_calls (trace w))
      /\ Forall (fun c => fst c = 0 \/ fst c = 1) (next_delay_calls (trace w))
  | Panic _ => MTU config <= 0
  end.
Proof.
  unfold MaintainTunnel, NewNetBuffer.
  destruct (Z.leb_spec (MTU config) 0) as [Hle | Hgt]; [exact Hle |].
  set (w0 := {| stats := Stats.zero; strategy := ReconnectStrategy config;
                packetBufferPool := {| capacity := MTU config; pooled := [];
                                       next_id := 0 |};
                trace := [] |}).
  pose proof (loop_passes_outer_attempt script 0 w0) as [n Hn].
  pose proof (loop_next_delay_arguments script 0 w0 ltac:(constructor)) as Hd.
  destruct (loop script 0 w0) as [st w]. cbn [snd] in Hn, Hd.
  split; [exact Hgt |]. split.
  - rewrite Hn. cbn [trace w0 handle_connection_calls List.app].
    clear. induction n; constructor; auto.
  - exact Hd.
Qed.
End MaintainArguments.

Section MaintainCancellation.
Import Stats Pool Lifecycle LifecycleTrace LifecycleClaim.
Context {B R : Type} `{BackoffStrategy B R}.

Lemma loop_app (s1 s2 : list (iter_env R)) (a : Z) (w : world B) :
  loop (s1 ++ s2) a w
  = match loop s1 a w with
    | (Running, w1) => loop s2 a w1
    | (Returned, w1) => (Returned, w1)
    end.
Proof.
  revert w. induction s1 as [| it s1 IH]; intros w; [reflexivity |].
  cbn [List.app loop]. destruct (ctx_done it); [reflexivity |].
  destruct (handleConnection (conn it) (stats w) a) as [[[a' err] s] t].
  destruct (ctx_err it); [reflexivity |].
  destruct err as [er |].
  - destruct (NextDelay _ a' (rand it)) as [delay b].
    destruct (timer_first it); [apply IH | reflexivity].
  - apply IH.
Qed.

(** X19: The context ends the loop in three places and nothing runs after any of
    them: when it is done at the top of an iteration (no attempt is made),
    when it is done after the attempt (the strategy is not consulted), and
    when it is done before the retry timer fires.  In the first two cases
    the backoff strategy is left exactly as the iterations before left it. *)
Theorem MaintainTunnel_stops_when_cancelled
    (pre post : list (iter_env R)) (it : iter_env R) (a : Z) (w : world B) :
  ctx_done it = true \/ ctx_err it = true
  \/ (timer_first it = false /\ session_ended_normally (conn it) = false) ->
  loop (pre ++ it :: post) a w = loop (pre ++ [it]) a w
  /\ fst (loop (pre ++ [it]) a w) = Returned
  /\ (ctx_done it = true ->
      snd (loop (pre ++ [it]) a w) = snd (loop pre a w))
  /\ (ctx_done it = true \/ ctx_err it = true ->
      strategy (snd (loop (pre ++ [it]) a w)) = strategy (snd (loop pre a w))).
Proof.
  intros Hc. rewrite !loop_app.
  destruct (loop pre a w) as [[|] w1]; [| repeat split].
  cbn [loop snd].
  destruct (ctx_done it) eqn:Ed; [repeat split |].
  pose proof (handleConnection_error (conn it) (stats w1) a) as Herr.
  destruct (handleConnection (conn it) (stats w1) a) as [[[a' err] s] t].
  cbn [fst snd] in Herr.
  destruct (ctx_err it) eqn:Ee.
  { repeat split. discriminate. }
  destruct Hc as [Hc | [Hc | [Ht Hs]]]; try discriminate.
  destruct err as [er |].
  - destruct (NextDelay _ a' (rand it)) as [delay b]. rewrite Ht.
    repeat split; try discriminate. intros [? | ?]; discriminate.
  - destruct Herr as [Hn _]. rewrite (Hn eq_refl) in Hs. discriminate.
Qed.
End MaintainCancellation.

Lemma MaintainTunnel_stops_when_cancelled_witness :
  let cancelled :=
    {| Lifecycle.ctx_done := true; Lifecycle.conn := Scenario.dial_fails;
       Lifecycle.ctx_err := true; Lifecycle.rand := ScenarioBackoff.half;
       Lifecycle.timer_first := true |} in
  let w0 :=
    {| Lifecycle.stats := Stats.zero;
       Lifecycle.strategy := ScenarioBackoff.start_strategy 1000000000;
       Lifecycle.packetBufferPool := ScenarioForwarding.fresh_pool 1280;
       Lifecycle.trace := [] |} in
  Lifecycle.loop (ScenarioLifecycle.failing_dials 2 ++ cancelled
                    :: ScenarioLifecycle.failing_dials 5) 0 w0
  = Lifecycle.loop (ScenarioLifecycle.failing_dials 2 ++ [cancelled]) 0 w0.
Proof.
  intros cancelled w0.
  apply (MaintainTunnel_stops_when_cancelled
           (ScenarioLifecycle.failing_dials 2)
           (ScenarioLifecycle.failing_dials 5) cancelled 0 w0).
  left. reflexivity.
Defined.

(** ** Loading the configuration *)

Section LoadingConfig.
Import Configuration SetupFacts.
Local Open Scope string_scope.
Local Open Scope Z_scope.

(** Walks through the [if] statements of [fill_defaults]. *)
Ltac fill_cases :=
  repeat (cbn [Socks Tunnel Logging Port BindAddress OutputPath Level
               ConnectPort DNS set_Socks set_Tunnel set_Logging
               GetDefaultSocksConfig GetDefaultTunnelConfig
               GetDefaultLoggingConfig String.eqb Ascii.eqb Bool.eqb
               andb length Z.of_nat Z.eqb];
          first [ match goal with
                  | H : ?b = _ |- context [if ?b then _ else _] => rewrite H
                  end
                | match goal with
                  | |- context [if ?b then _ else _] =>
                      lazymatch b with
                      | context [if _ then _ else _] => fail
                      | _ => destruct b eqn:?
                      end
                  end ]).

Lemma fill_defaults_sections (c : Config) :
  Socks (fill_defaults c)
  = (if String.eqb (Port (Socks c)) "" && String.eqb (BindAddress (Socks c)) ""
     then GetDefaultSocksConfig else Socks c)
  /\ Tunnel (fill_defaults c)
     = (if (ConnectPort (Tunnel c) =? 0) && (Z.of_nat (length (DNS (Tunnel c))) =? 0)
        then GetDefaultTunnelConfig else Tunnel c)
  /\ OutputPath (Logging (fill_defaults c)) = OutputPath (Logging c)
  /\ Level (Logging (fill_defaults c))
     = (if String.eqb (Level (Logging c)) "" then "info" else Level (Logging c)).
Proof.
  destruct c as [pk e4 e6 epk lic id0 tok i4 i6 [ba po us pw] t [op lv] reg].
  unfold fill_defaults. fill_cases;
    repeat match goal with
           | H : String.eqb _ _ = true |- _ => apply String.eqb_eq in H; subst
           end;
    repeat split.
Qed.

Lemma LoadConfig_success_sections (e : load_env) (st st' : state) :
  LoadConfig e st = (st', None) ->
  let c := fst (decode e (AppConfig st)) in
  (Port (Socks c) <> "" \/ BindAddress (Socks c) <> "" ->
   Socks (AppConfig st') = Socks c)
  /\ (ConnectPort (Tunnel c) <> 0 \/ DNS (Tunnel c) <> [] ->
      Tunnel (AppConfig st') = Tunnel c).
Proof.
  unfold LoadConfig. destruct (open_err e); [discriminate |].
  destruct (decode e (AppConfig st)) as [c [err |]]; [discriminate |].
  intros [= <-]. cbn [fst AppConfig].
  destruct (fill_defaults_sections c) as (Hs & Ht & _).
  rewrite Hs, Ht. split; intros Hk.
  - destruct (String.eqb_spec (Port (Socks c)) "") as [Ep | Ep];
      destruct (String.eqb_spec (BindAddress (Socks c)) "") as [Eb | Eb];
      cbn [andb]; first [reflexivity | destruct Hk; contradiction].
  - destruct (Z.eqb_spec (ConnectPort (Tunnel c)) 0) as [Ec | Ec];
      destruct (DNS (Tunnel c)) as [| d ds] eqn:Ed;
      cbn [andb length];
      try change (Z.of_nat (S (length ds)) =? 0) with false;
      try change (Z.of_nat O =? 0) with true; cbv iota;
      first [reflexivity | destruct Hk; contradiction].
Qed.

(** X21: After a [LoadConfig] that returns no error the configuration is marked
    as loaded and no section is left without its key fields: the SOCKS
    section has a port or a bind address, the tunnel section a connect port
    or a DNS server, and the log level is not empty.  Defaults are applied
    section by section: a SOCKS or tunnel section that has one of its key
    fields is kept exactly as decoded, empty fields included. *)
Theorem LoadConfig_success (e : load_env) (st st' : state) :
  LoadConfig e st = (st', None) ->
  let c := fst (decode e (AppConfig st)) in
  let c' := AppConfig st' in
  ConfigLoaded st' = true
  /\ (Port (Socks c') <> "" \/ BindAddress (Socks c') <> "")
  /\ (ConnectPort (Tunnel c') <> 0 \/ DNS (Tunnel c') <> [])
  /\ Level (Logging c') <> ""
  /\ (Port (Socks c) <> "" \/ BindAddress (Socks c) <> "" -> Socks c' = Socks c)
  /\ (ConnectPort (Tunnel c) <> 0 \/ DNS (Tunnel c) <> [] -> Tunnel c' = Tunnel c).
Proof.
  unfold LoadConfig. destruct (open_err e); [discriminate |].
  destruct (decode e (AppConfig st)) as [c [err |]]; [discriminate |].
  intros [= <-]. cbn [fst AppConfig ConfigLoaded].
  destruct (fill_defaults_sections c) as (Hs & Ht & _ & Hl).
  rewrite Hs, Ht, Hl.
  split; [reflexivity |].
  split; [| split; [| split; [| split]]].
  - destruct (String.eqb_spec (Port (Socks c)) "") as [Ep | Ep];
      destruct (String.eqb_spec (BindAddress (Socks c)) "") as [Eb | Eb];
      cbn [andb]; first [solve [auto] | left; discriminate].
  - destruct (Z.eqb_spec (ConnectPort (Tunnel c)) 0) as [Ec | Ec];
      destruct (DNS (Tunnel c)) as [| d ds] eqn:Ed;
      cbn [andb length];
      try change (Z.of_nat (S (length ds)) =? 0) with false;
      try change (Z.of_nat O =? 0) with true; cbv iota; rewrite ?Ed;
      first [ left; assumption | left; discriminate | right; discriminate ].
  - destruct (String.eqb_spec (Level (Logging c)) "") as [El | El];
      [discriminate | exact El].
  - intros Hk.
    destruct (String.eqb_spec (Port (Socks c)) "") as [Ep | Ep];
      destruct (String.eqb_spec (BindAddress (Socks c)) "") as [Eb | Eb];
      cbn [andb]; first [reflexivity | destruct Hk; contradiction].
  - intros Hk.
    destruct (Z.eqb_spec (ConnectPort (Tunnel c)) 0) as [Ec | Ec];
      destruct (DNS (Tunnel c)) as [| d ds] eqn:Ed;
      cbn [andb length];
      try change (Z.of_nat (S (length ds)) =? 0) with false;
      try change (Z.of_nat O =? 0) with true; cbv iota;
      first [reflexivity | destruct Hk; contradiction].
Qed.

Lemma LoadConfig_success_witness :
  let st := {| AppConfig := empty_config; ConfigLoaded := false |} in
  let st' := fst (LoadConfig (file_with (only_connect_port 8443)) st) in
  ConfigLoaded st' = true
  /\ Socks (AppConfig st') = GetDefaultSocksConfig
  /\ Tunnel (AppConfig st') = Tunnel (only_connect_port 8443)
  /\ MTU (Tunnel (AppConfig st')) = 0.
Proof.
  intros st st'.
  destruct (LoadConfig_success (file_with (only_connect_port 8443)) st st')
    as (H1 & _ & _ & _ & _ & H6); [reflexivity |].
  split; [exact H1 |]. split; [reflexivity |].
  split; [apply H6; left; discriminate |].
  rewrite H6 by (left; discriminate). reflexivity.
Defined.

(** X22: Applying the defaults twice changes nothing more, and the configuration
    that registration creates ([InitNewConfig]) needs none: loading what was
    just created gives it back. *)
Theorem fill_defaults_idempotent (c : Config)
    (privateKey endpointV4 endpointV6 endpointPubKey
     license id accessToken ipv4 ipv6 deviceName : string) :
  fill_defaults (fill_defaults c) = fill_defaults c
  /\ fill_defaults
       (InitNewConfig privateKey endpointV4 endpointV6 endpointPubKey
          license id accessToken ipv4 ipv6 deviceName)
     = InitNewConfig privateKey endpointV4 endpointV6 endpointPubKey
         license id accessToken ipv4 ipv6 deviceName.
Proof.
  split; [| reflexivity].
  destruct c as [pk e4 e6 epk lic id0 tok i4 i6 [ba po us pw] t [op lv] reg].
  unfold fill_defaults. fill_cases; reflexivity.
Qed.

(** A [LoadConfig] that fails never marks the configuration as loaded.  When
    the file cannot be opened the package variables are untouched; when the
    decoder fails, [AppConfig] keeps whatever the decoder wrote, without any
    default. *)
Theorem LoadConfig_failure (e : load_env) (st st' : state) (err : error) :
  LoadConfig e st = (st', Some err) ->
  ConfigLoaded st' = ConfigLoaded st
  /\ match open_err e with
     | Some oerr => st' = st /\ err = "failed to open config file: " ++ oerr
     | None =>
         AppConfig st' = fst (decode e (AppConfig st))
         /\ exists derr, snd (decode e (AppConfig st)) = Some derr
                         /\ err = "failed to decode config file: " ++ derr
     end.
Proof.
  unfold LoadConfig. destruct (open_err e) as [oerr |].
  - intros [= <- <-]. auto.
  - destruct (decode e (AppConfig st)) as [c [derr |]]; [| discriminate].
    intros [= <- <-]. cbn [fst snd AppConfig ConfigLoaded]. eauto.
Qed.

Lemma LoadConfig_failure_witness :
  let st := {| AppConfig := empty_config; ConfigLoaded := false |} in
  let e := {| open_err := Some "open config.json: no such file or directory";
              decode := fun c => (c, None) |} in
  fst (LoadConfig e st) = st.
Proof.
  intros st e.
  destruct (LoadConfig_failure e st (fst (LoadConfig e st))
              "failed to open config file: open config.json: no such file or directory")
    as (_ & H); [reflexivity |].
  cbn [open_err e] in H. apply H.
Defined.
End LoadingConfig.

(** ** Duration: inputs that are refused, and the empty input *)

Section DurationErrors.
Import GoTime ConfigDuration.
Local Open Scope string_scope.
Local Open Scope Z_scope.
Context (A : FloatArith) (J : JSON).

(** X23: [UnmarshalJSON] assigns only on success: whenever it returns an error,
    whether from the JSON decoder or from [time.ParseDuration], the duration
    keeps the value it had.  The empty input is no error and sets zero. *)
Theorem UnmarshalJSON_failure_keeps_value (d : Z) (b : string) (err : error) :
  snd (UnmarshalJSON A d b) = Some err ->
  fst (UnmarshalJSON A d b) = d
  /\ b <> ""
  /\ UnmarshalJSON A d "" = (0, None).
Proof.
  unfold UnmarshalJSON. destruct b as [| c b']; [discriminate |].
  intros Herr. split; [| split; [discriminate | reflexivity]].
  revert Herr. destruct (Ascii.eqb c dquote).
  - destruct (Unmarshal_string (String c b')) as [e1 | s]; [reflexivity |].
    destruct (ParseDuration A s) as [e2 | dur]; [reflexivity | discriminate].
  - destruct (Unmarshal_int64 (String c b')) as [e1 | n];
      [reflexivity | discriminate].
Qed.
End DurationErrors.

Lemma UnmarshalJSON_failure_keeps_value_witness :
  snd (ConfigDuration.UnmarshalJSON Binary64.arith 7
         (ConfigDuration.quoted "5 minutes"))
  = Some GoTime.unknown_unit
  /\ fst (ConfigDuration.UnmarshalJSON Binary64.arith 7
            (ConfigDuration.quoted "5 minutes")) = 7.
Proof.
  assert (E : snd (ConfigDuration.UnmarshalJSON Binary64.arith 7
                     (ConfigDuration.quoted "5 minutes"))
              = Some GoTime.unknown_unit) by (vm_compute; reflexivity).
  split; [exact E |].
  apply (UnmarshalJSON_failure_keeps_value Binary64.arith
           ConfigDuration.plain_json 7 (ConfigDuration.quoted "5 minutes")
           GoTime.unknown_unit E).
Defined.

(** ** From the configuration to the running parts *)

Section TimeoutsFromConfig.
Import Configuration Setup SetupFacts.
Local Open Scope Z_scope.
Context {C : Type} `{TimeoutConn.NetConn C}.

(** X7: [TimeoutSettings] never returns a zero timeout: zero stands for 30
    seconds (connection) and 5 minutes (idle).  Any other value passes
    through unchanged, negative ones included, so on the connections that the
    SOCKS server wraps a configured idle timeout of zero means a deadline
    five minutes ahead on every [Read], and a negative one means no deadline
    at all. *)
Theorem idle_timeout_from_config (cfg : Config) (conn : C) (now : Z)
    (b : list Byte.byte) :
  fst (TimeoutSettings cfg) <> 0
  /\ snd (TimeoutSettings cfg) <> 0
  /\ (ConnectionTimeout (Tunnel cfg) <> 0 ->
      fst (TimeoutSettings cfg) = ConnectionTimeout (Tunnel cfg))
  /\ (IdleTimeout (Tunnel cfg) = 0 ->
      exists rest,
        snd (TimeoutConn.Read (accepted cfg conn) now b)
        = TimeoutConn.SetReadDeadline (now + 300000000000) :: rest)
  /\ (IdleTimeout (Tunnel cfg) < 0 ->
      snd (TimeoutConn.Read (accepted cfg conn) now b) = [TimeoutConn.ConnRead b]).
Proof.
  unfold TimeoutSettings. cbn [fst snd].
  split; [| split; [| split; [| split]]].
  - destruct (Z.eqb_spec (ConnectionTimeout (Tunnel cfg)) 0); [discriminate | assumption].
  - destruct (Z.eqb_spec (IdleTimeout (Tunnel cfg)) 0); [discriminate | assumption].
  - intros Hc. destruct (Z.eqb_spec (ConnectionTimeout (Tunnel cfg)) 0); congruence.
  - intros Hi. unfold accepted, TimeoutSettings, TimeoutConn.Read.
    cbn [snd TimeoutConn.IdleTimeout TimeoutConn.Conn]. rewrite Hi.
    change (if 0 =? 0 then 5 * GoTime.Minute else 0) with 300000000000.
    change (300000000000 >? 0) with true. cbv iota.
    destruct (TimeoutConn.conn_SetReadDeadline conn (now + 300000000000))
      as [conn' [err |]].
    + eexists. reflexivity.
    + destruct (TimeoutConn.conn_Read conn' b) as [conn'' res].
      eexists. reflexivity.
  - intros Hi. unfold accepted, TimeoutSettings, TimeoutConn.Read.
    cbn [snd TimeoutConn.IdleTimeout TimeoutConn.Conn].
    destruct (Z.eqb_spec (IdleTimeout (Tunnel cfg)) 0) as [E | _]; [lia |].
    destruct (Z.gtb_spec (IdleTimeout (Tunnel cfg)) 0) as [Hgt | _]; [lia |].
    destruct (TimeoutConn.conn_Read conn b) as [conn' res]. reflexivity.
Qed.
End TimeoutsFromConfig.

Lemma idle_timeout_from_config_witness :
  exists rest,
    snd (TimeoutConn.Read
           (SetupFacts.accepted SetupFacts.empty_config ScenarioConn.healthy)
           1000 ScenarioConn.payload)
    = TimeoutConn.SetReadDeadline (1000 + 300000000000) :: rest.
Proof.
  destruct (idle_timeout_from_config SetupFacts.empty_config ScenarioConn.healthy
              1000 ScenarioConn.payload) as (_ & _ & _ & H0 & _).
  exact (H0 eq_refl).
Defined.

Section TunnelStart.
Import Configuration Setup SetupFacts.
Local Open Scope Z_scope.

(** X20: The MTU reaches the buffer pool unchecked.  A tunnel section that has a
    connect port (or a DNS server) is kept as decoded, so when it gives no
    positive MTU the loaded configuration has none either, and the goroutine
    that [StartTunnel] starts panics in [NewNetBuffer] before its first
    connection attempt.  With a positive MTU it does not panic. *)
Theorem StartTunnel_needs_positive_mtu (e : load_env) (st st' : state)
    (script : list (Lifecycle.iter_env spec_float)) :
  LoadConfig e st = (st', None) ->
  let c := fst (decode e (AppConfig st)) in
  ConnectPort (Tunnel c) <> 0 \/ DNS (Tunnel c) <> [] ->
  (MTU (Tunnel c) <= 0 ->
   StartTunnel (AppConfig st') script = Panic "capacity must be greater than 0")
  /\ (0 < MTU (Tunnel c) ->
      exists r, StartTunnel (AppConfig st') script = Done r).
Proof.
  intros Hload c Hkey.
  destruct (LoadConfig_success_sections e st st' Hload) as [_ Ht].
  fold c in Ht. specialize (Ht Hkey).
  unfold StartTunnel, Lifecycle.MaintainTunnel, StartTunnel_config, Pool.NewNetBuffer.
  cbn [Lifecycle.MTU]. rewrite Ht. split; intros Hm.
  - destruct (Z.leb_spec (MTU (Tunnel c)) 0); [reflexivity | lia].
  - destruct (Z.leb_spec (MTU (Tunnel c)) 0); [lia |]. eexists. reflexivity.
Qed.

Lemma StartTunnel_needs_positive_mtu_witness :
  let st := {| AppConfig := empty_config; ConfigLoaded := false |} in
  let st' := fst (LoadConfig (file_with (only_connect_port 8443)) st) in
  StartTunnel (AppConfig st') (ScenarioLifecycle.failing_dials 3)
  = Panic "capacity must be greater than 0".
Proof.
  intros st st'.
  destruct (StartTunnel_needs_positive_mtu (file_with (only_connect_port 8443))
              st st' (ScenarioLifecycle.failing_dials 3)) as [H _].
  - reflexivity.
  - left. discriminate.
  - apply H. cbn. lia.
Defined.
End TunnelStart.

Section NetworkConfig.
Import Configuration Setup SetupFacts.
Local Open Scope Z_scope.
Context {Addr IPAddr : Type}.
Context (ParseAddr : string -> error + Addr).
Context (ParseIP : string -> option IPAddr).

Lemma parse_dns_spec (dns : list string) (acc out : list Addr) :
  parse_dns ParseAddr dns acc = inr out
  <-> exists parsed,
        out = (acc ++ parsed)%list
        /\ List.map ParseAddr dns = List.map inr parsed.
Proof.
  revert acc. induction dns as [| d rest IH]; intros acc; cbn [parse_dns List.map].
  - split.
    + intros [= <-]. exists []. rewrite List.app_nil_r. auto.
    + intros (parsed & -> & Hp). destruct parsed; [| discriminate].
      rewrite List.app_nil_r. reflexivity.
  - destruct (ParseAddr d) as [err | a] eqn:Ed.
    + split; [discriminate |].
      intros (parsed & _ & Hp). destruct parsed; discriminate.
    + rewrite IH. split.
      * intros (parsed & -> & Hp). exists (a :: parsed).
        rewrite <- List.app_assoc. cbn [List.app List.map]. rewrite Hp. auto.
      * intros (parsed & -> & Hp). destruct parsed as [| a' parsed]; [discriminate |].
        cbn [List.map] in Hp. injection Hp as Ha Hp. subst a'.
        exists parsed. rewrite <- List.app_assoc. auto.
Qed.

(** X24: [PrepareNetworkConfig] succeeds exactly when every enabled tunnel-side
    address and every DNS server parses; the result then lists the parsed
    addresses in the order of the configuration, IPv4 before IPv6, and one
    DNS address per configured server.  The endpoint text is parsed with
    [net.ParseIP] and never checked: a text that is no address gives an
    endpoint with a nil IP, not an error. *)
Theorem PrepareNetworkConfig_success (cfg : Config) (ep : UDPAddr)
    (locals dnsAddrs : list Addr) :
  PrepareNetworkConfig ParseAddr ParseIP cfg = inr (ep, locals, dnsAddrs)
  <-> ep = {| udp_IP := ParseIP (endpoint_text cfg);
              udp_Port := ConnectPort (Tunnel cfg) |}
      /\ List.map ParseAddr (local_texts cfg) = List.map inr locals
      /\ List.map ParseAddr (DNS (Tunnel cfg)) = List.map inr dnsAddrs.
Proof.
  unfold PrepareNetworkConfig, local_texts, endpoint_text.
  assert (Hdns : forall out,
             parse_dns ParseAddr (DNS (Tunnel cfg)) [] = inr out
             <-> List.map ParseAddr (DNS (Tunnel cfg)) = List.map inr out).
  { intros out. rewrite parse_dns_spec. split.
    - intros (parsed & -> & Hp). exact Hp.
    - intros Hp. exists out. auto. }
  set (endpoint := if UseIPv6 (Tunnel cfg) then _ else _).
  assert (He : endpoint = {| udp_IP := ParseIP (if UseIPv6 (Tunnel cfg)
                                                then EndpointV6 cfg
                                                else EndpointV4 cfg);
                             udp_Port := ConnectPort (Tunnel cfg) |}).
  { unfold endpoint. destruct (UseIPv6 (Tunnel cfg)); reflexivity. }
  rewrite He. clear He endpoint.
  destruct (NoTunnelIPv4 (Tunnel cfg)), (NoTunnelIPv6 (Tunnel cfg));
    cbn [negb List.app List.map];
    try destruct (ParseAddr (IPv4 cfg)) as [e4 | v4];
    try destruct (ParseAddr (IPv6 cfg)) as [e6 | v6];
    cbn [List.app];
    try (split; [discriminate |];
         intros (_ & Hl & _);
         destruct locals as [| l1 [| l2 ls]]; discriminate);
    (destruct (parse_dns ParseAddr (DNS (Tunnel cfg)) []) as [ed | out];
     [ split; [discriminate |];
       intros (_ & _ & Hd); apply Hdns in Hd; discriminate
     | pose proof (proj1 (Hdns out) eq_refl) as Ho; split;
       [ intros [= <- <- <-]; auto
       | intros (-> & Hl & Hd);
         apply Hdns in Hd; injection Hd as ->;
         destruct locals as [| l1 [| l2 [| l3 ls]]]; try discriminate;
         cbn [List.map] in Hl; congruence ] ]).
Qed.
End NetworkConfig.

(** ** The proxy command *)

Section EndpointStrings.
Import Cmd.
Local Open Scope string_scope.
Local Open Scope Z_scope.

Lemma substring_prefix (a b : string) :
  String.substring 0 (String.length a) (a ++ b) = a.
Proof.
  induction a as [| c a IH].
  - rewrite append_nil_l. destruct b; reflexivity.
  - rewrite append_cons. cbn [String.length String.substring]. rewrite IH.
    reflexivity.
Qed.

(** X25: The endpoints that registration stores are what the API returned with
    the last two bytes dropped (IPv4) and with the first byte and the last
    three dropped (IPv6), whatever those bytes are: the texts host:0 and
    [host]:0 give host.  A text too short for that (fewer than 2, resp. 4
    bytes) is a run-time panic, and so is an account without peers. *)
Theorem registration_endpoint_slices (host tail : string) (c : ascii) :
  (String.length tail = 2%nat -> strip_v4 (host ++ tail) = Done host)
  /\ (String.length tail = 3%nat ->
      strip_v6 (String c (host ++ tail)) = Done host)
  /\ (forall s, (String.length s < 2)%nat ->
                strip_v4 s = Panic "slice bounds out of range")
  /\ (forall s, (String.length s < 4)%nat ->
                strip_v6 s = Panic "slice bounds out of range")
  /\ (forall a, acc_Peers a = [] ->
                first_peer a = Panic "index out of range [0] with length 0").
Proof.
  split; [| split; [| split; [| split]]].
  - intros Ht. unfold strip_v4, slice. rewrite length_append, Ht.
    destruct (Z.leb_spec 0 (Z.of_nat (String.length host + 2) - 2)); [| lia].
    destruct (Z.leb_spec (Z.of_nat (String.length host + 2) - 2)
                (Z.of_nat (String.length host + 2))); [| lia].
    cbn [andb Z.leb]. f_equal.
    replace (Z.to_nat (Z.of_nat (String.length host + 2) - 2 - 0))
      with (String.length host) by lia.
    apply substring_prefix.
  - intros Ht. unfold strip_v6, slice. cbn [String.length].
    rewrite length_append, Ht.
    destruct (Z.leb_spec 1 (Z.of_nat (S (String.length host + 3)) - 3)); [| lia].
    destruct (Z.leb_spec (Z.of_nat (S (String.length host + 3)) - 3)
                (Z.of_nat (S (String.length host + 3)))); [| lia].
    cbn [andb Z.leb]. f_equal.
    replace (Z.to_nat (Z.of_nat (S (String.length host + 3)) - 3 - 1))
      with (String.length host) by lia.
    change (Z.to_nat 1) with 1%nat. cbn [String.substring].
    apply substring_prefix.
  - intros s Hs. unfold strip_v4, slice.
    destruct (Z.leb_spec 0 (Z.of_nat (String.length s) - 2)); [lia |].
    reflexivity.
  - intros s Hs. unfold strip_v6, slice.
    destruct (Z.leb_spec 1 (Z.of_nat (String.length s) - 3)); [lia |].
    reflexivity.
  - intros a Ha. unfold first_peer. rewrite Ha. reflexivity.
Qed.

Lemma registration_endpoint_slices_witness :
  strip_v4 ("162.159.198.1" ++ ":0") = Done "162.159.198.1"
  /\ strip_v6 (String "[" ("2606:4700:103::1" ++ "]:0")) = Done "2606:4700:103::1"
  /\ strip_v4 ("162.159.198.1:4" ++ "43") = Done "162.159.198.1:4".
Proof.
  destruct (registration_endpoint_slices "162.159.198.1" ":0" "[") as [H4 _].
  destruct (registration_endpoint_slices "2606:4700:103::1" "]:0" "[") as (_ & H6 & _).
  destruct (registration_endpoint_slices "162.159.198.1:4" "43" "[") as [H4' _].
  split; [apply H4; reflexivity |].
  split; [apply H6; reflexivity | apply H4'; reflexivity].
Defined.
End EndpointStrings.

Section Registration.
Import Configuration Cmd.
Local Open Scope string_scope.
Local Open Scope Z_scope.
Context (EncodeToString : list Byte.byte -> string).

(** X26: A registration that returns an error never marks the configuration as
    loaded and, unless it got as far as writing the file, leaves [AppConfig]
    untouched and writes nothing: the only error after which [AppConfig]
    already holds the new configuration is the one of [SaveConfig]. *)
Theorem handleRegistration_failure (fl : flags) (path : string)
    (e : registration_env) (st st' : state) (err : error) (t : list event) :
  handleRegistration EncodeToString fl path e st = Done (st', Some err, t) ->
  ConfigLoaded st' = ConfigLoaded st
  /\ (save_registered e = None ->
      st' = st /\ forall p c, ~ In (SaveConfig p c) t)
  /\ (forall serr, save_registered e = Some serr ->
      st' = st \/ err = "Failed to save config: " ++ serr).
Proof.
  unfold handleRegistration.
  destruct (register e) as [e1 | acc].
  { intros [= <- <- <-]. split; [reflexivity |]. split.
    - intros _. split; [reflexivity |]. intros p c [H | []]. discriminate.
    - intros serr _. left. reflexivity. }
  destruct (keypair e) as [e2 | [priv pub]].
  { intros [= <- <- <-]. split; [reflexivity |]. split.
    - intros _. split; [reflexivity |]. intros p c [H | [H | []]]; discriminate.
    - intros serr _. left. reflexivity. }
  destruct (enroll e) as [[e3 [api |]] | upd].
  { intros [= <- <- <-]. split; [reflexivity |]. split.
    - intros _. split; [reflexivity |].
      intros p c [H | [H | [H | []]]]; discriminate.
    - intros serr _. left. reflexivity. }
  { intros [= <- <- <-]. split; [reflexivity |]. split.
    - intros _. split; [reflexivity |].
      intros p c [H | [H | [H | []]]]; discriminate.
    - intros serr _. left. reflexivity. }
  destruct (first_peer upd) as [peer | m]; [| discriminate].
  destruct (strip_v4 (peer_V4 peer)) as [v4 | m]; [| discriminate].
  destruct (strip_v6 (peer_V6 peer)) as [v6 | m]; [| discriminate].
  destruct (save_registered e) as [serr |]; [| discriminate].
  intros [= <- <- <-]. split; [reflexivity |]. split.
  - discriminate.
  - intros serr' [= <-]. right. reflexivity.
Qed.

(** X27: A registration that succeeds stores the configuration built by
    [InitNewConfig] from the account data (the token from the first answer,
    everything else from the enrolment), with the default sections, writes it
    once to the configuration path and marks it as loaded. *)
Theorem handleRegistration_success (fl : flags) (path : string)
    (e : registration_env) (st st' : state) (t : list event) :
  handleRegistration EncodeToString fl path e st = Done (st', None, t) ->
  exists acc priv pub upd peer v4 v6,
    register e = inr acc /\ keypair e = inr (priv, pub) /\ enroll e = inr upd
    /\ first_peer upd = Done peer
    /\ strip_v4 (peer_V4 peer) = Done v4 /\ strip_v6 (peer_V6 peer) = Done v6
    /\ ConfigLoaded st' = true
    /\ AppConfig st'
       = InitNewConfig (EncodeToString priv) v4 v6 (peer_PublicKey peer)
           (acc_License upd) (acc_ID upd) (acc_Token acc)
           (acc_V4 upd) (acc_V6 upd) (flag_name fl)
    /\ t = [Register (flag_model fl) (flag_locale fl) (flag_jwt fl)
              (flag_accept_tos fl);
            GenerateEcKeyPair; EnrollKey (flag_name fl);
            SaveConfig path (AppConfig st')].
Proof.
  unfold handleRegistration.
  destruct (register e) as [e1 | acc]; [discriminate |].
  destruct (keypair e) as [e2 | [priv pub]]; [discriminate |].
  destruct (enroll e) as [[e3 [api |]] | upd]; [discriminate | discriminate |].
  destruct (first_peer upd) as [peer | m] eqn:Ep; [| discriminate].
  destruct (strip_v4 (peer_V4 peer)) as [v4 | m] eqn:E4; [| discriminate].
  destruct (strip_v6 (peer_V6 peer)) as [v6 | m] eqn:E6; [| discriminate].
  destruct (save_registered e) as [serr |]; [discriminate |].
  intros [= <- <-]. exists acc, priv, pub, upd, peer, v4, v6.
  repeat split; assumption.
Qed.
End Registration.

Lemma handleRegistration_failure_witness :
  let e := {| Cmd.register := inl "connection refused"%string;
              Cmd.keypair := inr ([], []);
              Cmd.enroll := inr ScenarioCmd.enrolled;
              Cmd.save_registered := None |} in
  let st := {| Configuration.AppConfig := SetupFacts.empty_config;
               Configuration.ConfigLoaded := false |} in
  exists st' err t,
    Cmd.handleRegistration ScenarioCmd.encode ScenarioCmd.no_flags "config.json" e st
    = Done (st', Some err, t)
    /\ st' = st.
Proof.
  intros e st. eexists _, _, _. split; [reflexivity |].
  destruct (handleRegistration_failure ScenarioCmd.encode ScenarioCmd.no_flags
              "config.json" e st st "Failed to register: connection refused"
              [Cmd.Register "PC" "en_US" "" true] eq_refl) as (_ & H & _).
  apply H. reflexivity.
Defined.

Lemma handleRegistration_success_witness :
  let st := {| Configuration.AppConfig := SetupFacts.empty_config;
               Configuration.ConfigLoaded := false |} in
  match Cmd.handleRegistration ScenarioCmd.encode ScenarioCmd.no_flags "config.json"
          (Cmd.registration ScenarioCmd.all_well) st with
  | Done (st', None, _) =>
      Configuration.EndpointV4 (Configuration.AppConfig st') = "162.159.198.1"%string
      /\ Configuration.EndpointV6 (Configuration.AppConfig st')
         = "2606:4700:103::1"%string
      /\ Configuration.ConfigLoaded st' = true
  | _ => False
  end.
Proof.
  intros st.
  destruct (Cmd.handleRegistration ScenarioCmd.encode ScenarioCmd.no_flags
              "config.json" (Cmd.registration ScenarioCmd.all_well) st)
    as [[[st' [err |]] t] | m] eqn:E; try (vm_compute in E; discriminate).
  destruct (handleRegistration_success ScenarioCmd.encode ScenarioCmd.no_flags
              "config.json" (Cmd.registration ScenarioCmd.all_well) st st' t E)
    as (acc & priv & pub & upd & peer & v4 & v6 & H1 & H2 & H3 & H4 & H5 & H6
        & H7 & H8 & _).
  cbn in H1, H2, H3. injection H3 as <-. cbn in H4. injection H4 as <-.
  vm_compute in H5. injection H5 as <-. vm_compute in H6. injection H6 as <-.
  rewrite H8. repeat split. exact H7.
Defined.

Section ProxyCommand.
Import Configuration Cmd CmdFacts.
Local Open Scope string_scope.
Local Open Scope Z_scope.
Context (EncodeToString : list Byte.byte -> string).
Context (ConnectSNI : string).

Lemma apply_overrides_spec (fl : flags) (c : Config) :
  apply_overrides fl c = (set_Socks (overridden fl (Socks c)) c, any_override fl).
Proof.
  destruct c as [pk e4 e6 epk lic id0 tok i4 i6 [ba po us pw] t lg reg].
  unfold apply_overrides, overridden, any_override, pick, set_Socks.
  cbn [Socks BindAddress Port Username Password PrivateKey EndpointV4 EndpointV6
       EndpointPubKey License ID AccessToken IPv4 IPv6 Tunnel Logging
       Registration].
  destruct (String.eqb (flag_bind_address fl) "");
    destruct (String.eqb (flag_port fl) "");
    destruct (String.eqb (flag_username fl) "");
    destruct (String.eqb (flag_password fl) ""); reflexivity.
Qed.

Lemma override_and_run_spec (fl : flags) (path : string) (e : proxy_env)
    (st : state) (t : list event) :
  override_and_run fl path e st t
  = ({| AppConfig := set_Socks (overridden fl (Socks (AppConfig st))) (AppConfig st);
        ConfigLoaded := ConfigLoaded st |},
     t ++ (if any_override fl
           then [SaveConfig path
                   (set_Socks (overridden fl (Socks (AppConfig st))) (AppConfig st))]
           else [])
       ++ [RunService
             (set_Socks (overridden fl (Socks (AppConfig st))) (AppConfig st))]
       ++ match run_service e with
          | Some err => [Printed (err ++ nl)]
          | None => []
          end)%list.
Proof.
  unfold override_and_run. rewrite apply_overrides_spec.
  destruct (any_override fl), (run_service e);
    rewrite <- ?List.app_assoc; cbn [List.app]; rewrite ?List.app_nil_r;
    reflexivity.
Qed.

(** X28: With a loaded configuration and no reset, the command runs the proxy
    service on the loaded configuration in which each SOCKS field is replaced
    by its flag when that flag is not empty, and on nothing else changed; an
    empty flag cannot clear a field.  The configuration is written back
    exactly when some override flag was given, and the service starts
    whether or not that write succeeds. *)
Theorem runProxyCmd_overrides (fl : flags) (e : proxy_env) (st : state)
    (p : string) :
  ConfigLoaded st = true ->
  flag_config fl = inr p ->
  flag_reset_config fl = false ->
  let c' := set_Socks (overridden fl (Socks (AppConfig st))) (AppConfig st) in
  runProxyCmd EncodeToString ConnectSNI fl e st
  = Done ({| AppConfig := c'; ConfigLoaded := true |},
          (if any_override fl then [SaveConfig (config_path p) c'] else [])
          ++ [RunService c']
          ++ match run_service e with
             | Some err => [Printed (err ++ nl)]
             | None => []
             end)%list.
Proof.
  intros Hl Hp Hr c'. unfold runProxyCmd. rewrite Hp, Hl, Hr. cbn [negb].
  rewrite override_and_run_spec, Hl. reflexivity.
Qed.

(** X29: [--reset-config] on a loaded configuration puts the SOCKS and tunnel
    sections back to their defaults but keeps the SNI address, applies the
    overrides on top, and writes the result before the service starts; when
    that write fails the service is not started, although [AppConfig] is
    already reset. *)
Theorem runProxyCmd_reset (fl : flags) (e : proxy_env) (st : state)
    (p : string) :
  ConfigLoaded st = true ->
  flag_config fl = inr p ->
  flag_reset_config fl = true ->
  let reset :=
    set_Tunnel (set_SNIAddress (SNIAddress (Tunnel (AppConfig st)))
                  GetDefaultTunnelConfig)
      (set_Socks GetDefaultSocksConfig (AppConfig st)) in
  match runProxyCmd EncodeToString ConnectSNI fl e st with
  | Done (st', t) =>
      Tunnel (AppConfig st') = Tunnel reset
      /\ SNIAddress (Tunnel (AppConfig st')) = SNIAddress (Tunnel (AppConfig st))
      /\ hd_error t = Some (SaveConfig (config_path p) reset)
      /\ match save_reset e with
         | Some err => AppConfig st' = reset /\ runs_service t = false
         | None =>
             Socks (AppConfig st') = overridden fl GetDefaultSocksConfig
             /\ runs_service t = true
         end
  | Panic _ => False
  end.
Proof.
  intros Hl Hp Hr reset. unfold runProxyCmd. rewrite Hp, Hl, Hr. cbn [negb].
  destruct (save_reset e) as [err |].
  - repeat split.
  - rewrite override_and_run_spec.
    cbn [AppConfig ConfigLoaded Socks Tunnel set_Socks set_Tunnel hd_error List.app].
    repeat split.
    unfold runs_service.
    destruct (any_override fl), (run_service e); reflexivity.
Qed.
End ProxyCommand.

Lemma runProxyCmd_overrides_witness :
  match Cmd.runProxyCmd ScenarioCmd.encode "sni.example" ScenarioCmd.port_and_user
          ScenarioCmd.all_well ScenarioCmd.loaded with
  | Done (st', t) =>
      Configuration.Socks (Configuration.AppConfig st')
      = {| Configuration.BindAddress := "0.0.0.0"; Configuration.Port := "9050";
           Configuration.Username := "alice"; Configuration.Password := "secret" |}
      /\ length t = 2%nat
  | Panic _ => False
  end.
Proof.
  rewrite (runProxyCmd_overrides ScenarioCmd.encode "sni.example"
             ScenarioCmd.port_and_user ScenarioCmd.all_well ScenarioCmd.loaded
             "config.json" eq_refl eq_refl eq_refl).
  split; reflexivity.
Defined.

Lemma runProxyCmd_reset_witness :
  match Cmd.runProxyCmd ScenarioCmd.encode "sni.example" ScenarioCmd.reset_flag
          ScenarioCmd.all_well ScenarioCmd.loaded with
  | Done (st', t) =>
      Configuration.SNIAddress (Configuration.Tunnel (Configuration.AppConfig st'))
      = "sni.example"%string
      /\ Configuration.Socks (Configuration.AppConfig st')
         = Configuration.GetDefaultSocksConfig
  | Panic _ => False
  end.
Proof.
  pose proof (runProxyCmd_reset ScenarioCmd.encode "sni.example"
                ScenarioCmd.reset_flag ScenarioCmd.all_well ScenarioCmd.loaded
                "" eq_refl eq_refl eq_refl) as H.
  cbv zeta in H.
  destruct (Cmd.runProxyCmd ScenarioCmd.encode "sni.example" ScenarioCmd.reset_flag
              ScenarioCmd.all_well ScenarioCmd.loaded) as [[st' t] | m];
    [| exact H].
  destruct H as (_ & Hs & _ & Hr). cbn [Cmd.save_reset ScenarioCmd.all_well] in Hr.
  destruct Hr as [Hk _]. split; [exact Hs | exact Hk].
Defined.

(** ** The SOCKS server loop *)

Section SocksLoop.
Import Configuration SocksServer.
Local Open Scope string_scope.
Local Open Scope Z_scope.

Lemma createServer_done (username password : string) (netTun : nat) :
  createServer username password netTun
  = Done (CreateServer
            (negb (String.eqb username "") && negb (String.eqb password ""))
            netTun).
Proof. reflexivity. Qed.

Lemma handled_app t1 t2 : handled (t1 ++ t2) = (handled t1 ++ handled t2)%list.
Proof.
  induction t1 as [| ev t1 IH]; [reflexivity |].
  destruct ev; cbn [handled List.app]; rewrite ?IH; reflexivity.
Qed.

Lemma served_timeouts_app t1 t2 :
  served_timeouts (t1 ++ t2) = (served_timeouts t1 ++ served_timeouts t2)%list.
Proof.
  induction t1 as [| ev t1 IH]; [reflexivity |].
  destruct ev; cbn [served_timeouts List.app]; rewrite ?IH; reflexivity.
Qed.

Lemma servers_app t1 t2 : servers (t1 ++ t2) = (servers t1 ++ servers t2)%list.
Proof.
  induction t1 as [| ev t1 IH]; [reflexivity |].
  destruct ev; cbn [servers List.app]; rewrite ?IH; reflexivity.
Qed.

Lemma accept_loop_spec (cfg : Config) (idle : Z) (script : list accept_env) :
  forall (server : option nat) (created : nat) (t : list event),
    (PerClient (Tunnel cfg) = false -> server <> None) ->
    let auth := negb (String.eqb (Username (Socks cfg)) "")
                && negb (String.eqb (Password (Socks cfg)) "") in
    let r := accept_loop cfg idle server created script t in
    handled (snd r) = (handled t ++ accepted_conns script)%list
    /\ (exists n, served_timeouts (snd r)
                  = (served_timeouts t ++ List.repeat idle n)%list)
    /\ (exists n, servers (snd r) = (servers t ++ List.repeat auth n)%list
                  /\ (PerClient (Tunnel cfg) = false -> n = O))
    /\ (fst r = Accepting \/ fst r = Returned None).
Proof.
  induction script as [| it rest IH]; intros server created t Hs auth r.
  - unfold r. cbn. rewrite !List.app_nil_r. repeat split; auto.
    + exists O. rewrite List.app_nil_r. reflexivity.
    + exists O. rewrite List.app_nil_r. auto.
  - unfold r. cbn [accept_loop accepted_conns].
    destruct (accept it) as [aerr | conn].
    { destruct (ctx_cancelled it).
      - cbn. rewrite !List.app_nil_r. repeat split; auto.
        + exists O. rewrite List.app_nil_r. reflexivity.
        + exists O. rewrite List.app_nil_r. auto.
      - apply IH. exact Hs. }
    destruct (PerClient (Tunnel cfg)) eqn:Ep.
    + destruct (create_tun it) as [terr | [dev netTun]].
      * destruct (IH server created (t ++ [CloseConn conn])%list Hs)
          as (H1 & (n2 & H2) & (n3 & H3 & H3') & H4).
        rewrite H1, H2, H3, handled_app, served_timeouts_app, servers_app.
        cbn [handled served_timeouts servers]. rewrite !List.app_nil_r.
        rewrite <- List.app_assoc. cbn [List.app].
        repeat split; eauto.
      * rewrite createServer_done.
        destruct (IH server (S created)
                    (t ++ [StartTunnel dev;
                           CreateServer auth netTun;
                           ServeConn created conn idle (Some dev)])%list Hs)
          as (H1 & (n2 & H2) & (n3 & H3 & H3') & H4).
        fold auth. rewrite H1, H2, H3, handled_app, served_timeouts_app, servers_app.
        cbn [handled served_timeouts servers].
        rewrite <- !List.app_assoc. cbn [List.app].
        split; [reflexivity |]. split; [exists (S n2); reflexivity |].
        split; [| exact H4].
        exists (S n3). split; [reflexivity | discriminate].
    + destruct server as [s |]; [| exfalso; apply Hs; reflexivity].
      destruct (IH (Some s) created (t ++ [ServeConn s conn idle None])%list Hs)
        as (H1 & (n2 & H2) & (n3 & H3 & H3') & H4).
      rewrite H1, H2, H3, handled_app, served_timeouts_app, servers_app.
      cbn [handled served_timeouts servers]. rewrite !List.app_nil_r.
      rewrite <- !List.app_assoc. cbn [List.app].
      split; [reflexivity |]. split; [exists (S n2); reflexivity |].
      split; [| exact H4]. exists n3. auto.
Qed.

Lemma accept_loop_counts (cfg : Config) (idle : Z) (script : list accept_env) :
  PerClient (Tunnel cfg) = true ->
  forall (server : option nat) (created : nat) (t : list event),
    length (servers t) = length (served_timeouts t) ->
    length (servers (snd (accept_loop cfg idle server created script t)))
    = length (served_timeouts (snd (accept_loop cfg idle server created script t))).
Proof.
  intros Ep. induction script as [| it rest IH]; intros server created t Ht.
  - exact Ht.
  - cbn [accept_loop]. destruct (accept it) as [aerr | conn].
    { destruct (ctx_cancelled it); [exact Ht | apply IH; exact Ht]. }
    rewrite Ep. destruct (create_tun it) as [terr | [dev netTun]].
    + apply IH. rewrite servers_app, served_timeouts_app. cbn.
      rewrite !List.app_nil_r. exact Ht.
    + rewrite createServer_done. apply IH.
      rewrite servers_app, served_timeouts_app. cbn.
      rewrite !List.length_app. cbn. lia.
Qed.

(** X30: Once [Run] listens, no accepted connection is dropped: every connection
    that [Accept] hands out before the context is cancelled is either served
    or, in per-client mode when its TUN device cannot be created, closed, in
    the order of arrival; every served connection gets the idle timeout that
    [Run] was given; the loop never panics and ends only with a nil error,
    after an [Accept] that fails while the context is cancelled.  In shared
    mode one server is created, before listening; in per-client mode none is
    created at start and one for every connection served; all of them ask
    for authentication exactly when both a user name and a password are
    configured. *)
Theorem Run_handles_every_accepted_connection (cfg : Config) (idle : Z)
    (e : run_env) (script : list accept_env) :
  tls_config e = None -> network_config e = None -> listen e = None ->
  let auth := negb (String.eqb (Username (Socks cfg)) "")
              && negb (String.eqb (Password (Socks cfg)) "") in
  let r := Run cfg idle e script in
  handled (snd r) = accepted_conns script
  /\ Forall (fun i => i = idle) (served_timeouts (snd r))
  /\ Forall (fun a => a = auth) (servers (snd r))
  /\ (PerClient (Tunnel cfg) = false -> servers (snd r) = [auth])
  /\ (PerClient (Tunnel cfg) = true ->
      length (servers (snd r)) = length (served_timeouts (snd r)))
  /\ (fst r = Accepting \/ fst r = Returned None).
Proof.
  intros Ht Hn Hl auth r. unfold r, Run. rewrite Ht, Hn, Hl.
  destruct (PerClient (Tunnel cfg)) eqn:Ep; cbn [negb].
  - destruct (accept_loop_spec cfg idle script None O
                ([] ++ [Listen (BindAddress (Socks cfg)) (Port (Socks cfg))])%list)
      as (H1 & (n2 & H2) & (n3 & H3 & H3') & H4).
    { rewrite Ep. discriminate. }
    cbn [List.app handled served_timeouts servers] in *.
    split; [exact H1 |]. split; [| split; [| split; [| split]]].
    + rewrite H2. clear. induction n2; constructor; auto.
    + rewrite H3. fold auth. clear. induction n3; constructor; auto.
    + discriminate.
    + intros _. apply accept_loop_counts; [exact Ep | reflexivity].
    + exact H4.
  - rewrite createServer_done. fold auth.
    destruct (accept_loop_spec cfg idle script (Some O) 1%nat
                ([CreateServer auth 0]
                 ++ [Listen (BindAddress (Socks cfg)) (Port (Socks cfg))])%list)
      as (H1 & (n2 & H2) & (n3 & H3 & H3') & H4).
    { discriminate. }
    cbn [List.app handled served_timeouts servers] in *.
    split; [exact H1 |]. split; [| split; [| split; [| split]]].
    + rewrite H2. clear. induction n2; constructor; auto.
    + rewrite H3. fold auth. constructor; [reflexivity |].
      clear. induction n3; constructor; auto.
    + intros _. rewrite H3, (H3' Ep). reflexivity.
    + discriminate.
    + exact H4.
Qed.
End SocksLoop.

Lemma Run_handles_every_accepted_connection_witness :
  let r := SocksServer.Run ScenarioSocks.per_client 300000000000
             ScenarioSocks.ready ScenarioSocks.arrivals in
  SocksServer.handled (snd r) = [1; 2; 3]%nat
  /\ SocksServer.servers (snd r) = [true; true]
  /\ fst r = SocksServer.Returned None.
Proof.
  intros r.
  destruct (Run_handles_every_accepted_connection ScenarioSocks.per_client
              300000000000 ScenarioSocks.ready ScenarioSocks.arrivals
              eq_refl eq_refl eq_refl) as (H1 & _).
  split; [exact H1 |]. split; reflexivity.
Defined.

Section ResolverFromConfig.
Import Configuration SocksServer.
Local Open Scope string_scope.
Local Open Scope Z_scope.

Lemma Seconds_whole (k : Z) :
  0 < k < 2 ^ 52 ->
  Binary64.to_int64 (Seconds (k * GoTime.Second)) = k.
Proof.
  intros Hk. unfold Seconds.
  assert (Es : GoTime.Second = 1000000000) by reflexivity.
  rewrite Z.quot_mul by (rewrite Es; discriminate).
  rewrite Z.rem_mul by (rewrite Es; discriminate).
  change (SFdiv Binary64.prec Binary64.emax (Binary64.of_int64 0)
            (Binary64.of_int64 1000000000)) with (S754_zero false).
  destruct (of_int64_small k Hk) as (a & d & _ & _ & E).
  pose proof (to_int64_of_int64 k Hk) as Hto.
  rewrite E in *. cbn [SFadd]. exact Hto.
Qed.

(** X5: The DNS cache lives as long as the DNS timeout is configured to be: the
    resolver that the SOCKS server creates takes the whole seconds of
    [tunnel.dns_timeout] as its cache TTL, so with a timeout of [k] seconds an
    answer is served from the cache for [k] seconds, and a timeout of zero
    gives the resolver's default of 600 seconds.  The server is always the
    default one, 8.8.8.8:53. *)
Theorem resolver_ttl_is_dns_timeout (cfg : Config) (k : Z) :
  Resolver.DNSServer (resolver_of cfg) = "8.8.8.8:53"
  /\ (DNSTimeout (Tunnel cfg) = 0 -> Resolver.CacheTTL (resolver_of cfg) = 600)
  /\ (0 < k < 2 ^ 52 -> DNSTimeout (Tunnel cfg) = k * GoTime.Second ->
      Resolver.CacheTTL (resolver_of cfg) = k).
Proof.
  split; [reflexivity |]. split.
  - intros Hz. unfold resolver_of. rewrite Hz. reflexivity.
  - intros Hk Hd. unfold resolver_of. rewrite Hd, (Seconds_whole k Hk).
    unfold Resolver.NewCachingDNSResolver. cbn [Resolver.CacheTTL].
    destruct (Z.leb_spec k 0); [lia | reflexivity].
Qed.

Lemma resolver_ttl_is_dns_timeout_witness :
  Resolver.CacheTTL
    (resolver_of (InitNewConfig "key" "162.159.198.1" "2606:4700:103::1" "PEM"
                    "license-1" "id-1" "token" "172.16.0.2" "2606:4700:110::2"
                    "laptop")) = 2.
Proof.
  destruct (resolver_ttl_is_dns_timeout
              (InitNewConfig "key" "162.159.198.1" "2606:4700:103::1" "PEM"
                 "license-1" "id-1" "token" "172.16.0.2" "2606:4700:110::2"
                 "laptop") 2) as (_ & _ & H).
  apply H; [lia | reflexivity].
Defined.
End ResolverFromConfig.
